(** * multiagent-chat: process I/O supervision and file-based coordination

    A shallow embedding of [src/orchestrator.py] ([AgentProcess],
    [MultiAgentOrchestrator._sanitize_output], [setup_workspace],
    [on_chat_modified], [send_user_message]) and of [src/mock_agent.py]
    ([log], [read_chat], [append_to_chat], [write_plan]), with the
    properties the specification states about them; and, further down, of
    the reader thread, [read_agent_output], [on_unmount], the watcher's
    handler and [analyze_chat], with properties read off the code.

    Python strings are sequences of Unicode code points and are modelled as
    [list N]; the operating system (files, descriptors, channels, child
    processes, the clock) is an explicit [World]; a method is a function of
    the object and the world that returns both, with [Ok] for a normal
    return and [Raise] for an exception.  The platform is POSIX, with UTF-8
    as the encoding of files and pipes. *)

From Stdlib Require Import NArith ZArith String Ascii List Lia DecimalString HexadecimalString.
From stdpp Require Import base option list gmap.
From Equations.Prop Require Import Equations Logic.

Open Scope N_scope.

(** ** Python strings *)

(** A [str] is a list of code points. *)
Abbreviation pystr := (list N).

(** A string literal of the source, read as code points. *)
Definition py (s : string) : pystr := map N_of_ascii (list_ascii_of_string s).

Definition TAB : N := 9.
Definition LF : N := 10.
Definition CR : N := 13.
Definition ESC : N := 27.
Definition SPACE : N := 32.

Definition in_range (lo hi c : N) : bool := (lo <=? c) && (c <=? hi).

(** [str.isspace] on one character: the code points CPython's
    [_PyUnicode_IsWhitespace] accepts. *)
Definition isspace (c : N) : bool :=
  in_range 0x09 0x0D c || in_range 0x1C 0x20 c || (c =? 0x85) || (c =? 0xA0)
  || (c =? 0x1680) || in_range 0x2000 0x200A c || (c =? 0x2028) || (c =? 0x2029)
  || (c =? 0x202F) || (c =? 0x205F) || (c =? 0x3000).

(** The line boundaries of [str.splitlines]
    (CPython's [_PyUnicode_IsLinebreak]). *)
Definition is_linebreak (c : N) : bool :=
  in_range 0x0A 0x0D c || in_range 0x1C 0x1E c || (c =? 0x85)
  || (c =? 0x2028) || (c =? 0x2029).

Fixpoint lstrip (s : pystr) : pystr :=
  match s with
  | c :: t => if isspace c then lstrip t else s
  | [] => []
  end.

Definition rstrip (s : pystr) : pystr := rev (lstrip (rev s)).

(** [str.strip()] with no argument. *)
Definition strip (s : pystr) : pystr := rstrip (lstrip s).

(** [str.splitlines()]: [cur] is the line being read.  A boundary ends the
    current line (also an empty one), CR LF counts as one boundary, and
    the text after the last boundary is a line only when it is not empty. *)
Fixpoint splitlines_from (cur s : pystr) : list pystr :=
  match s with
  | [] => match cur with [] => [] | _ => [cur] end
  | c :: t =>
      if is_linebreak c then
        cur :: (if c =? CR
                then match t with
                     | d :: t' => if d =? LF then splitlines_from [] t'
                                  else splitlines_from [] t
                     | [] => splitlines_from [] t
                     end
                else splitlines_from [] t)
      else splitlines_from (cur ++ [c]) t
  end.

Definition splitlines (s : pystr) : list pystr := splitlines_from [] s.

(** ** The output sanitizer *)

Module Sanitizer.

(** The character classes of [ANSI_ESCAPE_RE],
    [\x1B\[[0-?]*[ -/]*[@-~]|\x1B[@-_]]. *)
Definition is_param (c : N) : bool := in_range 0x30 0x3F c.   (* [0-?] *)
Definition is_inter (c : N) : bool := in_range 0x20 0x2F c.   (* [ -/] *)
Definition is_final (c : N) : bool := in_range 0x40 0x7E c.   (* [@-~] *)
Definition is_esc2 (c : N) : bool := in_range 0x40 0x5F c.    (* [@-_] *)

(** A greedy star over one character class: the text after the longest run. *)
Fixpoint skip_while (p : N -> bool) (s : pystr) : pystr :=
  match s with
  | c :: t => if p c then skip_while p t else s
  | [] => []
  end.

(** First alternative, anchored at the head of [s]; the result is the text
    after the match.  The three classes are pairwise disjoint, so the
    greedy runs are the only way to match (see [match_csi_complete]). *)
Definition match_csi (s : pystr) : option pystr :=
  match s with
  | e :: b :: t =>
      if (e =? ESC) && (b =? 0x5B) then
        match skip_while is_inter (skip_while is_param t) with
        | f :: rest => if is_final f then Some rest else None
        | [] => None
        end
      else None
  | _ => None
  end.

(** Second alternative: ESC and one character of [@-_]. *)
Definition match_esc2 (s : pystr) : option pystr :=
  match s with
  | e :: c :: rest => if (e =? ESC) && is_esc2 c then Some rest else None
  | _ => None
  end.

(** The alternation tries the first alternative first. *)
Definition match_ansi (s : pystr) : option pystr :=
  match match_csi s with
  | Some rest => Some rest
  | None => match_esc2 s
  end.

Lemma skip_while_length p s : (length (skip_while p s) <= length s)%nat.
Proof. induction s as [|c t IH]; simpl; [lia|]. destruct (p c); simpl; lia. Qed.

Lemma match_ansi_shorter s rest :
  match_ansi s = Some rest -> (length rest < length s)%nat.
Proof.
  unfold match_ansi, match_csi, match_esc2.
  destruct s as [|e [|b t]]; try discriminate.
  pose proof (skip_while_length is_inter (skip_while is_param t)) as H1.
  pose proof (skip_while_length is_param t) as H2.
  destruct ((e =? ESC) && (b =? 0x5B)).
  - destruct (skip_while is_inter (skip_while is_param t)) as [|f r] eqn:E.
    + destruct ((e =? ESC) && is_esc2 b); intros [= <-]; simpl; lia.
    + destruct (is_final f).
      * intros [= <-]. simpl in *. lia.
      * destruct ((e =? ESC) && is_esc2 b); intros [= <-]; simpl; lia.
  - destruct ((e =? ESC) && is_esc2 b); intros [= <-]; simpl; lia.
Qed.

(** [ANSI_ESCAPE_RE.sub("", s)]: scan from the left; a match is deleted and
    the scan goes on after it, any other character is kept. *)
Equations? sub_ansi (s : pystr) : pystr by wf (length s) lt :=
  sub_ansi [] := [];
  sub_ansi (c :: t) with inspect (match_ansi (c :: t)) := {
    | exist _ (Some rest) Hm => sub_ansi rest;
    | exist _ None _ => c :: sub_ansi t }.
Proof.
  apply match_ansi_shorter in Hm. exact Hm.
Qed.

Section WithTable.

(** [str.isprintable] on one character is a table of the Unicode
    database of the interpreter; the development takes it as given. *)
Variable isprintable : N -> bool.

(** [ch.isprintable() or ch in "\n\t"] *)
Definition keep (ch : N) : bool := isprintable ch || (ch =? LF) || (ch =? TAB).

(** [line if line.strip() else " "] *)
Definition blank_to_space (line : pystr) : pystr :=
  match strip line with
  | [] => [SPACE]
  | _ => line
  end.

Definition replace_cr (text : pystr) : pystr :=
  map (fun c => if c =? CR then LF else c) text.

Definition _sanitize_output (text : pystr) : list pystr :=
  let cleaned := replace_cr text in
  let cleaned := sub_ansi cleaned in
  let cleaned := filter (fun ch => keep ch = true) cleaned in
  map blank_to_space (splitlines cleaned).

End WithTable.

(** The Latin-1 part of the table: C0 and C1 controls, DEL, NBSP (Zs) and
    SOFT HYPHEN (Cf) are not printable.  It serves to run the sanitizer on
    inputs within U+0000..U+00FF; the theorems hold for every table. *)
Definition isprintable_latin1 (c : N) : bool :=
  in_range 0x20 0x7E c || in_range 0xA1 0xAC c || in_range 0xAE 0xFF c.

End Sanitizer.

(** ** Exceptions *)

(** The exception classes the modelled calls raise; all derive from
    [Exception], so [except Exception] catches each of them. *)
Inductive exn :=
| ValueError (msg : pystr)
| OSError (errno : N) (strerror : pystr)
| UnicodeEncodeError (msg : pystr)
| TimeoutExpired (timeout : N)
| AttributeError (msg : pystr)
| NoMatches (msg : pystr).

Definition str_of_N (n : N) : pystr := py (DecimalString.NilZero.string_of_uint (N.to_uint n)).

(** [str(e)], the text an f-string puts for [{e}]. *)
Definition str_exn (e : exn) : pystr :=
  match e with
  | ValueError msg => msg
  | OSError errno strerror => py "[Errno " ++ str_of_N errno ++ py "] " ++ strerror
  | UnicodeEncodeError msg => msg
  | TimeoutExpired t => py "Command timed out after " ++ str_of_N t ++ py " seconds"
  | AttributeError msg => msg
  | NoMatches msg => msg
  end.

Definition closed_file_error : exn := ValueError (py "I/O operation on closed file.").
Definition EBADF : exn := OSError 9 (py "Bad file descriptor").
Definition EPIPE : exn := OSError 32 (py "Broken pipe").
Definition EIO : exn := OSError 5 (py "Input/output error").

(** ** The UTF-8 codec of [str.encode()] and of text-mode files *)

Definition is_surrogate (c : N) : bool := in_range 0xD800 0xDFFF c.

Definition utf8_char (c : N) : list N :=
  if c <? 0x80 then [c]
  else if c <? 0x800 then [0xC0 + c / 64; 0x80 + c mod 64]
  else if c <? 0x10000 then
    [0xE0 + c / 4096; 0x80 + (c / 64) mod 64; 0x80 + c mod 64]
  else
    [0xF0 + c / 262144; 0x80 + (c / 4096) mod 64; 0x80 + (c / 64) mod 64;
     0x80 + c mod 64].

(** Length of the run of surrogates at the head of [s]. *)
Fixpoint surrogate_run (s : pystr) : nat :=
  match s with
  | c :: t => if is_surrogate c then S (surrogate_run t) else O
  | [] => O
  end.

Definition hex_of_N (n : N) : pystr :=
  py (HexadecimalString.NilZero.string_of_uint (N.to_hex_uint n)).

Definition surrogate_error (pos : nat) (c : N) (run : nat) : exn :=
  let where_ :=
    match run with
    | 1%nat => py "character '\u" ++ hex_of_N c ++ py "' in position "
               ++ str_of_N (N.of_nat pos)
    | _ => py "characters in position " ++ str_of_N (N.of_nat pos) ++ py "-"
           ++ str_of_N (N.of_nat (pos + run - 1))
    end in
  UnicodeEncodeError
    (py "'utf-8' codec can't encode " ++ where_
     ++ py ": surrogates not allowed").

(** Strict UTF-8 encoding from position [pos] on: a lone surrogate cannot
    be encoded. *)
Fixpoint utf8_encode_from (pos : nat) (s : pystr) : exn + list N :=
  match s with
  | [] => inr []
  | c :: t =>
      if is_surrogate c then inl (surrogate_error pos c (surrogate_run s))
      else match utf8_encode_from (S pos) t with
           | inr bytes => inr (utf8_char c ++ bytes)
           | inl e => inl e
           end
  end.

Definition utf8_encode (s : pystr) : exn + list N := utf8_encode_from 0 s.

Definition encodable (s : pystr) : bool := forallb (fun c => negb (is_surrogate c)) s.

(** ** The world outside the interpreter *)

(** A channel to a child process (its stdin pipe, or its
    pseudo-terminal): the bytes sent to the child so far, or the error a
    write meets once the other side is gone. *)
Inductive chan_state :=
| ChanOpen (received : list N)
| ChanBroken (err : exn).

(** A child process that has not been waited for. *)
Inductive child_state :=
| Alive (ignores_sigterm : bool)
| Zombie (status : Z).

Record World := {
  files : gmap pystr pystr;        (* regular files: path to text content *)
  open_errors : gmap pystr exn;    (* paths that cannot be opened for writing
                                      (or created), and the error raised *)
  fds : gmap N N;                  (* open descriptors of this process, and
                                      the channel each one leads to *)
  channels : gmap N chan_state;    (* channels, which outlive descriptors *)
  children : gmap N child_state;   (* child processes, by pid *)
  programs : gmap pystr bool;      (* launchable commands; the flag tells a
                                      program that ignores SIGTERM *)
  now : pystr;                     (* the clock, as strftime("%H:%M:%S") *)
  stdout : list pystr;             (* lines printed so far *)
}.

Definition set_files (f : gmap pystr pystr) (w : World) : World :=
  {| files := f; open_errors := open_errors w; fds := fds w;
     channels := channels w; children := children w; programs := programs w;
     now := now w; stdout := stdout w |}.

Definition set_fds (f : gmap N N) (w : World) : World :=
  {| files := files w; open_errors := open_errors w; fds := f;
     channels := channels w; children := children w; programs := programs w;
     now := now w; stdout := stdout w |}.

Definition set_channels (c : gmap N chan_state) (w : World) : World :=
  {| files := files w; open_errors := open_errors w; fds := fds w;
     channels := c; children := children w; programs := programs w;
     now := now w; stdout := stdout w |}.

Definition set_children (c : gmap N child_state) (w : World) : World :=
  {| files := files w; open_errors := open_errors w; fds := fds w;
     channels := channels w; children := c; programs := programs w;
     now := now w; stdout := stdout w |}.

Definition set_stdout (o : list pystr) (w : World) : World :=
  {| files := files w; open_errors := open_errors w; fds := fds w;
     channels := channels w; children := children w; programs := programs w;
     now := now w; stdout := o |}.

(** ** Effects: state passing with exceptions *)

Inductive Result (A : Type) :=
| Ok (a : A)
| Raise (e : exn).
Arguments Ok {A} a.
Arguments Raise {A} e.

(** A computation over a state [S] (the object [self] and the world, or
    the world alone).  It leaves a state also when it raises: what was
    done before the exception stays done. *)
Definition M (S A : Type) : Type := S -> Result A * S.

Definition ret {S A} (a : A) : M S A := fun s => (Ok a, s).
Definition raise {S A} (e : exn) : M S A := fun s => (Raise e, s).

Definition bind {S A B} (m : M S A) (k : A -> M S B) : M S B :=
  fun s => match m s with
           | (Ok a, s') => k a s'
           | (Raise e, s') => (Raise e, s')
           end.

(** [try: m  except Exception as e: h e] *)
Definition try_except {S A} (m : M S A) (h : exn -> M S A) : M S A :=
  fun s => match m s with
           | (Ok a, s') => (Ok a, s')
           | (Raise e, s') => h e s'
           end.

Definition get_state {S} : M S S := fun s => (Ok s, s).
Definition put_state {S} (s : S) : M S unit := fun _ => (Ok tt, s).

Notation "'let!' x ':=' m 'in' k" := (bind m (fun x => k))
  (at level 10, x name, m at level 200, k at level 200, only parsing).
Notation "'exec' m 'in' k" := (bind m (fun _ => k))
  (at level 10, m at level 200, k at level 200, only parsing).

(** A computation keeps a property of the state when it holds after the
    computation whenever it held before, however the computation ends. *)
Definition keeps {S A} (Q : S -> Prop) (m : M S A) : Prop :=
  forall s, Q s -> Q (snd (m s)).

(** Run a computation on a part [T] of the state [S]. *)
Definition zoom {S T A} (proj : S -> T) (upd : T -> S -> S) (m : M T A) : M S A :=
  fun s => match m (proj s) with (r, t') => (r, upd t' s) end.

(** A method of an object of class [Self] runs on the object and the
    world. *)
Definition get_self {Self} : M (Self * World) Self := fun s => (Ok (fst s), s).
Definition modify_self {Self} (f : Self -> Self) : M (Self * World) unit :=
  fun s => (Ok tt, (f (fst s), snd s)).
Definition in_world {Self A} (m : M World A) : M (Self * World) A :=
  zoom snd (fun w s => (fst s, w)) m.

(** [s.encode()], and the encoding a text-mode file does on a write. *)
Definition str_encode {S} (s : pystr) : M S (list N) :=
  match utf8_encode s with
  | inr bytes => ret bytes
  | inl e => raise e
  end.

(** *** Descriptors *)

(** [os.write(fd, data)] *)
Definition os_write (fd : N) (data : list N) : M World unit :=
  let! w := get_state in
  match fds w !! fd with
  | None => raise EBADF
  | Some ch =>
      match channels w !! ch with
      | None => raise EBADF
      | Some (ChanBroken e) => raise e
      | Some (ChanOpen received) =>
          put_state (set_channels (<[ch := ChanOpen (received ++ data)]> (channels w)) w)
      end
  end.

(** [os.close(fd)] *)
Definition os_close (fd : N) : M World unit :=
  let! w := get_state in
  match fds w !! fd with
  | None => raise EBADF
  | Some _ => put_state (set_fds (delete fd (fds w)) w)
  end.

(** *** Regular files, text mode *)

(** [with open(path, "a") as f: f.write(text)].  Opening creates the file;
    the text is encoded when it is written, and a line feed is written as
    it is.  A file is kept as the text its bytes decode to. *)
Definition append_text (path text : pystr) : M World unit :=
  let! w := get_state in
  match open_errors w !! path with
  | Some e => raise e
  | None =>
      let old := default [] (files w !! path) in
      exec put_state (set_files (<[path := old]> (files w)) w) in
      let! _ := str_encode text in
      put_state (set_files (<[path := old ++ text]> (files w)) w)
  end.

(** [Path.write_text(text)] and [open(path, "w")]: the file is truncated
    when it is opened. *)
Definition write_text (path text : pystr) : M World unit :=
  let! w := get_state in
  match open_errors w !! path with
  | Some e => raise e
  | None =>
      exec put_state (set_files (<[path := []]> (files w)) w) in
      let! _ := str_encode text in
      put_state (set_files (<[path := text]> (files w)) w)
  end.

(** Reading in text mode translates CR LF and CR to LF. *)
Fixpoint universal_newlines (s : pystr) : pystr :=
  match s with
  | [] => []
  | c :: t =>
      if c =? CR then
        LF :: match t with
              | d :: t' => if d =? LF then universal_newlines t'
                           else universal_newlines t
              | [] => []
              end
      else c :: universal_newlines t
  end.

(** [Path.exists()] *)
Definition path_exists (path : pystr) : M World bool :=
  let! w := get_state in ret (bool_decide (is_Some (files w !! path))).

Definition ENOENT : exn := OSError 2 (py "No such file or directory").

(** [Path.read_text()] *)
Definition read_text (path : pystr) : M World pystr :=
  let! w := get_state in
  match files w !! path with
  | Some content => ret (universal_newlines content)
  | None => raise ENOENT
  end.

(** [Path.mkdir(exist_ok=True)]: directories are not tracked, only the
    failure to create one. *)
Definition mkdir (path : pystr) : M World unit :=
  let! w := get_state in
  match open_errors w !! path with
  | Some e => raise e
  | None => ret tt
  end.

(** [print(line, flush=True)] *)
Definition print (line : pystr) : M World unit :=
  let! w := get_state in put_state (set_stdout (stdout w ++ [line]) w).

(** [datetime.now().strftime("%H:%M:%S")] *)
Definition strftime_now : M World pystr := let! w := get_state in ret (now w).

(** The lines, each ended by a line feed. *)
Definition unlines (ls : list pystr) : pystr := flat_map (fun l => l ++ [LF]) ls.

(** [a / b] on paths. *)
Definition path_join (a b : pystr) : pystr := a ++ py "/" ++ b.

(** ** [AgentProcess] (src/orchestrator.py) *)

Module Agent.

(** [process.stdin], the text-mode file object over the write end of the
    pipe.  It is unbuffered ([bufsize=0]): a write goes straight to the
    descriptor. *)
Record TextIO := { fileno : N; closed : bool }.

(** The [subprocess.Popen] object. *)
Record Popen := {
  pid : N;
  stdin : option TextIO;
  returncode : option Z;
}.

Record AgentProcess := {
  name : pystr;
  command : pystr;
  args : list pystr;
  workspace : pystr;
  use_pty : bool;
  process : option Popen;
  output_buffer : list pystr;
  running : bool;
  output_queue : list pystr;
  reader_thread : bool;          (* the reader thread has been started *)
  master_fd : option N;
}.

Definition State : Type := AgentProcess * World.

Definition set_process (p : option Popen) (a : AgentProcess) : AgentProcess :=
  {| name := name a; command := command a; args := args a;
     workspace := workspace a; use_pty := use_pty a; process := p;
     output_buffer := output_buffer a; running := running a;
     output_queue := output_queue a; reader_thread := reader_thread a;
     master_fd := master_fd a |}.

Definition set_output_buffer (b : list pystr) (a : AgentProcess) : AgentProcess :=
  {| name := name a; command := command a; args := args a;
     workspace := workspace a; use_pty := use_pty a; process := process a;
     output_buffer := b; running := running a;
     output_queue := output_queue a; reader_thread := reader_thread a;
     master_fd := master_fd a |}.

Definition set_running (r : bool) (a : AgentProcess) : AgentProcess :=
  {| name := name a; command := command a; args := args a;
     workspace := workspace a; use_pty := use_pty a; process := process a;
     output_buffer := output_buffer a; running := r;
     output_queue := output_queue a; reader_thread := reader_thread a;
     master_fd := master_fd a |}.

Definition set_output_queue (q : list pystr) (a : AgentProcess) : AgentProcess :=
  {| name := name a; command := command a; args := args a;
     workspace := workspace a; use_pty := use_pty a; process := process a;
     output_buffer := output_buffer a; running := running a;
     output_queue := q; reader_thread := reader_thread a;
     master_fd := master_fd a |}.

Definition set_reader_thread (t : bool) (a : AgentProcess) : AgentProcess :=
  {| name := name a; command := command a; args := args a;
     workspace := workspace a; use_pty := use_pty a; process := process a;
     output_buffer := output_buffer a; running := running a;
     output_queue := output_queue a; reader_thread := t;
     master_fd := master_fd a |}.

Definition set_master_fd (fd : option N) (a : AgentProcess) : AgentProcess :=
  {| name := name a; command := command a; args := args a;
     workspace := workspace a; use_pty := use_pty a; process := process a;
     output_buffer := output_buffer a; running := running a;
     output_queue := output_queue a; reader_thread := reader_thread a;
     master_fd := fd |}.

Definition __init__ (name command : pystr) (args : list pystr)
    (workspace : pystr) (use_pty : bool) : AgentProcess :=
  {| name := name; command := command; args := args; workspace := workspace;
     use_pty := use_pty; process := None; output_buffer := [];
     running := false; output_queue := []; reader_thread := false;
     master_fd := None |}.

(** *** The file object [process.stdin] *)

(** [f.write(s)] *)
Definition TextIO_write (s : pystr) : M (TextIO * World) unit :=
  let! f := get_self in
  if closed f then raise closed_file_error
  else let! bytes := str_encode s in in_world (os_write (fileno f) bytes).

(** [f.flush()] *)
Definition TextIO_flush : M (TextIO * World) unit :=
  let! f := get_self in
  if closed f then raise closed_file_error else ret tt.

(** [f.close()]: the object is closed whatever closing the descriptor
    answers; closing a closed file does nothing. *)
Definition TextIO_close : M (TextIO * World) unit :=
  let! f := get_self in
  if closed f then ret tt
  else exec modify_self (fun f => {| fileno := fileno f; closed := true |}) in
       in_world (os_close (fileno f)).

(** *** The [Popen] object *)

Definition set_returncode (rc : option Z) (p : Popen) : Popen :=
  {| pid := pid p; stdin := stdin p; returncode := rc |}.

Definition set_stdin (f : option TextIO) (p : Popen) : Popen :=
  {| pid := pid p; stdin := f; returncode := returncode p |}.

(** [Popen.poll()]: a child that has exited is reaped and its status
    kept; a pid that is no longer a child counts as exited with 0. *)
Definition poll : M (Popen * World) (option Z) :=
  fun s =>
    let p := fst s in let w := snd s in
    match returncode p with
    | Some rc => (Ok (Some rc), s)
    | None =>
        match children w !! pid p with
        | Some (Zombie status) =>
            (Ok (Some status),
             (set_returncode (Some status) p,
              set_children (delete (pid p) (children w)) w))
        | Some (Alive _) => (Ok None, s)
        | None => (Ok (Some 0%Z), (set_returncode (Some 0%Z) p, w))
        end
    end.

Definition SIGKILL : N := 9.
Definition SIGTERM : N := 15.

(** [os.kill(pid, sig)] for the two signals used: SIGKILL ends the child,
    SIGTERM ends it unless the child ignores it. *)
Definition os_kill (pid : N) (sig : N) : M World unit :=
  let! w := get_state in
  match children w !! pid with
  | Some (Alive ignores) =>
      if (sig =? SIGKILL) || negb ignores
      then put_state (set_children (<[pid := Zombie (- Z.of_N sig)]> (children w)) w)
      else ret tt
  | Some (Zombie _) => ret tt
  | None => raise (OSError 3 (py "No such process"))
  end.

(** [Popen.send_signal(sig)]: nothing is sent to a child known to have
    exited, and a missing process is not an error. *)
Definition send_signal (sig : N) : M (Popen * World) unit :=
  let! rc := poll in
  match rc with
  | Some _ => ret tt
  | None =>
      let! p := get_self in
      try_except (in_world (os_kill (pid p) sig)) (fun _ => ret tt)
  end.

Definition terminate : M (Popen * World) unit := send_signal SIGTERM.
Definition kill : M (Popen * World) unit := send_signal SIGKILL.

(** [Popen.wait(timeout)]: the status of a child that has exited;
    [TimeoutExpired] for a child that is still running when the timeout
    ends. *)
Definition wait (timeout : N) : M (Popen * World) Z :=
  let! rc := poll in
  match rc with
  | Some status => ret status
  | None => raise (TimeoutExpired timeout)
  end.

(** [self.process.m(...)] *)
Definition on_process {A} (m : M (Popen * World) A) : M State A :=
  fun s =>
    match process (fst s) with
    | Some p =>
        match m (p, snd s) with
        | (r, (p', w')) => (r, (set_process (Some p') (fst s), w'))
        end
    | None =>
        (Raise (AttributeError (py "'NoneType' object has no attribute")), s)
    end.

(** [self.process.stdin.m(...)] *)
Definition on_stdin {A} (m : M (TextIO * World) A) : M State A :=
  on_process (fun s =>
    match stdin (fst s) with
    | Some f =>
        match m (f, snd s) with
        | (r, (f', w')) => (r, (set_stdin (Some f') (fst s), w'))
        end
    | None =>
        (Raise (AttributeError (py "'NoneType' object has no attribute")), s)
    end).

(** *** Launching *)

(** [pty.openpty()]: a new terminal and two fresh descriptors for it,
    master and slave. *)
Definition openpty : M World (N * N) :=
  let! w := get_state in
  let ch := fresh (dom (channels w)) in
  let master := fresh (dom (fds w)) in
  let fds1 := <[master := ch]> (fds w) in
  let slave := fresh (dom fds1) in
  exec put_state (set_channels (<[ch := ChanOpen []]> (channels w))
              (set_fds (<[slave := ch]> fds1) w)) in
  ret (master, slave).

(** [subprocess.Popen([command] + args, cwd=..., stdin=...)]: the command
    must exist; with [stdin=subprocess.PIPE] a pipe is made and its write
    end becomes [process.stdin].  The descriptors tracked are those the
    session writes to or closes: the read end of the pipe for the child's
    output, [process.stdout], which the program never closes, is not
    among [fds]. *)
Definition Popen_new (command : pystr) (pipe_stdin : bool) : M World Popen :=
  let! w := get_state in
  match programs w !! command with
  | None => raise ENOENT
  | Some ignores =>
      let pid := fresh (dom (children w)) in
      let w1 := set_children (<[pid := Alive ignores]> (children w)) w in
      if pipe_stdin then
        let ch := fresh (dom (channels w1)) in
        let fd := fresh (dom (fds w1)) in
        exec put_state (set_channels (<[ch := ChanOpen []]> (channels w1))
                    (set_fds (<[fd := ch]> (fds w1)) w1)) in
        ret {| pid := pid; stdin := Some {| fileno := fd; closed := false |};
               returncode := None |}
      else
        exec put_state w1 in
        ret {| pid := pid; stdin := None; returncode := None |}
  end.

(** Both the buffer and the queue get the message
    [f"{prefix}{e}\n"]. *)
Definition record_error (prefix : pystr) (e : exn) : M State unit :=
  let msg := prefix ++ str_exn e ++ [LF] in
  exec modify_self (fun a => set_output_buffer (output_buffer a ++ [msg]) a) in
  modify_self (fun a => set_output_queue (output_queue a ++ [msg]) a).

Definition start : M State bool :=
  try_except
    (let! self := get_self in
     exec (if use_pty self then
             let! fdpair := in_world openpty in
             exec modify_self (set_master_fd (Some (fst fdpair))) in
             let! p := in_world (Popen_new (command self) false) in
             exec modify_self (set_process (Some p)) in
             in_world (os_close (snd fdpair))
           else
             let! p := in_world (Popen_new (command self) true) in
             modify_self (set_process (Some p))) in
     exec modify_self (set_running true) in
     exec modify_self (set_reader_thread true) in
     ret true)
    (fun e =>
       let! self := get_self in
       exec record_error (py "Error starting " ++ name self ++ py ": ") e in
       ret false).

(** *** Output capture *)

Definition _enqueue_output (text : pystr) : M State unit :=
  exec modify_self (fun a => set_output_queue (output_queue a ++ [text]) a) in
  exec modify_self (fun a => set_output_buffer (output_buffer a ++ [text]) a) in
  try_except
    (let! self := get_self in
     let log_path := path_join (workspace self) (name self ++ py ".log") in
     in_world (append_text log_path text))
    (fun _ => ret tt).

Definition read_output : M State pystr :=
  let! self := get_self in
  match output_queue self with
  | text :: rest => exec modify_self (set_output_queue rest) in ret text
  | [] => ret []
  end.

(** *** Input *)

Definition send_input (text : pystr) (close : bool) : M State unit :=
  let! self := get_self in
  match use_pty self, master_fd self with
  | true, Some fd =>
      try_except
        (let! data := str_encode (text ++ [LF]) in in_world (os_write fd data))
        (fun e => record_error (py "Error sending input (pty): ") e)
  | _, _ =>
      match process self with
      | Some p =>
          match stdin p with
          | Some _ =>
              try_except
                (exec on_stdin (TextIO_write (text ++ [LF])) in
                 exec on_stdin TextIO_flush in
                 if close then on_stdin TextIO_close else ret tt)
                (fun e => record_error (py "Error sending input: ") e)
          | None => ret tt
          end
      | None => ret tt
      end
  end.

(** *** Stopping *)

Definition stop : M State unit :=
  let! self := get_self in
  exec match process self with
       | Some _ =>
           exec modify_self (set_running false) in
           try_except
             (exec on_process terminate in
              let! _ := on_process (wait 5) in ret tt)
             (fun _ => on_process kill)
       | None => ret tt
       end in
  let! self := get_self in
  match master_fd self with
  | Some fd =>
      exec try_except (in_world (os_close fd)) (fun _ => ret tt) in
      modify_self (set_master_fd None)
  | None => ret tt
  end.

(** *** Sequences of calls *)

(** The reader thread hands each chunk it reads to [_enqueue_output]. *)
Fixpoint enqueue_all (chunks : list pystr) : M State unit :=
  match chunks with
  | [] => ret tt
  | text :: rest => exec _enqueue_output text in enqueue_all rest
  end.

(** [n] consecutive calls of [read_output], with their results in order. *)
Fixpoint read_n (n : nat) : M State (list pystr) :=
  match n with
  | O => ret []
  | S k =>
      let! text := read_output in
      let! texts := read_n k in
      ret (text :: texts)
  end.

(** Consecutive calls [send_input(text, close)]. *)
Fixpoint send_all (calls : list (pystr * bool)) : M State unit :=
  match calls with
  | [] => ret tt
  | call :: rest => exec send_input (fst call) (snd call) in send_all rest
  end.

(** A call on a session, by the application or by its reader thread
    (which hands chunks over and, when it ends, clears [running]). *)
Inductive call :=
| Start
| SendInput (text : pystr) (close : bool)
| EnqueueOutput (text : pystr)
| ReadOutput
| ReaderExit
| Stop.

Definition run_call (c : call) (s : State) : State :=
  match c with
  | Start => snd (start s)
  | SendInput text close => snd (send_input text close s)
  | EnqueueOutput text => snd (_enqueue_output text s)
  | ReadOutput => snd (read_output s)
  | ReaderExit => (set_running false (fst s), snd s)
  | Stop => snd (stop s)
  end.

Definition run_calls (cs : list call) (s : State) : State :=
  fold_left (fun s c => run_call c s) cs s.

(** *** States the properties speak of *)

(** The session after a chunk has been captured. *)
Definition captured (text : pystr) (a : AgentProcess) : AgentProcess :=
  set_output_buffer (output_buffer a ++ [text])
    (set_output_queue (output_queue a ++ [text]) a).

(** [self.workspace / f"{self.name}.log"] *)
Definition log_path (a : AgentProcess) : pystr :=
  path_join (workspace a) (name a ++ py ".log").

(** The session after the failure [e] has been recorded. *)
Definition recorded (prefix : pystr) (e : exn) (a : AgentProcess) : AgentProcess :=
  let msg := prefix ++ str_exn e ++ [LF] in
  set_output_queue (output_queue a ++ [msg])
    (set_output_buffer (output_buffer a ++ [msg]) a).

(** The [Popen] object once [process.stdin] has been closed. *)
Definition closed_stdin (p : Popen) (f : TextIO) : Popen :=
  set_stdin (Some {| fileno := fileno f; closed := true |}) p.

(** The record a write to the closed stdin leaves. *)
Definition closed_message : pystr :=
  py "Error sending input: " ++ str_exn closed_file_error ++ [LF].

(** What the methods of [Popen] leave alone: in the object, all but the
    cached exit status; in the world, descriptors, channels and files. *)
Definition same_popen (p p' : Popen) : Prop :=
  pid p' = pid p /\ stdin p' = stdin p.

Definition same_io (w w' : World) : Prop :=
  fds w' = fds w /\ channels w' = channels w /\ files w' = files w.

(** [running] is set only on a session that has a process: this holds
    when the object is made and every call keeps it
    (see [reachable_running_has_process]). *)
Definition running_has_process (a : AgentProcess) : Prop :=
  process a = None -> running a = false.

(** The session but for its [Popen] object. *)
Definition without_process (a : AgentProcess) : AgentProcess :=
  set_process None a.

(** What [stop] makes of the fields of the session. *)
Definition stopped (a : AgentProcess) : AgentProcess :=
  set_master_fd None
    (match process a with Some _ => set_running false a | None => a end).

Definition fds_after_stop (a : AgentProcess) (w : World) : gmap N N :=
  match master_fd a with
  | Some fd => delete fd (fds w)
  | None => fds w
  end.

End Agent.

(** ** [MockAgent] (src/mock_agent.py): the coordination file *)

Module Mock.

Record MockAgent := {
  name : pystr;
  chat_file : pystr;
  plan_file : pystr;
  last_chat_content : pystr;
  message_count : nat;
  has_proposed_plan : bool;
}.

Definition State : Type := MockAgent * World.

Definition __init__ (name : pystr) : MockAgent :=
  {| name := name; chat_file := py "CHAT.md"; plan_file := py "PLAN_FINAL.md";
     last_chat_content := []; message_count := 0; has_proposed_plan := false |}.

(** [print(f"[{timestamp}] {message}", flush=True)] *)
Definition log (message : pystr) : M State unit :=
  let! timestamp := in_world strftime_now in
  in_world (print (py "[" ++ timestamp ++ py "] " ++ message)).

Definition read_chat : M State pystr :=
  let! self := get_self in
  let! there := in_world (path_exists (chat_file self)) in
  if negb there then ret []
  else in_world (read_text (chat_file self)).

(** The line [f"\n[{name}]: {message}\n"]. *)
Definition chat_line (name message : pystr) : pystr :=
  [LF] ++ py "[" ++ name ++ py "]: " ++ message ++ [LF].

Definition append_to_chat (message : pystr) : M State unit :=
  let! self := get_self in
  exec in_world (append_text (chat_file self) (chat_line (name self) message)) in
  log (py "Posted to CHAT.md: " ++ take 50 message ++ py "...").

(** The text of the plan, line by line. *)
Definition plan_text (name challenge : pystr) : pystr :=
  unlines
    [ py "# Final Solution Plan";
      [];
      py "**Challenge**: " ++ take 200 challenge ++ py "...";
      [];
      py "**Agreed Approach**:";
      [];
      py "## Architecture";
      py "1. Modular design with clear separation of concerns";
      py "2. Scalable components";
      py "3. Well-defined interfaces";
      [];
      py "## Implementation Steps";
      py "1. Set up project structure";
      py "2. Implement core functionality";
      py "3. Add error handling and validation";
      py "4. Write comprehensive tests";
      py "5. Document the solution";
      [];
      py "## Key Decisions";
      py "- Prioritize simplicity and maintainability";
      py "- Use industry-standard patterns";
      py "- Ensure extensibility for future requirements";
      [];
      py "## Testing Strategy";
      py "- Unit tests for individual components";
      py "- Integration tests for workflows";
      py "- Edge case coverage";
      [];
      py "**Collaborators**: " ++ name ++ py " and team";
      [];
      py "**Status**: Ready for implementation";
      [];
      py "---";
      py "*This plan was collaboratively developed by multiple AI agents*" ].

Definition write_plan (challenge : pystr) : M State unit :=
  let! self := get_self in
  let plan := plan_text (name self) challenge in
  exec in_world (write_text (plan_file self) plan) in
  exec log (py "Wrote final plan to PLAN_FINAL.md") in
  append_to_chat
    (py "I've written our agreed solution to PLAN_FINAL.md. Please review!").

(** The agent process runs in the directory [cwd] (the workspace): seen
    from outside, its relative paths are paths below [cwd]. *)
Definition in_directory (cwd : pystr) (a : MockAgent) : MockAgent :=
  {| name := name a; chat_file := path_join cwd (chat_file a);
     plan_file := path_join cwd (plan_file a);
     last_chat_content := last_chat_content a;
     message_count := message_count a;
     has_proposed_plan := has_proposed_plan a |}.

End Mock.

(** ** [MultiAgentOrchestrator] (src/orchestrator.py): workspace and chat *)

Module Orchestrator.

(** The fields and widgets the two methods touch.  A widget that is not
    mounted is [None], and [query_one] raises for it. *)
Record MultiAgentOrchestrator := {
  workspace : pystr;
  chat_file : pystr;
  plan_file : pystr;
  user_message_input : option pystr;   (* value of #user-message-input *)
  chat_viewer : option pystr;          (* content shown by #chat-viewer *)
  notifications : list pystr;
}.

Definition State : Type := MultiAgentOrchestrator * World.

Definition set_user_message_input (v : option pystr)
    (o : MultiAgentOrchestrator) : MultiAgentOrchestrator :=
  {| workspace := workspace o; chat_file := chat_file o;
     plan_file := plan_file o; user_message_input := v;
     chat_viewer := chat_viewer o; notifications := notifications o |}.

Definition set_chat_viewer (v : option pystr)
    (o : MultiAgentOrchestrator) : MultiAgentOrchestrator :=
  {| workspace := workspace o; chat_file := chat_file o;
     plan_file := plan_file o; user_message_input := user_message_input o;
     chat_viewer := v; notifications := notifications o |}.

Definition notify (message : pystr) : M State unit :=
  modify_self (fun o =>
    {| workspace := workspace o; chat_file := chat_file o;
       plan_file := plan_file o; user_message_input := user_message_input o;
       chat_viewer := chat_viewer o;
       notifications := notifications o ++ [message] |}).

Definition setup_workspace : M State unit :=
  let! self := get_self in
  exec in_world (mkdir (workspace self)) in
  exec in_world (write_text (chat_file self) []) in
  exec in_world (write_text (plan_file self) []) in
  notify (py "Workspace created at " ++ workspace self).

(** [self.query_one("#chat-viewer", ChatViewer).update_content(content)] *)
Definition update_chat_viewer (content : pystr) : M State unit :=
  let! self := get_self in
  match chat_viewer self with
  | Some _ => modify_self (set_chat_viewer (Some content))
  | None => raise (NoMatches (py "No nodes match '#chat-viewer'"))
  end.

Definition on_chat_modified : M State unit :=
  let! self := get_self in
  let! there := in_world (path_exists (chat_file self)) in
  if negb there then ret tt
  else
    let! content := in_world (read_text (chat_file self)) in
    try_except (update_chat_viewer content) (fun _ => ret tt).

(** The line [f"\n[User @ {timestamp}]: {message}\n"]. *)
Definition user_line (timestamp message : pystr) : pystr :=
  [LF] ++ py "[User @ " ++ timestamp ++ py "]: " ++ message ++ [LF].

Definition send_user_message : M State unit :=
  try_except
    (let! self := get_self in
     match user_message_input self with
     | None => raise (NoMatches (py "No nodes match '#user-message-input'"))
     | Some value =>
         let message := strip value in
         match message with
         | [] => ret tt
         | _ =>
             let! timestamp := in_world strftime_now in
             let formatted_message := user_line timestamp message in
             exec in_world (append_text (chat_file self) formatted_message) in
             exec modify_self (set_user_message_input (Some [])) in
             exec on_chat_modified in
             notify (py "Message sent to CHAT.md")
         end
     end)
    (fun _ => ret tt).

End Orchestrator.

(** ** What happens to the files after the session has started *)

(** The later writes of the core, which are all the places where the two
    programs write a file after [setup_workspace]: a user message sent by
    the application, a chunk mirrored to the log of a session, and, by an
    agent that runs in the directory [cwd], a message posted to the chat
    and the final plan. *)
Inductive core_write :=
| UserMessage (o : Orchestrator.MultiAgentOrchestrator)
| Captured (a : Agent.AgentProcess) (text : pystr)
| AgentMessage (cwd : pystr) (a : Mock.MockAgent) (message : pystr)
| AgentPlan (cwd : pystr) (a : Mock.MockAgent) (challenge : pystr).

Definition run_write (op : core_write) (w : World) : World :=
  match op with
  | UserMessage o => snd (snd (Orchestrator.send_user_message (o, w)))
  | Captured a text => snd (snd (Agent._enqueue_output text (a, w)))
  | AgentMessage cwd a message =>
      snd (snd (Mock.append_to_chat message (Mock.in_directory cwd a, w)))
  | AgentPlan cwd a challenge =>
      snd (snd (Mock.write_plan challenge (Mock.in_directory cwd a, w)))
  end.

(** The file a write opens in mode "w", if any: the plan file. *)
Definition rewritten (op : core_write) : option pystr :=
  match op with
  | AgentPlan cwd a _ => Some (Mock.plan_file (Mock.in_directory cwd a))
  | _ => None
  end.

(** Between two writes time passes, and what can be opened may change. *)
Inductive event :=
| Write (op : core_write)
| Outside (errors : gmap pystr exn) (time : pystr).

(** The events that leave the file [path] out of mode "w". *)
Definition spares (path : pystr) (ev : event) : Prop :=
  match ev with
  | Write op => rewritten op <> Some path
  | Outside _ _ => True
  end.

Definition run_event (ev : event) (w : World) : World :=
  match ev with
  | Write op => run_write op w
  | Outside errors time =>
      {| files := files w; open_errors := errors; fds := fds w;
         channels := channels w; children := children w;
         programs := programs w; now := time; stdout := stdout w |}
  end.

(** Content of a file as [read_chat] sees a missing file: empty. *)
Definition content (path : pystr) (w : World) : pystr :=
  default [] (files w !! path).

(** The content of [path] after each event of [evs], in order. *)
Fixpoint contents_after (path : pystr) (evs : list event) (w : World)
    : list pystr :=
  match evs with
  | [] => []
  | ev :: rest =>
      let w' := run_event ev w in
      content path w' :: contents_after path rest w'
  end.

(** Every file of [w'] starts with what it held in [w]. *)
Definition extends (w w' : World) : Prop :=
  forall path, content path w `prefix_of` content path w'.

(** Each text of the list is a prefix of the next one. *)
Fixpoint growing (cs : list pystr) : Prop :=
  match cs with
  | c :: rest =>
      match rest with
      | c' :: _ => c `prefix_of` c' /\ growing rest
      | [] => True
      end
  | [] => True
  end.

(** ** A small world to run the model in *)

Definition ENOSPC : exn := OSError 28 (py "No space left on device").

(** Two commands can be launched ([claude] ignores SIGTERM); nothing is
    open yet; the log of the agent [Codex] cannot be written. *)
Definition world0 : World :=
  {| files := ∅;
     open_errors := {[ py "workspace/Codex.log" := ENOSPC ]};
     fds := ∅; channels := ∅; children := ∅;
     programs := {[ py "python3" := false; py "claude" := true ]};
     now := py "12:00:00"; stdout := [] |}.

Definition pipe_agent : Agent.AgentProcess :=
  Agent.__init__ (py "Codex") (py "python3") [py "mock_agent.py"; py "Codex"]
    (py "workspace") false.

Definition pty_agent : Agent.AgentProcess :=
  Agent.__init__ (py "Claude") (py "claude") [] (py "workspace") true.

Definition orchestrator0 : Orchestrator.MultiAgentOrchestrator :=
  {| Orchestrator.workspace := py "workspace";
     Orchestrator.chat_file := py "workspace/CHAT.md";
     Orchestrator.plan_file := py "workspace/PLAN_FINAL.md";
     Orchestrator.user_message_input := Some (py "  go on  ");
     Orchestrator.chat_viewer := Some [];
     Orchestrator.notifications := [] |}.

(** The application once [setup_workspace] has run. *)
Definition session0 : Orchestrator.State :=
  snd (Orchestrator.setup_workspace (orchestrator0, world0)).

(** A session: a user message, a message of the agent Codex, a chunk of
    its output, and its plan. *)
Definition session_events : list event :=
  [ Write (UserMessage (fst session0));
    Outside ∅ (py "12:00:05");
    Write (AgentMessage (py "workspace") (Mock.__init__ (py "Codex"))
             (py "Hello!"));
    Write (Captured pipe_agent (py "thinking..."));
    Write (AgentPlan (py "workspace") (Mock.__init__ (py "Codex"))
             (py "Design a REST API")) ].

(** The sessions after [start()]. *)
Definition pipe_session : Agent.State := snd (Agent.start (pipe_agent, world0)).
Definition pty_session : Agent.State := snd (Agent.start (pty_agent, world0)).

(** ** The steps of the sanitizer, as the specification words them *)

Module Steps.

Import Sanitizer.

(** Step 1, "normalize carriage returns to line breaks": the text keeps
    its length, every carriage return has become a line feed, and every
    other character is as it was. *)
Definition normalizes (text normalized : pystr) : Prop :=
  length normalized = length text
  /\ forall i c, text !! i = Some c ->
       normalized !! i = Some (if decide (c = CR) then LF else c).

(** "ESC [ parameter-bytes intermediate-bytes final-byte" *)
Definition csi_sequence (seq : pystr) : Prop :=
  exists ps ins f,
    seq = ESC :: 0x5B :: ps ++ ins ++ [f]
    /\ Forall (fun c => is_param c = true) ps
    /\ Forall (fun c => is_inter c = true) ins
    /\ is_final f = true.

(** The two-byte form: ESC and one character from "@" to "_". *)
Definition two_byte_sequence (seq : pystr) : Prop :=
  exists c, seq = [ESC; c] /\ is_esc2 c = true.

Definition starts_with (P : pystr -> Prop) (s : pystr) : Prop :=
  exists seq rest, P seq /\ s = seq ++ rest.

(** Step 2, "strip the escape sequences": reading from the left, a
    sequence of the first form is deleted; where none starts, a sequence
    of the two-byte form is deleted; where neither starts, the character
    is kept. *)
Inductive strips : pystr -> pystr -> Prop :=
| strips_nil : strips [] []
| strips_csi seq rest out :
    csi_sequence seq -> strips rest out -> strips (seq ++ rest) out
| strips_two_byte seq rest out :
    two_byte_sequence seq ->
    ~ starts_with csi_sequence (seq ++ rest) ->
    strips rest out -> strips (seq ++ rest) out
| strips_keep c rest out :
    ~ starts_with csi_sequence (c :: rest) ->
    ~ starts_with two_byte_sequence (c :: rest) ->
    strips rest out -> strips (c :: rest) (c :: out).

(** Step 3, "drop non-printable characters except line breaks and
    horizontal tabs". *)
Definition drops_unprintable (isprintable : N -> bool)
    (s out : pystr) : Prop :=
  out = filter (fun ch => isprintable ch = true \/ ch = LF \/ ch = TAB) s.

(** Step 4, "split into lines", for a text without carriage returns
    (step 1 has removed them): every line boundary ends a line, and what
    follows the last boundary is a line unless it is empty. *)
Inductive splits : pystr -> list pystr -> Prop :=
| splits_nil : splits [] []
| splits_last line :
    line <> [] -> Forall (fun c => is_linebreak c = false) line ->
    splits line [line]
| splits_line line b rest lines :
    Forall (fun c => is_linebreak c = false) line ->
    is_linebreak b = true ->
    splits rest lines -> splits (line ++ b :: rest) (line :: lines).

(** The four steps, in order. *)
Definition in_steps (isprintable : N -> bool)
    (text normalized stripped printable : pystr) (lines : list pystr) : Prop :=
  normalizes text normalized
  /\ strips normalized stripped
  /\ drops_unprintable isprintable stripped printable
  /\ splits printable lines.

End Steps.

(** A coloured word, a blank line and a last line without a line end. *)
Definition steps_text : pystr :=
  [ESC] ++ py "[31mred" ++ [ESC] ++ py "[0m" ++ [CR; 7; CR] ++ py "ok".

(** ** More of [AgentProcess]: launching, queue traffic *)

Module AgentMore.

Import Agent.

(** The message [start()] records, [f"Error starting {self.name}: {e}\n"]. *)
Definition start_message (a : AgentProcess) (e : exn) : pystr :=
  (py "Error starting " ++ name a ++ py ": ") ++ str_exn e ++ [LF].

(** The descriptors [pty.openpty()] hands out in the world [w], and the
    world it leaves. *)
Definition pty_master (w : World) : N := fresh (dom (fds w)).

Definition pty_slave (w : World) : N :=
  fresh (dom (<[pty_master w := fresh (dom (channels w))]> (fds w))).

Definition pty_opened (w : World) : World :=
  let ch := fresh (dom (channels w)) in
  set_channels (<[ch := ChanOpen []]> (channels w))
    (set_fds (<[pty_slave w := ch]> (<[pty_master w := ch]> (fds w))) w).


(** Traffic on the output queue: the reader thread puts chunks, the
    application takes them. *)
Inductive queue_op :=
| Put (text : pystr)
| Take.

(** The results of the [read_output] calls, in order. *)
Fixpoint run_queue (ops : list queue_op) : M State (list pystr) :=
  match ops with
  | [] => ret []
  | Put text :: rest => exec _enqueue_output text in run_queue rest
  | Take :: rest =>
      let! text := read_output in
      let! texts := run_queue rest in
      ret (text :: texts)
  end.

Definition puts (ops : list queue_op) : list pystr :=
  flat_map (fun op => match op with Put text => [text] | Take => [] end) ops.

(** The number of [read_output] calls. *)
Fixpoint takes (ops : list queue_op) : nat :=
  match ops with
  | [] => 0
  | Put _ :: rest => takes rest
  | Take :: rest => S (takes rest)
  end.

(** The chunks among the results: [read_output] answers the empty string
    when nothing is queued. *)
Definition chunks_of (results : list pystr) : list pystr :=
  filter (fun text => text <> []) results.

End AgentMore.

(** ** More of [MultiAgentOrchestrator]: the agents, the watcher, the logs *)

Module Hub.

Import Agent.

(** The fields the supervision methods touch.  [agents] is the dict
    [self.agents], in insertion order; a log widget that is not mounted
    has no entry. *)
Record App := {
  agents : list (pystr * AgentProcess);
  observer : option bool;                  (* the watcher, and whether it runs *)
  log_widgets : gmap pystr (list pystr);   (* lines of #log-<name> *)
  notifications : list pystr;
}.

Definition State : Type := App * World.



Definition set_log_widgets (l : gmap pystr (list pystr)) (h : App) : App :=
  {| agents := agents h; observer := observer h; log_widgets := l;
     notifications := notifications h |}.

Definition set_notifications (l : list pystr) (h : App) : App :=
  {| agents := agents h; observer := observer h; log_widgets := log_widgets h;
     notifications := l |}.



(** [str.endswith] *)
Definition endswith (s suffix : pystr) : bool :=
  bool_decide (drop (length s - length suffix) s = suffix).

(** [ChatFileHandler.on_modified], for an event with the given
    [is_directory] and [src_path]. *)
Definition on_modified {S} (callback : M S unit)
    (is_directory : bool) (src_path : pystr) : M S unit :=
  if negb is_directory && endswith src_path (py "CHAT.md") then callback
  else ret tt.

End Hub.

(** ** [MultiAgentOrchestrator.read_agent_output]: showing what an agent prints *)

Module Capture.

Import Agent Hub.

(** The coroutine runs on the application with its local [output_count],
    and on the agent object it was handed, which the reader thread and
    the other tasks use as well. *)
Definition State : Type := (App * nat) * Agent.State.

Definition app (s : State) : App := fst (fst s).
Definition output_count (s : State) : nat := snd (fst s).
Definition agent (s : State) : AgentProcess := fst (snd s).

Definition on_app (f : App -> App) : M State unit :=
  fun s => (Ok tt, ((f (app s), output_count s), snd s)).

Definition set_output_count (n : nat) : M State unit :=
  fun s => (Ok tt, ((app s, n), snd s)).

Definition on_agent {A} (m : M Agent.State A) : M State A :=
  zoom snd (fun t s => (fst s, t)) m.

Definition notify (message : pystr) : M State unit :=
  on_app (fun h => set_notifications (notifications h ++ [message]) h).

(** [f"#log-{agent.name}"] *)
Definition log_selector (a : AgentProcess) : pystr := py "#log-" ++ name a.

(** [self.query_one(selector, AgentOutputLog)] *)
Definition query_one (selector : pystr) : M State unit :=
  fun s =>
    match log_widgets (app s) !! selector with
    | Some _ => (Ok tt, s)
    | None => (Raise (NoMatches (py "No nodes match '" ++ selector ++ py "'")), s)
    end.

(** [log_widget.write(line)] *)
Definition write (selector line : pystr) : M State unit :=
  on_app (fun h =>
    set_log_widgets (alter (fun lines => lines ++ [line]) selector (log_widgets h)) h).

(** [for line in lines: log_widget.write(line)] *)
Fixpoint write_all (selector : pystr) (lines : list pystr) : M State unit :=
  match lines with
  | [] => ret tt
  | line :: rest => exec write selector line in write_all selector rest
  end.

Definition starting (a : AgentProcess) : pystr :=
  py "[" ++ name a ++ py "] Starting output capture...".

Definition stopped_line (a : AgentProcess) : pystr :=
  py "[" ++ name a ++ py "] Output capture stopped.".

(** The body of the loop, up to the pause. *)
Definition cycle (isprintable : N -> bool) (selector : pystr) : M State unit :=
  try_except
    (let! output := on_agent read_output in
     match output with
     | [] => ret tt
     | _ =>
         let! s := get_state in
         exec set_output_count (S (output_count s)) in
         exec write_all selector (Sanitizer._sanitize_output isprintable output) in
         let! s := get_state in
         if (output_count s mod 10 =? 0)%nat
         then notify (name (agent s) ++ py ": "
                      ++ str_of_N (N.of_nat (output_count s))
                      ++ py " lines received")
         else ret tt
     end)
    (fun e =>
       let! s := get_state in
       exec notify (py "Error reading " ++ name (agent s) ++ py " output: "
                    ++ str_exn e) in
       write selector (py "ERROR: " ++ str_exn e)).

(** [await asyncio.sleep(0.1)]: the calls the reader thread and the other
    tasks make on the agent in the meantime. *)
Definition sleep (meanwhile : list call) (s : State) : State :=
  (fst s, run_calls meanwhile (snd s)).

(** [while agent.running: ...], one entry of the schedule for each pause.
    The answer tells whether the loop has ended when the schedule has. *)
Fixpoint loop (isprintable : N -> bool) (selector : pystr)
    (schedule : list (list call)) : M State bool :=
  fun s =>
    if running (agent s) then
      match schedule with
      | [] => (Ok false, s)
      | meanwhile :: rest =>
          match cycle isprintable selector s with
          | (Ok _, s') => loop isprintable selector rest (sleep meanwhile s')
          | (Raise e, s') => (Raise e, s')
          end
      end
    else (Ok true, s).

(** The answer tells whether the coroutine has returned. *)
Definition read_agent_output (isprintable : N -> bool)
    (schedule : list (list call)) : M State bool :=
  let! s := get_state in
  let selector := log_selector (agent s) in
  let! found :=
    try_except
      (exec query_one selector in
       exec write selector (starting (agent s)) in
       ret true)
      (fun e =>
         exec notify (py "Could not find log widget for " ++ name (agent s)
                      ++ py ": " ++ str_exn e) in
         ret false) in
  if found then
    exec set_output_count 0 in
    let! ended := loop isprintable selector schedule in
    if ended then
      let! s := get_state in
      exec write selector (stopped_line (agent s)) in
      ret true
    else ret false
  else ret true.

End Capture.

(** The session of Codex with three chunks queued, shown in a log widget;
    and the same with no widget mounted. *)
Definition capture0 : Capture.State :=
  (({| Hub.agents := []; Hub.observer := None;
       Hub.log_widgets := {[ py "#log-Codex" := [] ]};
       Hub.notifications := [] |}, 0%nat),
   (Agent.set_output_queue [py "one"; py "two"; py "three"] (fst pipe_session),
    snd pipe_session)).

Definition capture1 : Capture.State :=
  ((Hub.set_log_widgets ∅ (Capture.app capture0), 0%nat), snd capture0).

(** ** [MockAgent.analyze_chat]: counting the messages of the chat *)

Module Analysis.

Import Mock.

(** [s.split("\n")]: [cur] is the piece being read. *)
Fixpoint split_from (cur s : pystr) : list pystr :=
  match s with
  | [] => [cur]
  | c :: t => if c =? LF then cur :: split_from [] t
              else split_from (cur ++ [c]) t
  end.

Definition split_lf (s : pystr) : list pystr := split_from [] s.

(** [s.startswith(prefix)] *)
Definition startswith (s prefix : pystr) : bool :=
  bool_decide (take (length prefix) s = prefix).

(** [sub in s] *)
Fixpoint contains (sub s : pystr) : bool :=
  startswith s sub
  || match s with
     | [] => false
     | _ :: t => contains sub t
     end.

(** The dict [analyze_chat] returns. *)
Record Analysis := {
  total_messages : nat;
  my_messages : nat;
  other_messages : nat;
  has_user_messages : bool;
}.

(** [line.startswith("[") and "]: " in line] *)
Definition is_message (line : pystr) : bool :=
  startswith line (py "[") && contains (py "]: ") line.

(** [m.startswith(f"[{self.name}]")] *)
Definition is_mine (self : MockAgent) (m : pystr) : bool :=
  startswith m (py "[" ++ name self ++ py "]").

Definition analyze_chat (self : MockAgent) (content : pystr) : Analysis :=
  let lines := split_lf (strip content) in
  let messages := filter (fun line => is_message line = true) lines in
  {| total_messages := length messages;
     my_messages := length (filter (fun m => is_mine self m = true) messages);
     other_messages :=
       length (filter (fun m => negb (is_mine self m) = true) messages);
     has_user_messages := existsb (contains (py "[User")) messages |}.

(** A post as [split] finds it: [chat_line] without the line feeds
    around it. *)
Definition message_line (speaker message : pystr) : pystr :=
  py "[" ++ speaker ++ py "]: " ++ message.

(** The chat after the posts [(speaker, message)], each written by
    [append_to_chat], on an empty file. *)
Definition posted (posts : list (pystr * pystr)) : pystr :=
  flat_map (fun p => chat_line (fst p) (snd p)) posts.

End Analysis.

(** Three posts, two of them by Codex. *)
Definition posts0 : list (pystr * pystr) :=
  [ (py "Codex", py "Hello! I'm Codex.");
    (py "Claude", py "Let me break this down into components:");
    (py "Codex", py "Agreed.") ].

(** ** The reader thread of [AgentProcess] *)

Module Reader.

Import Agent.

(** What a blocking [readline()] on the pipe of the child hands over: a
    line (the empty string at end of file), or an exception. *)
Inductive line_read :=
| Line (text : pystr)
| LineError (e : exn).

(** What one round of [select] and [os.read] on the pseudo-terminal hands
    over: nothing within the time allowed, the data read, decoded with
    [errors="replace"] (empty at end of file), or an exception. *)
Inductive pty_read :=
| NotReady
| Data (text : pystr)
| PtyError (e : exn).

(** [self.process.stdout]: [start()] launches the child with a pipe for
    its output unless it runs on a pseudo-terminal, and then the
    attribute is [None]. *)
Definition has_stdout (a : AgentProcess) : bool := negb (use_pty a).

Definition append_to_queue (message : pystr) : M State unit :=
  modify_self (fun a => set_output_queue (output_queue a ++ [message]) a).

(** [while self.running and self.process and self.process.stdout: ...],
    with the reads the loop makes, in order.  The answer tells whether
    the loop was left: it is [false] when the loop waits for a read that
    the list does not hold. *)
Fixpoint read_lines (reads : list line_read) : M State bool :=
  fun s =>
    if running (fst s) && bool_decide (is_Some (process (fst s)))
       && has_stdout (fst s)
    then
      match reads with
      | [] => (Ok false, s)
      | LineError e :: _ => (Raise e, s)
      | Line [] :: rest =>
          match on_process poll s with
          | (Ok (Some _), s') => (Ok true, s')
          | (Ok None, s') => read_lines rest s'
          | (Raise e, s') => (Raise e, s')
          end
      | Line line :: rest =>
          match _enqueue_output line s with
          | (Ok _, s') => read_lines rest s'
          | (Raise e, s') => (Raise e, s')
          end
      end
    else (Ok true, s).

(** The loop of [_read_from_pty]. *)
Fixpoint read_chunks (reads : list pty_read) : M State bool :=
  fun s =>
    if running (fst s) then
      match reads with
      | [] => (Ok false, s)
      | NotReady :: rest => read_chunks rest s
      | Data [] :: _ => (Ok true, s)
      | Data text :: rest =>
          match _enqueue_output text s with
          | (Ok _, s') => read_chunks rest s'
          | (Raise e, s') =>
              (exec append_to_queue
                      (py "Error reading PTY output: " ++ str_exn e ++ [LF]) in
               ret true) s'
          end
      | PtyError e :: _ =>
          (exec append_to_queue
                  (py "Error reading PTY output: " ++ str_exn e ++ [LF]) in
           ret true) s
      end
    else (Ok true, s).

Definition _read_from_pty (reads : list pty_read) : M State bool :=
  let! self := get_self in
  match master_fd self with
  | None => ret true
  | Some _ => read_chunks reads
  end.

(** The thread, with the reads it makes on the pipe or on the
    pseudo-terminal.  The answer tells whether the thread has ended; the
    [finally] clause runs when it does. *)
Definition _read_output_thread (lines : list line_read)
    (chunks : list pty_read) : M State bool :=
  let! ended :=
    try_except
      (let! self := get_self in
       if use_pty self && bool_decide (is_Some (master_fd self))
       then _read_from_pty chunks
       else read_lines lines)
      (fun e =>
         exec append_to_queue
                (py "Error reading output: " ++ str_exn e ++ [LF]) in
         ret true) in
  if ended then exec modify_self (set_running false) in ret true
  else ret false.

End Reader.

(** The texts a round of the pseudo-terminal loop hands on, and whether
    the round ends the loop. *)
Definition delivered (r : Reader.pty_read) : list pystr :=
  match r with
  | Reader.Data text => [text]
  | _ => []
  end.

Definition ends_loop (r : Reader.pty_read) : bool :=
  match r with
  | Reader.Data [] | Reader.PtyError _ => true
  | _ => false
  end.

Definition reported (r : Reader.pty_read) : list pystr :=
  match r with
  | Reader.PtyError e => [py "Error reading PTY output: " ++ str_exn e ++ [LF]]
  | _ => []
  end.

(** The session of Codex once its child has exited and waits to be
    reaped. *)
Definition exited_session : Agent.State :=
  (fst pipe_session,
   set_children ((fun _ => Zombie 0) <$> children (snd pipe_session))
     (snd pipe_session)).

(** * Properties *)

(** ** The sanitizer *)

Section SanitizerProperties.

Import Sanitizer.

Ltac range_facts :=
  unfold is_param, is_inter, is_final, is_esc2, is_linebreak, isspace,
    in_range, ESC, TAB, LF, CR, SPACE in *;
  repeat match goal with
         | H : _ && _ = true |- _ => apply andb_true_iff in H; destruct H
         | H : _ || _ = true |- _ => apply orb_true_iff in H; destruct H
         | H : (_ <=? _) = true |- _ => apply N.leb_le in H
         | H : (_ =? _) = true |- _ => apply N.eqb_eq in H
         end.

Lemma inter_not_param c : is_inter c = true -> is_param c = false.
Proof.
  intros H. apply not_true_iff_false. intros H'. range_facts. lia.
Qed.

Lemma final_not_param c : is_final c = true -> is_param c = false.
Proof.
  intros H. apply not_true_iff_false. intros H'. range_facts. lia.
Qed.

Lemma final_not_inter c : is_final c = true -> is_inter c = false.
Proof.
  intros H. apply not_true_iff_false. intros H'. range_facts. lia.
Qed.

Lemma skip_while_run p l c r :
  Forall (fun x => p x = true) l -> p c = false ->
  skip_while p (l ++ c :: r) = c :: r.
Proof.
  intros Hl Hc. induction Hl as [|x l Hx _ IH]; simpl.
  - now rewrite Hc.
  - now rewrite Hx.
Qed.

(** Whatever way the text splits into parameter bytes, intermediate bytes
    and a final byte, the greedy scan finds that match: backtracking has
    nothing else to offer. *)
Lemma match_csi_complete ps ins f rest :
  Forall (fun c => is_param c = true) ps ->
  Forall (fun c => is_inter c = true) ins ->
  is_final f = true ->
  match_csi (ESC :: 0x5B :: ps ++ ins ++ f :: rest) = Some rest.
Proof.
  intros Hps Hins Hf. unfold match_csi.
  replace ((ESC =? ESC) && (0x5B =? 0x5B)) with true by reflexivity.
  assert (skip_while is_param (ps ++ ins ++ f :: rest) = ins ++ f :: rest) as ->.
  { destruct Hins as [|i ins Hi Hins]; simpl.
    - apply skip_while_run; auto using final_not_param.
    - apply skip_while_run; auto using inter_not_param. }
  rewrite skip_while_run by auto using final_not_inter.
  now rewrite Hf.
Qed.

Lemma sub_ansi_match c t rest :
  match_ansi (c :: t) = Some rest -> sub_ansi (c :: t) = sub_ansi rest.
Proof.
  intros H. simp sub_ansi.
  destruct (inspect (match_ansi (c :: t))) as [[r|] E]; simpl; congruence.
Qed.

Lemma sub_ansi_keep c t :
  match_ansi (c :: t) = None -> sub_ansi (c :: t) = c :: sub_ansi t.
Proof.
  intros H. simp sub_ansi.
  destruct (inspect (match_ansi (c :: t))) as [[r|] E]; simpl; congruence.
Qed.

(** A character other than ESC is never the start of a match. *)
Lemma sub_ansi_other c t : c <> ESC -> sub_ansi (c :: t) = c :: sub_ansi t.
Proof.
  intros Hc. apply sub_ansi_keep.
  apply N.eqb_neq in Hc.
  unfold match_ansi, match_csi, match_esc2.
  destruct t as [|b t]; [reflexivity|]. now rewrite Hc.
Qed.

(** A whole CSI sequence is deleted. *)
Lemma sub_ansi_csi ps ins f rest :
  Forall (fun c => is_param c = true) ps ->
  Forall (fun c => is_inter c = true) ins ->
  is_final f = true ->
  sub_ansi (ESC :: 0x5B :: ps ++ ins ++ f :: rest) = sub_ansi rest.
Proof.
  intros Hps Hins Hf. apply sub_ansi_match.
  unfold match_ansi. now rewrite match_csi_complete.
Qed.

Lemma lstrip_nil_iff s : lstrip s = [] <-> Forall (fun c => isspace c = true) s.
Proof.
  induction s as [|c t IH]; simpl.
  - split; auto.
  - destruct (isspace c) eqn:E.
    + rewrite IH. split; [intros; constructor; auto | now inversion 1].
    + split; [discriminate | inversion 1; congruence].
Qed.

Lemma lstrip_head s c r : lstrip s = c :: r -> isspace c = false.
Proof.
  induction s as [|x t IH]; simpl; [discriminate|].
  destruct (isspace x) eqn:E; [exact IH|]. now intros [= <- _].
Qed.

(** [line.strip()] is falsy exactly for a line of white space only. *)
Lemma strip_nil_iff s : strip s = [] <-> Forall (fun c => isspace c = true) s.
Proof.
  rewrite <- lstrip_nil_iff. unfold strip, rstrip. split.
  - intros H. apply (f_equal (@rev N)) in H. rewrite rev_involutive in H.
    simpl in H. apply lstrip_nil_iff in H.
    apply Forall_rev in H. rewrite rev_involutive in H.
    destruct (lstrip s) as [|c r] eqn:E; [reflexivity|].
    apply lstrip_head in E. inversion H; congruence.
  - intros ->. reflexivity.
Qed.

Lemma blank_to_space_blank line :
  Forall (fun c => isspace c = true) line -> blank_to_space line = [SPACE].
Proof. intros H. apply strip_nil_iff in H. unfold blank_to_space. now rewrite H. Qed.

Lemma blank_to_space_text line :
  ~ Forall (fun c => isspace c = true) line -> blank_to_space line = line.
Proof.
  intros H. unfold blank_to_space.
  destruct (strip line) eqn:E; [|reflexivity].
  exfalso. apply H. now apply strip_nil_iff.
Qed.

Lemma blank_to_space_not_nil line : blank_to_space line <> [].
Proof.
  unfold blank_to_space. destruct (strip line) eqn:E; [discriminate|].
  intros ->. discriminate.
Qed.

(** The lines of [splitlines] are made of the characters of the text that
    are not line boundaries. *)
Lemma splitlines_from_Forall (P : N -> Prop) s : forall cur,
  Forall (fun c => P c /\ is_linebreak c = false) cur ->
  Forall P s ->
  Forall (Forall (fun c => P c /\ is_linebreak c = false)) (splitlines_from cur s).
Proof.
  remember (length s) as n eqn:Hn. revert s Hn.
  induction n as [n IH] using lt_wf_ind. intros s Hn cur Hcur Hs.
  destruct s as [|c t]; simpl.
  - destruct cur; auto.
  - inversion Hs as [|? ? Hc Ht]; subst. simpl in IH.
    destruct (is_linebreak c) eqn:Eb.
    + constructor; [exact Hcur|].
      destruct (c =? CR).
      * destruct t as [|d t'].
        -- simpl. constructor.
        -- inversion Ht; subst. destruct (d =? LF).
           ++ eapply IH; [| reflexivity | constructor | assumption]. simpl. lia.
           ++ eapply IH; [| reflexivity | constructor | assumption]. simpl. lia.
      * eapply IH; [| reflexivity | constructor | assumption]. lia.
    + eapply IH; [| reflexivity | | assumption]; [lia|].
      apply Forall_app. split; [exact Hcur|]. repeat constructor; assumption.
Qed.

Lemma splitlines_Forall (P : N -> Prop) s :
  Forall P s ->
  Forall (Forall (fun c => P c /\ is_linebreak c = false)) (splitlines s).
Proof. intros H. apply splitlines_from_Forall; [constructor | exact H]. Qed.

(** C1: for every input string, every line the sanitizer returns is free
    of ESC (0x1B) and holds only printable characters and horizontal tabs;
    this covers in particular the inputs with ANSI cursor and colour
    sequences.  The table of [str.isprintable] is any table that, as
    Unicode has it, counts ESC (a control) as not printable and the space
    as printable. *)
Theorem sanitize_output_printable (isprintable : N -> bool) :
  isprintable ESC = false ->
  isprintable SPACE = true ->
  forall text : pystr,
    Forall (Forall (fun ch => ch <> ESC /\ (isprintable ch = true \/ ch = TAB)))
           (_sanitize_output isprintable text).
Proof.
  intros Hesc Hsp text. unfold _sanitize_output.
  set (cleaned := filter _ _).
  assert (Forall (fun c => keep isprintable c = true) cleaned) as Hkeep.
  { apply Forall_forall. intros c Hc. subst cleaned.
    apply list_elem_of_filter in Hc. tauto. }
  apply splitlines_Forall in Hkeep.
  apply Forall_fmap. eapply Forall_impl; [exact Hkeep|].
  intros line Hline. simpl.
  assert (forall c, keep isprintable c = true /\ is_linebreak c = false ->
                    c <> ESC /\ (isprintable c = true \/ c = TAB)) as Hchar.
  { intros c [Hk Hb]. unfold keep in Hk.
    assert (c <> LF) as Hlf by (intros ->; discriminate).
    apply N.eqb_neq in Hlf. rewrite Hlf, orb_false_r in Hk.
    apply orb_true_iff in Hk. split.
    - intros ->. rewrite Hesc in Hk. now destruct Hk.
    - destruct Hk as [Hk|Hk]; [now left | right; now apply N.eqb_eq]. }
  unfold blank_to_space. destruct (strip line).
  - apply Forall_cons. split; [|constructor].
    split; [discriminate | now left].
  - eapply Forall_impl; [exact Hline | exact Hchar].
Qed.

(** The hypotheses hold for the Latin-1 table, on a coloured prompt. *)
Lemma sanitize_output_printable_witness :
  Forall (Forall (fun ch => ch <> ESC /\
                            (isprintable_latin1 ch = true \/ ch = TAB)))
         (_sanitize_output isprintable_latin1
            ([ESC] ++ py "[1;32m$ " ++ [ESC] ++ py "[0mls" ++ [CR; LF; TAB]
             ++ py "a.txt" ++ [ESC] ++ py "[2K")).
Proof.
  apply (sanitize_output_printable isprintable_latin1); reflexivity.
Defined.

(** A coloured prompt, a blank line and a line of white space. *)
Example sanitize_colour :
  _sanitize_output isprintable_latin1
    ([ESC] ++ py "[31mred" ++ [ESC] ++ py "[0m" ++ [CR; LF; TAB; LF] ++ py "ok")
  = [py "red"; [SPACE]; [SPACE]; py "ok"].
Proof. reflexivity. Qed.

(** The order of the steps shows.  Were the controls dropped before the
    escape sequences, "[2J" would be left behind; were the text split before
    the controls are dropped, the form feed would end a line. *)
Example sanitize_strips_before_filtering :
  _sanitize_output isprintable_latin1 ([ESC] ++ py "[2Jdone") = [py "done"].
Proof. reflexivity. Qed.

Example sanitize_filters_before_splitting :
  _sanitize_output isprintable_latin1 (py "a" ++ [12] ++ py "b") = [py "ab"].
Proof. reflexivity. Qed.

(** An ESC that starts no sequence is dropped as a control; the two-byte
    form takes "ESC [" when no final byte follows. *)
Example sanitize_lone_escape :
  _sanitize_output isprintable_latin1 ([ESC] ++ py "1" ++ [ESC] ++ py "[" ++ [LF])
  = [py "1"].
Proof. reflexivity. Qed.

End SanitizerProperties.

(** ** The supervised process *)

Section AgentProperties.

Import Agent.

Lemma bind_ok {S A B} (m : M S A) (k : A -> M S B) s a s' :
  m s = (Ok a, s') -> bind m k s = k a s'.
Proof. unfold bind. now intros ->. Qed.

Lemma append_text_cases path text w :
  append_text path text w =
  match open_errors w !! path with
  | Some e => (Raise e, w)
  | None =>
      let old := default [] (files w !! path) in
      match utf8_encode text with
      | inl e => (Raise e, set_files (<[path := old]> (files w)) w)
      | inr _ => (Ok tt, set_files (<[path := old ++ text]> (files w)) w)
      end
  end.
Proof.
  unfold append_text, bind, get_state, put_state, str_encode, ret, raise.
  destruct (open_errors w !! path); [reflexivity|].
  destruct (utf8_encode text); reflexivity.
Qed.

Lemma enqueue_output_run text a w :
  exists w',
    _enqueue_output text (a, w) = (Ok tt, (captured text a, w'))
    /\ fds w' = fds w /\ channels w' = channels w /\ children w' = children w.
Proof.
  unfold _enqueue_output, bind, try_except, modify_self, get_self, in_world,
    zoom, ret. simpl.
  rewrite append_text_cases.
  destruct (open_errors w !! _); simpl; [eauto|].
  destruct (utf8_encode text); simpl; eauto.
Qed.

(** C8: a failure of the side log never touches the capture.  Whatever
    the world, [_enqueue_output] returns normally with the chunk appended
    to both the queue and the buffer; when the log cannot be opened the
    world is left as it was, and when the chunk cannot be encoded an
    existing log keeps its content: the exception is swallowed. *)
Theorem enqueue_output_ignores_log_failure text a w :
  (exists w', _enqueue_output text (a, w) = (Ok tt, (captured text a, w')))
  /\ (forall e, open_errors w !! log_path a = Some e ->
        _enqueue_output text (a, w) = (Ok tt, (captured text a, w)))
  /\ (forall e, utf8_encode text = inl e ->
        exists w', _enqueue_output text (a, w) = (Ok tt, (captured text a, w'))
                   /\ forall old, files w !! log_path a = Some old ->
                                  files w' !! log_path a = Some old).
Proof.
  split; [|split].
  - destruct (enqueue_output_run text a w) as (w' & H & _). eauto.
  - intros e He.
    unfold _enqueue_output, bind, try_except, modify_self, get_self, in_world,
      zoom, ret. simpl. rewrite append_text_cases.
    fold (log_path a). rewrite He. reflexivity.
  - intros e He.
    unfold _enqueue_output, bind, try_except, modify_self, get_self, in_world,
      zoom, ret. simpl. rewrite append_text_cases. fold (log_path a).
    destruct (open_errors w !! log_path a); simpl.
    + eexists; split; [reflexivity|]. auto.
    + rewrite He. simpl. eexists; split; [reflexivity|].
      intros old Hold. simpl. rewrite Hold. simpl. apply lookup_insert_eq.
Qed.

(** On a full disk the chunk is captured all the same. *)
Lemma enqueue_output_ignores_log_failure_witness :
  open_errors world0 !! log_path pipe_agent = Some ENOSPC
  /\ _enqueue_output (py "ready") (pipe_agent, world0)
     = (Ok tt, (captured (py "ready") pipe_agent, world0)).
Proof.
  assert (open_errors world0 !! log_path pipe_agent = Some ENOSPC) as H
    by (vm_compute; reflexivity).
  split; [exact H|].
  exact (proj1 (proj2 (enqueue_output_ignores_log_failure
                         (py "ready") pipe_agent world0)) ENOSPC H).
Defined.

Lemma read_output_cons a w text rest :
  output_queue a = text :: rest ->
  read_output (a, w) = (Ok text, (set_output_queue rest a, w)).
Proof.
  intros H. unfold read_output, bind, get_self, modify_self, ret. simpl.
  rewrite H. reflexivity.
Qed.

Lemma read_output_nil a w :
  output_queue a = [] -> read_output (a, w) = (Ok [], (a, w)).
Proof.
  intros H. unfold read_output, bind, get_self, ret. simpl.
  rewrite H. reflexivity.
Qed.

Lemma enqueue_all_run chunks : forall a w,
  exists a' w',
    enqueue_all chunks (a, w) = (Ok tt, (a', w'))
    /\ output_queue a' = output_queue a ++ chunks
    /\ output_buffer a' = output_buffer a ++ chunks.
Proof.
  induction chunks as [|text rest IH]; intros a w; simpl.
  - exists a, w. rewrite !app_nil_r. auto.
  - destruct (enqueue_output_run text a w) as (w1 & H1 & _).
    destruct (IH (captured text a) w1) as (a' & w' & H2 & Hq & Hb).
    exists a', w'. rewrite (bind_ok _ _ _ _ _ H1). split; [exact H2|].
    rewrite Hq, Hb. simpl. rewrite <- !app_assoc. auto.
Qed.

Lemma read_n_run n : forall a w,
  exists a',
    read_n n (a, w) =
      (Ok (take n (output_queue a) ++ replicate (n - length (output_queue a)) []),
       (a', w))
    /\ output_queue a' = drop n (output_queue a)
    /\ output_buffer a' = output_buffer a.
Proof.
  induction n as [|n IH]; intros a w; simpl.
  - exists a. rewrite drop_0. auto.
  - destruct (output_queue a) as [|text rest] eqn:Hq.
    + rewrite (bind_ok _ _ _ _ _ (read_output_nil a w Hq)).
      destruct (IH a w) as (a' & H & Hq' & Hb'). rewrite Hq in *.
      rewrite (bind_ok _ _ _ _ _ H). simpl in *.
      exists a'. rewrite Nat.sub_0_r in *. rewrite take_nil in *.
      rewrite drop_nil in *. auto.
    + rewrite (bind_ok _ _ _ _ _ (read_output_cons a w _ _ Hq)).
      destruct (IH (set_output_queue rest a) w) as (a' & H & Hq' & Hb').
      rewrite (bind_ok _ _ _ _ _ H). simpl in *. eauto.
Qed.

(** C2: when the reader has enqueued the chunks a, b, c in that order and
    nothing else, four consecutive calls of [read_output] return a, b, c
    and then the empty string; each call returns at once, and the queue is
    left empty. *)
Theorem drain_order_is_enqueue_order (self : AgentProcess) (w : World)
    (a b c : pystr) :
  output_queue self = [] ->
  exists self' w',
    (exec _enqueue_output a in
     exec _enqueue_output b in
     exec _enqueue_output c in
     let! first := read_output in
     let! second := read_output in
     let! third := read_output in
     let! fourth := read_output in
     ret [first; second; third; fourth]) (self, w)
    = (Ok [a; b; c; []], (self', w'))
    /\ output_queue self' = []
    /\ output_buffer self' = output_buffer self ++ [a; b; c].
Proof.
  intros Hq.
  destruct (enqueue_output_run a self w) as (w1 & H1 & _).
  destruct (enqueue_output_run b (captured a self) w1) as (w2 & H2 & _).
  destruct (enqueue_output_run c (captured b (captured a self)) w2) as (w3 & H3 & _).
  rewrite (bind_ok _ _ _ _ _ H1), (bind_ok _ _ _ _ _ H2), (bind_ok _ _ _ _ _ H3).
  set (s3 := captured c _).
  assert (output_queue s3 = [a; b; c]) as Hq3 by (subst s3; simpl; now rewrite Hq).
  erewrite bind_ok by (apply read_output_cons; exact Hq3).
  erewrite bind_ok by (apply read_output_cons; reflexivity).
  erewrite bind_ok by (apply read_output_cons; reflexivity).
  erewrite bind_ok by (apply read_output_nil; reflexivity).
  eexists _, w3. split; [reflexivity|]. split; [reflexivity|].
  subst s3. simpl. now rewrite <- !app_assoc.
Qed.


Lemma drain_order_is_enqueue_order_witness :
  exists self' w',
    (exec _enqueue_output (py "a") in
     exec _enqueue_output (py "b") in
     exec _enqueue_output (py "c") in
     let! first := read_output in
     let! second := read_output in
     let! third := read_output in
     let! fourth := read_output in
     ret [first; second; third; fourth]) (pipe_agent, world0)
    = (Ok [py "a"; py "b"; py "c"; []], (self', w')).
Proof.
  destruct (drain_order_is_enqueue_order pipe_agent world0
              (py "a") (py "b") (py "c") eq_refl) as (self' & w' & H & _).
  exists self', w'. exact H.
Defined.

(** The order is kept for any chunks and any number of reads: what was
    queued comes out first to last, then the empty string. *)
Lemma drain_all chunks k a w :
  output_queue a = [] ->
  exists a' w',
    (exec enqueue_all chunks in read_n (length chunks + k)) (a, w)
    = (Ok (chunks ++ replicate k []), (a', w')).
Proof.
  intros Hq.
  destruct (enqueue_all_run chunks a w) as (a1 & w1 & H1 & Hq1 & _).
  destruct (read_n_run (length chunks + k) a1 w1) as (a2 & H2 & _).
  rewrite (bind_ok _ _ _ _ _ H1), H2, Hq1, Hq. simpl.
  rewrite take_ge by lia.
  replace (length chunks + k - length chunks)%nat with k by lia.
  exists a2, w1. reflexivity.
Qed.

(** *** Sending input *)

Lemma utf8_encode_from_encodable s : forall pos,
  encodable s = true -> utf8_encode_from pos s = inr (flat_map utf8_char s).
Proof.
  induction s as [|c t IH]; intros pos H; simpl in *; [reflexivity|].
  apply andb_true_iff in H as [Hc Ht].
  apply negb_true_iff in Hc. rewrite Hc, (IH _ Ht). reflexivity.
Qed.

Lemma utf8_encode_encodable s :
  encodable s = true -> utf8_encode s = inr (flat_map utf8_char s).
Proof. apply utf8_encode_from_encodable. Qed.

Lemma encodable_line text : encodable (text ++ [LF]) = encodable text.
Proof.
  unfold encodable. rewrite forallb_app. simpl. apply andb_true_r.
Qed.

Lemma utf8_line text :
  flat_map utf8_char (text ++ [LF]) = flat_map utf8_char text ++ [LF].
Proof. rewrite flat_map_app. reflexivity. Qed.

Lemma os_write_cases fd data w :
  os_write fd data w =
  match fds w !! fd with
  | None => (Raise EBADF, w)
  | Some ch =>
      match channels w !! ch with
      | None => (Raise EBADF, w)
      | Some (ChanBroken e) => (Raise e, w)
      | Some (ChanOpen received) =>
          (Ok tt, set_channels (<[ch := ChanOpen (received ++ data)]> (channels w)) w)
      end
  end.
Proof.
  unfold os_write, bind, get_state, put_state, raise.
  destruct (fds w !! fd) as [ch|]; [|reflexivity].
  destruct (channels w !! ch) as [[r|e]|]; reflexivity.
Qed.

Lemma os_close_cases fd w :
  os_close fd w =
  match fds w !! fd with
  | None => (Raise EBADF, w)
  | Some _ => (Ok tt, set_fds (delete fd (fds w)) w)
  end.
Proof.
  unfold os_close, bind, get_state, put_state, raise.
  destruct (fds w !! fd); reflexivity.
Qed.

Lemma record_error_run prefix e a w :
  record_error prefix e (a, w) = (Ok tt, (recorded prefix e a, w)).
Proof. reflexivity. Qed.

(** One call in pseudo-terminal mode: the bytes reach the terminal, or the
    failure is recorded; the descriptor table is not touched. *)
Lemma send_input_pty a w fd text close :
  use_pty a = true -> master_fd a = Some fd ->
  exists a' w',
    send_input text close (a, w) = (Ok tt, (a', w'))
    /\ (a' = a \/ exists e, a' = recorded (py "Error sending input (pty): ") e a)
    /\ fds w' = fds w.
Proof.
  intros Hpty Hfd.
  unfold send_input, bind, get_self, try_except, str_encode, in_world, zoom.
  simpl. rewrite Hpty, Hfd.
  destruct (utf8_encode (text ++ [LF])) as [e|data]; simpl.
  - eauto 10.
  - rewrite os_write_cases.
    destruct (fds w !! fd) as [ch|]; simpl; [|eauto 10].
    destruct (channels w !! ch) as [[r|e]|]; simpl; eauto 10.
Qed.

(** In every mode and every state, [send_input] returns normally: each
    call that can raise is inside its [try]. *)
Lemma send_input_returns text close (s : State) :
  exists s', send_input text close s = (Ok tt, s').
Proof.
  destruct s as [a w]. unfold send_input, bind, get_self. simpl.
  assert (forall (m : M State unit) prefix (s0 : State),
            exists s', try_except m (fun e => record_error prefix e) s0
                       = (Ok tt, s')) as Htry.
  { intros m prefix s0. unfold try_except.
    destruct (m s0) as [[[]|e] s1]; eauto. }
  destruct (use_pty a), (master_fd a) as [fd|]; try apply Htry;
    destruct (process a) as [p|]; try (eexists; reflexivity);
    destruct (stdin p); try apply Htry; eexists; reflexivity.
Qed.

(** C3: in pseudo-terminal mode with an open master descriptor, after any
    sequence of calls [send_input(text, close)], whatever the [close]
    flags, [master_fd] is the same descriptor and it is still open; the
    descriptor table is untouched, and no call raises. *)
Theorem pty_send_never_closes (calls : list (pystr * bool)) :
  forall (a : AgentProcess) (w : World) (fd : N),
    use_pty a = true -> master_fd a = Some fd -> is_Some (fds w !! fd) ->
    exists a' w',
      send_all calls (a, w) = (Ok tt, (a', w'))
      /\ master_fd a' = Some fd
      /\ is_Some (fds w' !! fd)
      /\ fds w' = fds w.
Proof.
  induction calls as [|[text close] rest IH]; intros a w fd Hpty Hfd Hopen; simpl.
  - exists a, w. auto.
  - destruct (send_input_pty a w fd text close Hpty Hfd) as (a1 & w1 & H1 & Ha1 & Hw1).
    rewrite (bind_ok _ _ _ _ _ H1).
    assert (use_pty a1 = true /\ master_fd a1 = Some fd) as [Hpty1 Hfd1].
    { destruct Ha1 as [->|[e ->]]; auto. }
    destruct (IH a1 w1 fd Hpty1 Hfd1) as (a' & w' & H2 & Hfd' & Hopen' & Hw').
    { now rewrite Hw1. }
    exists a', w'. rewrite <- Hw1. auto.
Qed.

Lemma pty_send_never_closes_witness :
  exists a' w',
    send_all [(py "hello", true); (py "again", false); (py "bye", true)]
      pty_session = (Ok tt, (a', w'))
    /\ master_fd a' = Some 0
    /\ is_Some (fds w' !! 0).
Proof.
  destruct (pty_send_never_closes
              [(py "hello", true); (py "again", false); (py "bye", true)]
              (fst pty_session) (snd pty_session) 0)
    as (a' & w' & H & Hfd & Hopen & _).
  - vm_compute. reflexivity.
  - vm_compute. reflexivity.
  - vm_compute. eauto.
  - exists a', w'. auto.
Defined.

(** C10: in pipe mode, when the process was never started or has no
    stdin handle, [send_input] does nothing: the session and the world
    are left exactly as they were (nothing written, no error recorded),
    and no exception is raised. *)
Theorem send_input_before_start (a : AgentProcess) (w : World)
    (text : pystr) (close : bool) :
  use_pty a = false ->
  (process a = None \/ exists p, process a = Some p /\ stdin p = None) ->
  send_input text close (a, w) = (Ok tt, (a, w)).
Proof.
  intros Hpty H. unfold send_input, bind, get_self. simpl. rewrite Hpty.
  destruct H as [->|(p & -> & ->)]; reflexivity.
Qed.


Lemma send_input_before_start_witness :
  send_input (py "hello") true (pipe_agent, world0) = (Ok tt, (pipe_agent, world0)).
Proof.
  apply (send_input_before_start pipe_agent world0 (py "hello") true).
  - reflexivity.
  - left. reflexivity.
Defined.

(** A call on a session whose stdin object is closed: the write raises,
    the failure is recorded, nothing else happens. *)
Lemma send_input_closed a w p f text close :
  use_pty a = false -> process a = Some p -> stdin p = Some f ->
  closed f = true ->
  send_input text close (a, w) =
  (Ok tt, (recorded (py "Error sending input: ") closed_file_error a, w)).
Proof.
  intros Hpty Hp Hf Hc.
  unfold send_input, bind, get_self. simpl. rewrite Hpty, Hp, Hf.
  unfold try_except, on_stdin, on_process, TextIO_write, bind, get_self,
    raise. simpl. rewrite Hp. simpl. rewrite Hf. simpl. rewrite Hc.
  destruct a; simpl in *; subst; simpl. destruct p; simpl in *; subst.
  reflexivity.
Qed.

Lemma send_all_closed calls : forall a w p f,
  use_pty a = false -> process a = Some p -> stdin p = Some f ->
  closed f = true ->
  exists a',
    send_all calls (a, w) = (Ok tt, (a', w))
    /\ process a' = process a
    /\ output_buffer a' =
       output_buffer a ++ replicate (length calls) closed_message
    /\ output_queue a' =
       output_queue a ++ replicate (length calls) closed_message.
Proof.
  induction calls as [|[text close] rest IH]; intros a w p f Hpty Hp Hf Hc; simpl.
  - exists a. rewrite !app_nil_r. auto.
  - rewrite (bind_ok _ _ _ _ _ (send_input_closed a w p f text close Hpty Hp Hf Hc)).
    destruct (IH (recorded (py "Error sending input: ") closed_file_error a)
                 w p f Hpty Hp Hf Hc) as (a' & H & Hp' & Hb & Hq).
    exists a'. split; [exact H|]. split; [exact Hp'|].
    rewrite Hb, Hq. simpl. rewrite <- !app_assoc. auto.
Qed.

(** C4: in pipe mode with a started process whose stdin is open and
    leads to a live channel, [send_input(text, close=True)] with a text
    that can be encoded sends the bytes of the text and a line feed and
    then closes stdin (the object is closed, its descriptor is gone).
    Every later call, with any arguments and in any world, returns
    normally and appends one error record to the buffer and to the
    queue. *)
Theorem pipe_send_close (a : AgentProcess) (w : World) (p : Popen) (f : TextIO)
    (ch : N) (received : list N) (text : pystr) :
  use_pty a = false ->
  process a = Some p -> stdin p = Some f -> closed f = false ->
  fds w !! fileno f = Some ch ->
  channels w !! ch = Some (ChanOpen received) ->
  encodable text = true ->
  let a1 := set_process (Some (closed_stdin p f)) a in
  let w1 :=
    set_fds (delete (fileno f) (fds w))
      (set_channels
         (<[ch := ChanOpen (received ++ flat_map utf8_char text ++ [LF])]>
            (channels w)) w) in
  send_input text true (a, w) = (Ok tt, (a1, w1))
  /\ forall (calls : list (pystr * bool)) (w' : World),
       exists a2,
         send_all calls (a1, w') = (Ok tt, (a2, w'))
         /\ process a2 = process a1
         /\ output_buffer a2 =
            output_buffer a ++ replicate (length calls) closed_message
         /\ output_queue a2 =
            output_queue a ++ replicate (length calls) closed_message.
Proof.
  intros Hpty Hp Hf Hc Hfd Hch Henc a1 w1. split.
  - unfold send_input, bind, get_self. simpl. rewrite Hpty, Hp, Hf.
    unfold try_except, on_stdin, on_process, TextIO_write, TextIO_flush,
      TextIO_close, bind, get_self, modify_self, in_world, zoom, str_encode, ret.
    simpl. rewrite Hp. simpl. rewrite Hf. simpl. rewrite Hc.
    rewrite utf8_encode_encodable by now rewrite encodable_line.
    simpl. rewrite os_write_cases, Hfd, Hch. simpl.
    rewrite Hc. simpl. rewrite Hc. simpl. rewrite os_close_cases. simpl.
    rewrite Hfd. rewrite utf8_line. reflexivity.
  - intros calls w'.
    apply (send_all_closed calls a1 w' (closed_stdin p f)
             {| fileno := fileno f; closed := true |}); auto.
Qed.

Lemma pipe_send_close_witness :
  exists a1 w1,
    send_input (py "ping") true pipe_session = (Ok tt, (a1, w1))
    /\ channels w1 !! 0 = Some (ChanOpen (py "ping" ++ [LF]))
    /\ fds w1 !! 0 = None
    /\ exists a2,
         send_all [(py "more", false)] (a1, w1) = (Ok tt, (a2, w1))
         /\ output_queue a2 = [closed_message].
Proof.
  pose proof (pipe_send_close (fst pipe_session) (snd pipe_session)
                {| pid := 0; stdin := Some {| fileno := 0; closed := false |};
                   returncode := None |}
                {| fileno := 0; closed := false |} 0 [] (py "ping")) as H.
  simpl in H. destruct H as [H1 H2]; try (vm_compute; reflexivity).
  eexists _, _. split; [exact H1|].
  split; [vm_compute; reflexivity|]. split; [vm_compute; reflexivity|].
  destruct (H2 [(py "more", false)]
              (set_fds (delete 0 (fds (snd pipe_session)))
                 (set_channels
                    (<[0 := ChanOpen ([] ++ flat_map utf8_char (py "ping") ++ [LF])]>
                       (channels (snd pipe_session))) (snd pipe_session))))
    as (a2 & Ha2 & _ & _ & Hq).
  exists a2. split; [exact Ha2|]. rewrite Hq. vm_compute. reflexivity.
Defined.

(** *** Launching *)

(** [start()] in pipe mode: a child, a pipe to its stdin, [running] set. *)
Example start_pipe :
  start (pipe_agent, world0) = (Ok true, pipe_session)
  /\ process (fst pipe_session)
     = Some {| pid := 0; stdin := Some {| fileno := 0; closed := false |};
               returncode := None |}
  /\ running (fst pipe_session) = true
  /\ fds (snd pipe_session) !! 0 = Some 0
  /\ channels (snd pipe_session) !! 0 = Some (ChanOpen []).
Proof. vm_compute. repeat split; reflexivity. Qed.

(** [start()] in pseudo-terminal mode: the master descriptor is kept, the
    slave is closed again. *)
Example start_pty :
  start (pty_agent, world0) = (Ok true, pty_session)
  /\ master_fd (fst pty_session) = Some 0
  /\ fds (snd pty_session) !! 0 = Some 0
  /\ fds (snd pty_session) !! 1 = None.
Proof. vm_compute. repeat split; reflexivity. Qed.

(** A command that does not exist: [start()] answers [False] and the
    error is in the buffer and in the queue. *)
Example start_missing_command :
  let a := __init__ (py "Gemini") (py "gemini") [] (py "workspace") false in
  let msg := py "Error starting Gemini: [Errno 2] No such file or directory"
             ++ [LF] in
  start (a, world0)
  = (Ok false,
     (set_output_queue [msg] (set_output_buffer [msg] a), world0)).
Proof. vm_compute. reflexivity. Qed.

(** When the child has gone, the write meets a broken pipe: the error is
    recorded, and stdin is left open although [close] was asked for. *)
Example send_input_broken_pipe :
  let w := set_channels (<[0 := ChanBroken EPIPE]> (channels (snd pipe_session)))
             (snd pipe_session) in
  send_input (py "ping") true (fst pipe_session, w)
  = (Ok tt,
     (recorded (py "Error sending input: ") EPIPE (fst pipe_session), w))
  /\ str_exn EPIPE = py "[Errno 32] Broken pipe".
Proof. vm_compute. split; reflexivity. Qed.

(** *** Stopping the session *)

Lemma poll_run p w :
  exists rc p' w',
    poll (p, w) = (Ok rc, (p', w')) /\ same_popen p p' /\ same_io w w'
    /\ (is_Some (returncode p) -> p' = p /\ w' = w /\ rc = returncode p).
Proof.
  unfold poll, same_popen, same_io. simpl.
  destruct (returncode p) as [rc|] eqn:Hrc.
  - exists (Some rc), p, w. auto 10.
  - destruct (children w !! pid p) as [[ign|st]|]; simpl;
      eexists _, _, _; (split; [reflexivity|]); simpl;
      (split; [split; reflexivity|]); (split; [repeat split; reflexivity|]);
      intros [? [=]].
Qed.

Lemma poll_none p w p' w' :
  poll (p, w) = (Ok None, (p', w')) -> returncode p = None.
Proof.
  unfold poll. simpl. destruct (returncode p); [discriminate|reflexivity].
Qed.

Lemma send_signal_run sig p w :
  exists p' w',
    send_signal sig (p, w) = (Ok tt, (p', w')) /\ same_popen p p' /\ same_io w w'
    /\ (is_Some (returncode p) -> p' = p /\ w' = w).
Proof.
  unfold send_signal.
  destruct (poll_run p w) as (rc & p1 & w1 & H & Hp & Hw & Hrc).
  rewrite (bind_ok _ _ _ _ _ H).
  destruct rc as [rc|].
  - exists p1, w1. split; [reflexivity|]. split; [exact Hp|]. split; [exact Hw|].
    intros Hs. now destruct (Hrc Hs) as (-> & -> & _).
  - apply poll_none in H.
    assert (forall P : Prop, is_Some (returncode p) -> P) as Hnone.
    { intros P Hs. rewrite H in Hs. now destruct Hs. }
    unfold bind, get_self, try_except, in_world, zoom, os_kill, bind,
      get_state, put_state, ret, raise. simpl.
    destruct (children w1 !! pid p1) as [[ign|st]|]; simpl.
    + destruct ((sig =? SIGKILL) || negb ign); simpl;
        eexists p1, _; (split; [reflexivity|]);
        (split; [exact Hp|]); (split; [exact Hw|]); apply Hnone.
    + exists p1, w1. split; [reflexivity|]. split; [exact Hp|].
      split; [exact Hw|]. apply Hnone.
    + exists p1, w1. split; [reflexivity|]. split; [exact Hp|].
      split; [exact Hw|]. apply Hnone.
Qed.

Lemma wait_run timeout p w :
  exists r p' w',
    wait timeout (p, w) = (r, (p', w')) /\ same_popen p p' /\ same_io w w'
    /\ (is_Some (returncode p) -> p' = p /\ w' = w /\ exists st, r = Ok st).
Proof.
  unfold wait.
  destruct (poll_run p w) as (rc & p1 & w1 & H & Hp & Hw & Hrc).
  unfold bind. rewrite H. destruct rc as [rc|]; simpl.
  - exists (Ok rc), p1, w1. split; [reflexivity|]. split; [exact Hp|].
    split; [exact Hw|]. intros Hs. destruct (Hrc Hs) as (-> & -> & _). eauto.
  - exists (Raise (TimeoutExpired timeout)), p1, w1.
    split; [reflexivity|]. split; [exact Hp|]. split; [exact Hw|].
    apply poll_none in H. intros Hs. rewrite H in Hs. now destruct Hs.
Qed.

Lemma on_process_run {A} (m : M (Popen * World) A) a w p r p' w' :
  process a = Some p -> m (p, w) = (r, (p', w')) ->
  on_process m (a, w) = (r, (set_process (Some p') a, w')).
Proof. intros Hp Hm. unfold on_process. simpl. now rewrite Hp, Hm. Qed.

(** Terminating (or killing) the child of a session: no exception, and
    only the [Popen] object and the table of children change. *)
Lemma stop_process_run a w p :
  process a = Some p ->
  exists p' w',
    try_except
      (exec on_process terminate in
       let! _ := on_process (wait 5) in ret tt)
      (fun _ => on_process kill) (a, w)
    = (Ok tt, (set_process (Some p') a, w'))
    /\ same_popen p p' /\ same_io w w'
    /\ (is_Some (returncode p) -> p' = p /\ w' = w).
Proof.
  intros Hp.
  destruct (send_signal_run SIGTERM p w) as (p1 & w1 & H1 & Hp1 & Hw1 & Hrc1).
  destruct (wait_run 5 p1 w1) as (r & p2 & w2 & H2 & Hp2 & Hw2 & Hrc2).
  unfold try_except.
  rewrite (bind_ok _ _ _ _ _ (on_process_run _ _ _ _ _ _ _ Hp H1)).
  unfold bind at 1.
  rewrite (on_process_run _ (set_process (Some p1) a) w1 p1 _ _ _ eq_refl H2).
  assert (same_popen p p2) as Hpp2.
  { destruct Hp1, Hp2. split; congruence. }
  assert (same_io w w2) as Hww2.
  { destruct Hw1 as (?&?&?), Hw2 as (?&?&?). repeat split; congruence. }
  destruct r as [st|e]; simpl.
  - exists p2, w2. split; [reflexivity|]. split; [exact Hpp2|].
    split; [exact Hww2|].
    intros Hs. destruct (Hrc1 Hs) as [-> ->].
    now destruct (Hrc2 Hs) as (-> & -> & _).
  - destruct (send_signal_run SIGKILL p2 w2) as (p3 & w3 & H3 & Hp3 & Hw3 & Hrc3).
    erewrite on_process_run; [|reflexivity|exact H3].
    exists p3, w3. split; [reflexivity|].
    split; [destruct Hpp2, Hp3; split; congruence|].
    split; [destruct Hww2 as (?&?&?), Hw3 as (?&?&?); repeat split; congruence|].
    intros Hs. destruct (Hrc1 Hs) as [-> ->].
    destruct (Hrc2 Hs) as (_ & _ & st & [=]).
Qed.


Lemma stop_run a w :
  exists a1 w1,
    stop (a, w) = (Ok tt, (a1, w1))
    /\ without_process a1 = without_process (stopped a)
    /\ option_Forall2 same_popen (process a) (process a1)
    /\ fds w1 = fds_after_stop a w
    /\ channels w1 = channels w /\ files w1 = files w
    /\ ((forall p, process a = Some p -> is_Some (returncode p)) ->
        process a1 = process a /\ (master_fd a = None -> w1 = w)).
Proof.
  unfold stop. rewrite (bind_ok get_self _ (a, w) a (a, w) eq_refl).
  assert (exists a0 w0,
    match process a with
    | Some _ =>
        exec modify_self (set_running false) in
        try_except
          (exec on_process terminate in
           let! _ := on_process (wait 5) in ret tt)
          (fun _ => on_process kill)
    | None => ret tt
    end (a, w) = (Ok tt, (a0, w0))
    /\ without_process a0 =
       without_process (match process a with
                        | Some _ => set_running false a | None => a end)
    /\ master_fd a0 = master_fd a
    /\ option_Forall2 same_popen (process a) (process a0)
    /\ same_io w w0
    /\ ((forall p, process a = Some p -> is_Some (returncode p)) ->
        process a0 = process a /\ w0 = w))
    as (a0 & w0 & H0 & Hwp & Hmfd & Hpp & (Hfds & Hch & Hfiles) & Hnoop).
  { destruct (process a) as [p|] eqn:Hp.
    - destruct (stop_process_run (set_running false a) w p Hp)
        as (p' & w' & H & Hpp & Hww & Hrc).
      erewrite bind_ok by reflexivity. simpl.
      eexists _, _. split; [exact H|]. split; [reflexivity|].
      split; [reflexivity|]. split; [constructor; exact Hpp|].
      split; [exact Hww|].
      intros Hall. destruct (Hrc (Hall p eq_refl)) as [-> ->]. auto.
    - exists a, w. rewrite Hp. split; [reflexivity|]. split; [reflexivity|].
      split; [reflexivity|]. split; [constructor|].
      split; [repeat split|]. auto. }
  rewrite (bind_ok _ _ _ _ _ H0).
  unfold bind, get_self, try_except, in_world, zoom, modify_self, ret. simpl.
  unfold fds_after_stop, stopped. rewrite Hmfd.
  destruct (master_fd a) as [fd|] eqn:Hfd.
  - rewrite os_close_cases. simpl.
    destruct (fds w0 !! fd) as [ch|] eqn:Hopen; simpl.
    + eexists _, _. split; [reflexivity|]. simpl.
      split; [transitivity (set_master_fd None (without_process a0));
              [reflexivity | now rewrite Hwp]|].
      split; [exact Hpp|]. split; [now rewrite Hfds|].
      split; [exact Hch|]. split; [exact Hfiles|].
      intros Hall. split; [apply Hnoop, Hall | discriminate].
    + eexists _, _. split; [reflexivity|]. simpl.
      split; [transitivity (set_master_fd None (without_process a0));
              [reflexivity | now rewrite Hwp]|].
      split; [exact Hpp|].
      split; [rewrite <- Hfds; symmetry; now apply delete_id|].
      split; [exact Hch|]. split; [exact Hfiles|].
      intros Hall. split; [apply Hnoop, Hall | discriminate].
  - eexists _, _. split; [reflexivity|]. simpl.
    split; [transitivity (set_master_fd None (without_process a0));
            [destruct a0; simpl in *; now subst | now rewrite Hwp]|].
    split; [exact Hpp|]. split; [exact Hfds|].
    split; [exact Hch|]. split; [exact Hfiles|].
    intros Hall. split; [apply Hnoop, Hall | intros _; apply Hnoop, Hall].
Qed.


Lemma agent_eq a b :
  without_process a = without_process b -> process a = process b -> a = b.
Proof.
  destruct a, b. unfold without_process, set_process. simpl.
  intros [= -> -> -> -> -> -> -> -> -> ->] ->. reflexivity.
Qed.

Lemma without_process_stopped a :
  running a = false -> master_fd a = None ->
  without_process (stopped a) = without_process a.
Proof.
  destruct a. unfold stopped, without_process. simpl. intros -> ->.
  destruct process0; reflexivity.
Qed.

Lemma keeps_bind {S A B} (Q : S -> Prop) (m : M S A) (k : A -> M S B) :
  keeps Q m -> (forall x, keeps Q (k x)) -> keeps Q (bind m k).
Proof.
  intros Hm Hk s Hs. unfold bind. specialize (Hm s Hs).
  destruct (m s) as [[x|e] s1]; simpl in *; [now apply Hk | exact Hm].
Qed.

Lemma keeps_try_except {S A} (Q : S -> Prop) (m : M S A) (h : exn -> M S A) :
  keeps Q m -> (forall e, keeps Q (h e)) -> keeps Q (try_except m h).
Proof.
  intros Hm Hh s Hs. unfold try_except. specialize (Hm s Hs).
  destruct (m s) as [[x|e] s1]; simpl in *; [exact Hm | now apply Hh].
Qed.

Lemma keeps_ret {S A} (Q : S -> Prop) (x : A) : keeps Q (ret x).
Proof. intros s Hs. exact Hs. Qed.

Lemma keeps_str_encode {S} (Q : S -> Prop) text : keeps Q (str_encode text).
Proof. intros s Hs. unfold str_encode. now destruct (utf8_encode text). Qed.

Lemma keeps_in_world {A} (Q : AgentProcess -> Prop) (m : M World A) :
  keeps (fun s : State => Q (fst s)) (in_world m).
Proof.
  intros [a w] Hs. unfold in_world, zoom. simpl. now destruct (m w).
Qed.

Lemma keeps_record_error prefix e :
  keeps (fun s : State => running_has_process (fst s)) (record_error prefix e).
Proof. intros [a w] Hs. exact Hs. Qed.

Lemma keeps_on_process {A} (m : M (Popen * World) A) :
  keeps (fun s : State => running_has_process (fst s)) (on_process m).
Proof.
  intros [a w] Hs. unfold on_process. simpl.
  destruct (process a) as [p|]; [|exact Hs].
  destruct (m (p, w)) as [r [p' w']]. simpl. discriminate.
Qed.

Lemma send_input_keeps text close :
  keeps (fun s : State => running_has_process (fst s)) (send_input text close).
Proof.
  intros [a w] Hwf. unfold send_input.
  rewrite (bind_ok get_self _ (a, w) a (a, w) eq_refl).
  assert (forall m : M State unit,
            keeps (fun s : State => running_has_process (fst s)) m ->
            running_has_process (fst (snd (m (a, w))))) as Hrun
    by (intros m Hm; now apply Hm).
  assert (keeps (fun s : State => running_has_process (fst s))
            (exec on_stdin (TextIO_write (text ++ [LF])) in
             exec on_stdin TextIO_flush in
             if close then on_stdin TextIO_close else ret tt)) as Hpipe.
  { apply keeps_bind; [apply keeps_on_process|]. intros _.
    apply keeps_bind; [apply keeps_on_process|]. intros _.
    destruct close; [apply keeps_on_process | apply keeps_ret]. }
  destruct (use_pty a), (master_fd a) as [fd|];
    try (destruct (process a) as [p|]; [destruct (stdin p)|]; try exact Hwf).
  all: apply Hrun, keeps_try_except;
    try exact Hpipe; try (intros e; apply keeps_record_error).
  all: apply keeps_bind; [apply keeps_str_encode|]; intros data.
  all: apply (keeps_in_world running_has_process (os_write fd data)).
Qed.

Lemma start_keeps a w :
  running_has_process a -> running_has_process (fst (snd (start (a, w)))).
Proof.
  intros Hwf. unfold start, try_except, bind at 1, get_self. simpl.
  destruct (use_pty a); simpl.
  - unfold bind, in_world, zoom, openpty, Popen_new, modify_self, bind,
      get_state, put_state, ret, raise. simpl.
    destruct (programs w !! command a); simpl; [|exact Hwf].
    rewrite os_close_cases. simpl.
    destruct (_ !! _); simpl; discriminate.
  - unfold bind, in_world, zoom, Popen_new, modify_self, bind,
      get_state, put_state, ret, raise. simpl.
    destruct (programs w !! command a); simpl; [discriminate|exact Hwf].
Qed.

Lemma run_call_keeps c a w :
  running_has_process a -> running_has_process (fst (run_call c (a, w))).
Proof.
  intros Hwf. destruct c as [|text close|text| | |]; simpl.
  - now apply start_keeps.
  - now apply (send_input_keeps text close (a, w)).
  - destruct (enqueue_output_run text a w) as (w' & -> & _). exact Hwf.
  - destruct (output_queue a) as [|x q] eqn:Hq.
    + now rewrite (read_output_nil a w Hq).
    + rewrite (read_output_cons a w x q Hq). exact Hwf.
  - intros _. reflexivity.
  - destruct (stop_run a w) as (a1 & w1 & -> & Hwp & _). simpl.
    intros _. apply (f_equal running) in Hwp. simpl in Hwp. rewrite Hwp.
    unfold stopped. destruct (process a) eqn:Hp; simpl; auto.
Qed.

(** Every state a session can reach from [__init__] has the property
    [stop_twice] asks for. *)
Lemma reachable_running_has_process cs : forall a w,
  running_has_process a -> running_has_process (fst (run_calls cs (a, w))).
Proof.
  induction cs as [|c rest IH]; intros a w Hwf; simpl; [exact Hwf|].
  pose proof (run_call_keeps c a w Hwf) as H.
  destruct (run_call c (a, w)) as [a1 w1]. now apply IH.
Qed.

(** C7: [stop()] is idempotent.  On a session whose [running] flag is
    set only when it has a process, a first call returns normally and
    leaves [running] false, [master_fd] cleared and its descriptor
    closed; a second call, in any later world, returns normally too and
    leaves the session in that state: every field is the same but for the
    exit status the [Popen] object may have learnt meanwhile, and no
    descriptor is touched.  When that status was already known (or there
    is no process) the second call changes nothing at all. *)
Theorem stop_twice (a : AgentProcess) (w : World) :
  running_has_process a ->
  exists a1 w1,
    stop (a, w) = (Ok tt, (a1, w1))
    /\ running a1 = false /\ master_fd a1 = None
    /\ (forall fd, master_fd a = Some fd -> fds w1 !! fd = None)
    /\ forall w2 : World, exists a2 w3,
         stop (a1, w2) = (Ok tt, (a2, w3))
         /\ running a2 = false /\ master_fd a2 = None
         /\ without_process a2 = without_process a1
         /\ option_Forall2 same_popen (process a1) (process a2)
         /\ fds w3 = fds w2
         /\ ((forall p, process a1 = Some p -> is_Some (returncode p)) ->
             a2 = a1 /\ w3 = w2).
Proof.
  intros Hwf.
  destruct (stop_run a w) as (a1 & w1 & H1 & Hwp1 & _ & Hfds1 & _).
  assert (running a1 = false) as Hrun1.
  { apply (f_equal running) in Hwp1. simpl in Hwp1. rewrite Hwp1.
    unfold stopped. destruct (process a) eqn:Hp; simpl;
      [reflexivity | now apply Hwf]. }
  assert (master_fd a1 = None) as Hmfd1.
  { apply (f_equal master_fd) in Hwp1. exact Hwp1. }
  exists a1, w1. split; [exact H1|]. split; [exact Hrun1|].
  split; [exact Hmfd1|]. split.
  { intros fd Hfd. rewrite Hfds1. unfold fds_after_stop. rewrite Hfd.
    apply lookup_delete_eq. }
  intros w2.
  destruct (stop_run a1 w2) as (a2 & w3 & H2 & Hwp2 & Hpp2 & Hfds2 & _ & _ & Hnoop).
  rewrite (without_process_stopped a1 Hrun1 Hmfd1) in Hwp2.
  exists a2, w3. split; [exact H2|].
  split; [apply (f_equal running) in Hwp2; simpl in Hwp2; congruence|].
  split; [apply (f_equal master_fd) in Hwp2; simpl in Hwp2; congruence|].
  split; [exact Hwp2|]. split; [exact Hpp2|].
  split; [rewrite Hfds2; unfold fds_after_stop; now rewrite Hmfd1|].
  intros Hall. destruct (Hnoop Hall) as [Hp Hw]. split.
  - now apply agent_eq.
  - now apply Hw.
Qed.

Lemma stop_twice_witness :
  exists a1 w1,
    stop pty_session = (Ok tt, (a1, w1))
    /\ running a1 = false /\ master_fd a1 = None /\ fds w1 !! 0 = None
    /\ exists a2 w2,
         stop (a1, w1) = (Ok tt, (a2, w2))
         /\ running a2 = false /\ master_fd a2 = None /\ fds w2 !! 0 = None.
Proof.
  destruct (stop_twice (fst pty_session) (snd pty_session))
    as (a1 & w1 & H1 & Hr1 & Hm1 & Hfd1 & Hagain).
  - vm_compute. discriminate.
  - exists a1, w1. split; [exact H1|]. split; [exact Hr1|]. split; [exact Hm1|].
    assert (fds w1 !! 0 = None) as Hclosed
      by (apply Hfd1; vm_compute; reflexivity).
    split; [exact Hclosed|].
    destruct (Hagain w1) as (a2 & w2 & H2 & Hr2 & Hm2 & _ & _ & Hfds & _).
    exists a2, w2. rewrite Hfds. auto.
Defined.

End AgentProperties.

(** ** The coordination file *)

Section ChatProperties.

Lemma universal_newlines_id m :
  Forall (fun c => c <> CR) m -> universal_newlines m = m.
Proof.
  induction 1 as [|c t Hc _ IH]; simpl; [reflexivity|].
  apply N.eqb_neq in Hc. now rewrite Hc, IH.
Qed.

(** Text appended to a file is read back as it was written, after whatever
    the file held, when it starts with a line feed and has no carriage
    return. *)
Lemma universal_newlines_app_line m old :
  Forall (fun c => c <> CR) m ->
  exists pre, universal_newlines (old ++ LF :: m) = pre ++ LF :: m.
Proof.
  intros Hm.
  remember (length old) as n eqn:Hn. revert old Hn.
  induction n as [n IH] using lt_wf_ind. intros old Hn.
  destruct old as [|c t]; simpl.
  - exists []. simpl. now rewrite universal_newlines_id.
  - destruct (c =? CR).
    + destruct t as [|d t']; simpl.
      * exists []. simpl. now rewrite universal_newlines_id.
      * destruct (d =? LF).
        -- destruct (IH (length t')) with (old := t') as [pre Hpre];
             [simpl in Hn; lia | reflexivity |].
           exists (LF :: pre). now rewrite Hpre.
        -- destruct (IH (length (d :: t'))) with (old := d :: t') as [pre Hpre];
             [simpl in *; lia | reflexivity |].
           exists (LF :: pre). simpl in Hpre. now rewrite Hpre.
    + destruct (IH (length t)) with (old := t) as [pre Hpre];
        [simpl in Hn; lia | reflexivity |].
      exists (c :: pre). now rewrite Hpre.
Qed.


(** What [append_to_chat] does when the file can be opened and the line
    can be encoded. *)
Lemma append_to_chat_run (a : Mock.MockAgent) (w : World) (message : pystr) :
  open_errors w !! Mock.chat_file a = None ->
  encodable (Mock.chat_line (Mock.name a) message) = true ->
  exists w',
    Mock.append_to_chat message (a, w) = (Ok tt, (a, w'))
    /\ files w' = <[Mock.chat_file a :=
                     content (Mock.chat_file a) w
                     ++ Mock.chat_line (Mock.name a) message]> (files w)
    /\ open_errors w' = open_errors w.
Proof.
  intros Hopen Henc.
  unfold Mock.append_to_chat, Mock.log, bind, get_self, in_world, zoom,
    strftime_now, print, bind, get_state, put_state, ret.
  simpl. rewrite append_text_cases, Hopen.
  rewrite (utf8_encode_encodable _ Henc). simpl.
  eexists. split; [destruct a; reflexivity|]. split; reflexivity.
Qed.

Lemma read_chat_run (a : Mock.MockAgent) (w : World) :
  Mock.read_chat (a, w) =
  (Ok (universal_newlines (content (Mock.chat_file a) w)), (a, w)).
Proof.
  unfold Mock.read_chat, bind, get_self, in_world, zoom, path_exists,
    read_text, bind, get_state, ret, raise, content. simpl.
  destruct (files w !! Mock.chat_file a) as [c|] eqn:E.
  - rewrite bool_decide_true by eauto. simpl. rewrite E. destruct a; reflexivity.
  - rewrite bool_decide_false by (intros [? [=]]). simpl. destruct a; reflexivity.
Qed.

(** C5: when the agent X appends "hello", the agent Y appends "world" and
    the file is then read, the text read ends with the line of X followed
    by the line of Y, each in the format LF [speaker]: text LF; on a file
    that was empty or missing the text read is exactly these two lines.
    (The file must be one that can be opened for appending.) *)
Theorem chat_round_trip (w : World) :
  open_errors w !! py "CHAT.md" = None ->
  let X := Mock.__init__ (py "X") in
  let Y := Mock.__init__ (py "Y") in
  let hello := [LF] ++ py "[X]: hello" ++ [LF] in
  let world := [LF] ++ py "[Y]: world" ++ [LF] in
  exists w1 w2 pre,
    Mock.append_to_chat (py "hello") (X, w) = (Ok tt, (X, w1))
    /\ Mock.append_to_chat (py "world") (Y, w1) = (Ok tt, (Y, w2))
    /\ Mock.read_chat (Y, w2) = (Ok (pre ++ hello ++ world), (Y, w2))
    /\ (content (py "CHAT.md") w = [] -> pre = []).
Proof.
  intros Hopen X Y hello world.
  destruct (append_to_chat_run X w (py "hello") Hopen eq_refl)
    as (w1 & H1 & Hf1 & Ho1).
  destruct (append_to_chat_run Y w1 (py "world")) as (w2 & H2 & Hf2 & Ho2);
    [rewrite Ho1; exact Hopen | reflexivity |].
  assert (content (py "CHAT.md") w2
          = content (py "CHAT.md") w ++ hello ++ world) as Hc.
  { unfold content at 1. rewrite Hf2. simpl.
    rewrite lookup_insert_eq. simpl. unfold content at 1. rewrite Hf1. simpl.
    rewrite lookup_insert_eq. simpl. now rewrite <- app_assoc. }
  destruct (universal_newlines_app_line
              (py "[X]: hello" ++ [LF] ++ world) (content (py "CHAT.md") w))
    as [pre Hpre].
  { vm_compute. repeat (constructor; [discriminate|]). constructor. }
  destruct (content (py "CHAT.md") w) as [|c0 old] eqn:Hold.
  - exists w1, w2, []. split; [exact H1|]. split; [exact H2|].
    split; [|reflexivity].
    rewrite read_chat_run. simpl Mock.chat_file. rewrite Hc. reflexivity.
  - exists w1, w2, pre. split; [exact H1|]. split; [exact H2|].
    split; [|discriminate].
    rewrite read_chat_run. simpl Mock.chat_file. rewrite Hc.
    simpl in Hpre. simpl. rewrite Hpre. reflexivity.
Qed.


Lemma chat_round_trip_witness :
  exists w1 w2,
    Mock.append_to_chat (py "hello") (Mock.__init__ (py "X"), world0)
      = (Ok tt, (Mock.__init__ (py "X"), w1))
    /\ Mock.append_to_chat (py "world") (Mock.__init__ (py "Y"), w1)
      = (Ok tt, (Mock.__init__ (py "Y"), w2))
    /\ Mock.read_chat (Mock.__init__ (py "Y"), w2)
      = (Ok (([LF] ++ py "[X]: hello" ++ [LF])
             ++ ([LF] ++ py "[Y]: world" ++ [LF])),
         (Mock.__init__ (py "Y"), w2)).
Proof.
  destruct (chat_round_trip world0) as (w1 & w2 & pre & H1 & H2 & H3 & Hpre).
  - vm_compute. reflexivity.
  - exists w1, w2. split; [exact H1|]. split; [exact H2|].
    rewrite (Hpre eq_refl) in H3. exact H3.
Defined.

Lemma extends_refl w : extends w w.
Proof. intros path. reflexivity. Qed.

Lemma append_text_extends path text w :
  extends w (snd (append_text path text w)).
Proof.
  rewrite append_text_cases. intros p.
  destruct (open_errors w !! path); [reflexivity|]. unfold content.
  destruct (utf8_encode text); simpl;
    (destruct (decide (path = p)) as [->|Hne];
     [rewrite lookup_insert_eq | rewrite lookup_insert_ne by exact Hne]);
    simpl; try reflexivity.
  apply prefix_app_r. reflexivity.
Qed.

Lemma append_to_chat_extends a message w :
  extends w (snd (snd (Mock.append_to_chat message (a, w)))).
Proof.
  pose proof (append_text_extends (Mock.chat_file a)
                (Mock.chat_line (Mock.name a) message) w) as H.
  unfold Mock.append_to_chat, Mock.log, bind, get_self, in_world, zoom,
    strftime_now, print, bind, get_state, put_state, ret. simpl.
  destruct (append_text _ _ w) as [[[]|e] w']; simpl in *; exact H.
Qed.

Lemma send_user_message_extends o w :
  extends w (snd (snd (Orchestrator.send_user_message (o, w)))).
Proof.
  unfold Orchestrator.send_user_message, try_except, bind, get_self, raise, ret.
  simpl. destruct (Orchestrator.user_message_input o) as [value|]; simpl;
    [|apply extends_refl].
  destruct (strip value) as [|c message]; simpl; [apply extends_refl|].
  unfold in_world, zoom, strftime_now, bind, get_state, ret. simpl.
  pose proof (append_text_extends (Orchestrator.chat_file o)
                (Orchestrator.user_line (now w) (c :: message)) w) as H.
  destruct (append_text _ _ w) as [[[]|e] w']; simpl in *; [|exact H].
  unfold Orchestrator.on_chat_modified, Orchestrator.update_chat_viewer,
    Orchestrator.notify, modify_self, try_except, bind, get_self, in_world,
    zoom, path_exists, read_text, bind, get_state, ret, raise. simpl.
  destruct (bool_decide _); simpl; [|exact H].
  destruct (files w' !! Orchestrator.chat_file o); simpl; [|exact H].
  destruct (Orchestrator.chat_viewer o); simpl; exact H.
Qed.

Lemma enqueue_output_extends a text w :
  extends w (snd (snd (Agent._enqueue_output text (a, w)))).
Proof.
  pose proof (append_text_extends (Agent.log_path a) text w) as H.
  unfold Agent._enqueue_output, bind, try_except, modify_self, get_self,
    in_world, zoom, ret. simpl. fold (Agent.log_path a).
  destruct (append_text _ _ w) as [[[]|e] w']; simpl in *; exact H.
Qed.

Lemma write_text_cases path text w :
  write_text path text w =
  match open_errors w !! path with
  | Some e => (Raise e, w)
  | None =>
      match utf8_encode text with
      | inl e => (Raise e, set_files (<[path := []]> (files w)) w)
      | inr _ => (Ok tt, set_files (<[path := text]> (files w)) w)
      end
  end.
Proof.
  unfold write_text, bind, get_state, put_state, str_encode, ret, raise.
  destruct (open_errors w !! path); [reflexivity|].
  destruct (utf8_encode text); reflexivity.
Qed.

(** Mode "w" leaves every other file as it is. *)
Lemma write_text_other path text w p :
  path <> p -> content p (snd (write_text path text w)) = content p w.
Proof.
  intros Hne. rewrite write_text_cases. unfold content.
  destruct (open_errors w !! path); [reflexivity|].
  destruct (utf8_encode text); simpl; now rewrite lookup_insert_ne.
Qed.

Lemma write_plan_spares a challenge w path :
  Mock.plan_file a <> path ->
  content path w
    `prefix_of` content path (snd (snd (Mock.write_plan challenge (a, w)))).
Proof.
  intros Hne.
  pose proof (write_text_other (Mock.plan_file a)
                (Mock.plan_text (Mock.name a) challenge) w path Hne) as Hw.
  unfold Mock.write_plan, bind at 1 2, get_self, in_world, zoom. simpl.
  destruct (write_text _ _ w) as [[[]|e] w1]; simpl in *.
  - unfold Mock.log, bind, in_world, zoom, strftime_now, print, bind,
      get_state, put_state, ret. simpl.
    match goal with
    | |- _ `prefix_of` content _ (snd (snd (Mock.append_to_chat ?m (?a', ?w')))) =>
        pose proof (append_to_chat_extends a' m w' path) as H
    end.
    unfold content at 1 in H. simpl in H. fold (content path w1) in H.
    rewrite Hw in H. exact H.
  - now rewrite Hw.
Qed.

Lemma run_write_spares op w path :
  rewritten op <> Some path ->
  content path w `prefix_of` content path (run_write op w).
Proof.
  destruct op as [o|a text|cwd a message|cwd a challenge]; simpl; intros Hp.
  - apply send_user_message_extends.
  - apply enqueue_output_extends.
  - apply append_to_chat_extends.
  - apply write_plan_spares. intros E. apply Hp. simpl in E. now rewrite E.
Qed.

Lemma contents_after_growing path evs : forall w,
  Forall (spares path) evs ->
  growing (content path w :: contents_after path evs w).
Proof.
  induction evs as [|ev rest IH]; intros w Hsp; simpl; [exact I|].
  inversion Hsp as [|? ? Hev Hrest]; subst. split; [|apply IH, Hrest].
  destruct ev as [op|errors time]; simpl.
  - apply run_write_spares, Hev.
  - reflexivity.
Qed.

(** The plan file of an agent is not the chat file of an agent that runs
    in the same directory. *)
Lemma plan_file_not_chat_file cwd name name' :
  Mock.plan_file (Mock.in_directory cwd (Mock.__init__ name))
  <> Mock.chat_file (Mock.in_directory cwd (Mock.__init__ name')).
Proof.
  simpl. unfold path_join. intros E. apply app_inv_head in E. discriminate E.
Qed.

(** C6: [setup_workspace] leaves the coordination file empty, and that is
    the only truncation: through every later write of the core (a user
    message of the application, a chunk mirrored to a log, a message or
    the plan of an agent whose plan file is another file), whether it
    succeeds or fails and whatever happens to the clock and to the
    failing paths in between, the content before a write is a prefix of
    the content after it.  This holds for the coordination file, which
    starts from the empty text, and for every file that is nobody's plan
    file. *)
Theorem chat_file_truncated_once_then_grows
    (o o' : Orchestrator.MultiAgentOrchestrator) (w w1 : World)
    (evs : list event) :
  Orchestrator.setup_workspace (o, w) = (Ok tt, (o', w1)) ->
  files w1 !! Orchestrator.chat_file o = Some []
  /\ (Forall (spares (Orchestrator.chat_file o)) evs ->
      growing ([] :: contents_after (Orchestrator.chat_file o) evs w1))
  /\ forall path,
       Forall (spares path) evs ->
       growing (content path w1 :: contents_after path evs w1).
Proof.
  intros Hsetup.
  assert (files w1 !! Orchestrator.chat_file o = Some []) as Hempty.
  { revert Hsetup.
    unfold Orchestrator.setup_workspace, Orchestrator.notify, bind, get_self,
      modify_self, in_world, zoom, mkdir, bind, get_state, ret, raise.
    simpl. destruct (open_errors w !! Orchestrator.workspace o); [discriminate|].
    simpl. rewrite write_text_cases.
    destruct (open_errors w !! Orchestrator.chat_file o); [discriminate|].
    simpl. rewrite write_text_cases. simpl.
    destruct (open_errors w !! Orchestrator.plan_file o); [discriminate|].
    simpl. intros [= _ <-]. simpl.
    destruct (decide (Orchestrator.plan_file o = Orchestrator.chat_file o)) as [->|Hne].
    - apply lookup_insert_eq.
    - rewrite lookup_insert_ne by exact Hne. apply lookup_insert_eq. }
  split; [exact Hempty|]. split.
  - intros Hsp.
    pose proof (contents_after_growing (Orchestrator.chat_file o) evs w1 Hsp) as H.
    unfold content at 1 in H. now rewrite Hempty in H.
  - intros path. apply contents_after_growing.
Qed.

Lemma chat_file_truncated_once_then_grows_witness :
  files (snd session0) !! py "workspace/CHAT.md" = Some []
  /\ growing ([] :: contents_after (py "workspace/CHAT.md") session_events
                      (snd session0)).
Proof.
  destruct (chat_file_truncated_once_then_grows
              orchestrator0 (fst session0) world0 (snd session0) session_events)
    as (Hempty & Hchat & _).
  - vm_compute. reflexivity.
  - split; [exact Hempty|]. apply Hchat.
    repeat (constructor; [simpl; try discriminate; try exact I|]).
    constructor.
Defined.

Example session_contents :
  contents_after (py "workspace/CHAT.md") session_events (snd session0)
  = [ Orchestrator.user_line (py "12:00:00") (py "go on");
      Orchestrator.user_line (py "12:00:00") (py "go on");
      Orchestrator.user_line (py "12:00:00") (py "go on")
      ++ Mock.chat_line (py "Codex") (py "Hello!");
      Orchestrator.user_line (py "12:00:00") (py "go on")
      ++ Mock.chat_line (py "Codex") (py "Hello!");
      Orchestrator.user_line (py "12:00:00") (py "go on")
      ++ Mock.chat_line (py "Codex") (py "Hello!")
      ++ Mock.chat_line (py "Codex")
           (py "I've written our agreed solution to PLAN_FINAL.md. Please review!") ].
Proof. vm_compute. reflexivity. Qed.

End ChatProperties.

(** ** More on the supervised process *)

Section MoreAgentProperties.

Import Agent AgentMore.
Local Arguments py : simpl never.

Lemma openpty_run w : openpty w = (Ok (pty_master w, pty_slave w), pty_opened w).
Proof. reflexivity. Qed.

Lemma fresh_fd_closed (m : gmap N N) : m !! fresh (dom m) = None.
Proof. apply not_elem_of_dom, is_fresh. Qed.

Lemma pty_master_fresh w : fds w !! pty_master w = None.
Proof. apply fresh_fd_closed. Qed.

Lemma pty_slave_fresh w :
  fds w !! pty_slave w = None /\ pty_slave w <> pty_master w.
Proof.
  pose proof (fresh_fd_closed
                (<[pty_master w := fresh (dom (channels w))]> (fds w))) as H.
  fold (pty_slave w) in H.
  destruct (decide (pty_slave w = pty_master w)) as [E|Hne].
  - rewrite E, lookup_insert_eq in H. discriminate.
  - rewrite lookup_insert_ne in H by congruence. auto.
Qed.

Ltac run_start :=
  unfold start, try_except, bind, get_self, in_world, zoom, openpty,
    Popen_new, os_close, modify_self, record_error, bind, get_state,
    put_state, ret, raise, get_self, modify_self; simpl.

(** The two ways [start()] ends. *)
Lemma start_cases (a : AgentProcess) (w : World) :
  exists a' w',
    (start (a, w) = (Ok true, (a', w'))
     /\ running a' = true /\ is_Some (process a') /\ reader_thread a' = true
     /\ output_buffer a' = output_buffer a /\ output_queue a' = output_queue a)
    \/ (exists e,
          start (a, w) = (Ok false, (a', w'))
          /\ running a' = running a /\ reader_thread a' = reader_thread a
          /\ output_buffer a' = output_buffer a ++ [start_message a e]
          /\ output_queue a' = output_queue a ++ [start_message a e]).
Proof.
  run_start. destruct (use_pty a); simpl.
  - destruct (programs w !! command a) as [ign|]; simpl.
    + rewrite lookup_insert_eq. simpl.
      eexists _, _. left. split; [reflexivity|]. simpl.
      repeat split; try reflexivity. eexists; reflexivity.
    + eexists _, _. right. exists ENOENT. split; [reflexivity|].
      repeat split; reflexivity.
  - destruct (programs w !! command a) as [ign|]; simpl.
    + eexists _, _. left. split; [reflexivity|]. simpl.
      repeat split; try reflexivity. eexists; reflexivity.
    + eexists _, _. right. exists ENOENT. split; [reflexivity|].
      repeat split; reflexivity.
Qed.

(** X1: [start()] never raises.  It answers [True] with [running] set, a
    process, the reader started and nothing recorded; or it answers [False]
    with exactly one message, "Error starting <name>: <error>", appended
    to the buffer and to the queue, and [running] as it was. *)
Theorem start_true_or_recorded (a : AgentProcess) (w : World) :
  exists a' w',
    (start (a, w) = (Ok true, (a', w'))
     /\ running a' = true /\ is_Some (process a') /\ reader_thread a' = true
     /\ output_buffer a' = output_buffer a /\ output_queue a' = output_queue a)
    \/ (exists e,
          start (a, w) = (Ok false, (a', w'))
          /\ running a' = running a /\ reader_thread a' = reader_thread a
          /\ output_buffer a' = output_buffer a ++ [start_message a e]
          /\ output_queue a' = output_queue a ++ [start_message a e]).
Proof. apply start_cases. Qed.

(** X2: in pseudo-terminal mode, when the command cannot be launched,
    [start()] answers [False] with no process, but [master_fd] is set and
    both new descriptors are open; [stop()] then closes the master, and the
    slave stays open: no method of the session closes it. *)
Theorem start_pty_failure_leaks_slave (a : AgentProcess) (w : World) :
  use_pty a = true ->
  programs w !! command a = None ->
  exists a1 w1,
    start (a, w) = (Ok false, (a1, w1))
    /\ process a1 = process a
    /\ master_fd a1 = Some (pty_master w)
    /\ fds w !! pty_master w = None /\ fds w !! pty_slave w = None
    /\ is_Some (fds w1 !! pty_master w) /\ is_Some (fds w1 !! pty_slave w)
    /\ exists a2 w2,
         stop (a1, w1) = (Ok tt, (a2, w2))
         /\ master_fd a2 = None
         /\ fds w2 !! pty_master w = None
         /\ is_Some (fds w2 !! pty_slave w).
Proof.
  intros Hpty Hcmd.
  destruct (pty_slave_fresh w) as [Hslave Hne].
  assert (exists a1,
            start (a, w) = (Ok false, (a1, pty_opened w))
            /\ process a1 = process a
            /\ master_fd a1 = Some (pty_master w)) as (a1 & Hstart & Hp & Hm).
  { run_start. rewrite Hpty. simpl. rewrite Hcmd. simpl.
    eexists. split; [reflexivity|]. split; reflexivity. }
  assert (is_Some (fds (pty_opened w) !! pty_slave w)) as Hs1.
  { unfold pty_opened. simpl. rewrite lookup_insert_eq. eauto. }
  exists a1, (pty_opened w). split; [exact Hstart|]. split; [exact Hp|].
  split; [exact Hm|]. split; [apply pty_master_fresh|]. split; [exact Hslave|].
  split.
  { unfold pty_opened. simpl. rewrite lookup_insert_ne by exact Hne.
    rewrite lookup_insert_eq. eauto. }
  split; [exact Hs1|].
  destruct (stop_run a1 (pty_opened w)) as (a2 & w2 & H2 & Hwp & _ & Hfds & _).
  exists a2, w2. split; [exact H2|].
  split; [apply (f_equal master_fd) in Hwp; exact Hwp|].
  rewrite Hfds. unfold fds_after_stop. rewrite Hm. split.
  - apply lookup_delete_eq.
  - rewrite lookup_delete_ne by congruence. exact Hs1.
Qed.

Lemma start_pty_failure_leaks_slave_witness :
  exists a1 w1 a2 w2,
    start (__init__ (py "Gemini") (py "gemini") [] (py "workspace") true, world0)
      = (Ok false, (a1, w1))
    /\ stop (a1, w1) = (Ok tt, (a2, w2))
    /\ fds w2 !! 0 = None /\ is_Some (fds w2 !! 1).
Proof.
  destruct (start_pty_failure_leaks_slave
              (__init__ (py "Gemini") (py "gemini") [] (py "workspace") true)
              world0)
    as (a1 & w1 & H1 & _ & _ & _ & _ & _ & _ & a2 & w2 & H2 & _ & Hm & Hs).
  - reflexivity.
  - vm_compute. reflexivity.
  - exists a1, w1, a2, w2. split; [exact H1|]. split; [exact H2|].
    split; [exact Hm | exact Hs].
Defined.



(** X4: after [stop()], input sent to a pseudo-terminal session is dropped
    without a trace: [master_fd] is cleared and the process has no stdin
    object, so [send_input] writes nothing, records nothing and returns
    normally. *)
Theorem send_input_after_stop_pty_is_dropped (a : AgentProcess) (w : World) :
  use_pty a = true ->
  (forall p, process a = Some p -> stdin p = None) ->
  exists a1 w1,
    stop (a, w) = (Ok tt, (a1, w1))
    /\ forall text close w',
         send_input text close (a1, w') = (Ok tt, (a1, w')).
Proof.
  intros Hpty Hstdin.
  destruct (stop_run a w) as (a1 & w1 & H1 & Hwp & Hpp & _).
  exists a1, w1. split; [exact H1|]. intros text close w'.
  assert (use_pty a1 = true) as Hpty1.
  { apply (f_equal use_pty) in Hwp. simpl in Hwp. rewrite Hwp.
    unfold stopped. destruct (process a); exact Hpty. }
  assert (master_fd a1 = None) as Hm1.
  { apply (f_equal master_fd) in Hwp. exact Hwp. }
  unfold send_input, bind, get_self. simpl. rewrite Hpty1, Hm1.
  inversion Hpp as [p p1 [_ Hs] Hp Hp1|Hp Hp1]; [|reflexivity].
  rewrite Hs, (Hstdin p) by (symmetry; exact Hp). reflexivity.
Qed.

Lemma send_input_after_stop_pty_is_dropped_witness :
  exists a1 w1,
    stop pty_session = (Ok tt, (a1, w1))
    /\ send_input (py "hello") false (a1, w1) = (Ok tt, (a1, w1)).
Proof.
  destruct (send_input_after_stop_pty_is_dropped
              (fst pty_session) (snd pty_session))
    as (a1 & w1 & H1 & H2).
  - vm_compute. reflexivity.
  - vm_compute. intros p [= <-]. reflexivity.
  - exists a1, w1. split; [exact H1 | apply H2].
Defined.

(** [send_input] keeps every property of the session that neither a new
    [Popen] state nor a recorded error breaks. *)
Lemma send_input_keeps_property (Q : AgentProcess -> Prop) text close :
  (forall a p, Q a -> Q (set_process p a)) ->
  (forall a prefix e, Q a -> Q (recorded prefix e a)) ->
  keeps (fun s : State => Q (fst s)) (send_input text close).
Proof.
  intros Hproc Hrec [a w] HQ. unfold send_input.
  rewrite (bind_ok get_self _ (a, w) a (a, w) eq_refl).
  assert (forall m : M State unit,
            keeps (fun s : State => Q (fst s)) m -> Q (fst (snd (m (a, w)))))
    as Hrun by (intros m Hm; now apply Hm).
  assert (forall A (m : M (Popen * World) A),
            keeps (fun s : State => Q (fst s)) (on_process m)) as Hon.
  { intros A m [a0 w0] H0. unfold on_process. simpl.
    destruct (process a0) as [p|]; [|exact H0].
    destruct (m (p, w0)) as [r [p' w']]. simpl. now apply Hproc. }
  assert (forall prefix e,
            keeps (fun s : State => Q (fst s)) (record_error prefix e)) as Herr.
  { intros prefix e [a0 w0] H0. exact (Hrec a0 prefix e H0). }
  assert (keeps (fun s : State => Q (fst s))
            (exec on_stdin (TextIO_write (text ++ [LF])) in
             exec on_stdin TextIO_flush in
             if close then on_stdin TextIO_close else ret tt)) as Hpipe.
  { apply keeps_bind; [apply Hon|]. intros _.
    apply keeps_bind; [apply Hon|]. intros _.
    destruct close; [apply Hon | apply keeps_ret]. }
  destruct (use_pty a), (master_fd a) as [fd|];
    try (destruct (process a) as [p|]; [destruct (stdin p)|]; try exact HQ).
  all: apply Hrun, keeps_try_except;
    try exact Hpipe; try (intros e; apply Herr).
  all: apply keeps_bind; [apply keeps_str_encode|]; intros data.
  all: apply (keeps_in_world Q (os_write fd data)).
Qed.

Lemma run_call_buffer c a w :
  output_buffer a `prefix_of` output_buffer (fst (run_call c (a, w))).
Proof.
  destruct c as [|text close|text| | |]; simpl.
  - destruct (start_cases a w)
      as (a' & w' & [(-> & _ & _ & _ & Hb & _)|(e & -> & _ & _ & Hb & _)]);
      simpl; rewrite Hb; [reflexivity | now apply prefix_app_r].
  - apply (send_input_keeps_property
             (fun a' => output_buffer a `prefix_of` output_buffer a')
             text close); [auto | | reflexivity].
    intros a0 prefix e H. simpl. now apply prefix_app_r.
  - destruct (enqueue_output_run text a w) as (w' & -> & _). simpl.
    now apply prefix_app_r.
  - destruct (output_queue a) as [|x q] eqn:Hq.
    + now rewrite (read_output_nil a w Hq).
    + now rewrite (read_output_cons a w x q Hq).
  - reflexivity.
  - destruct (stop_run a w) as (a1 & w1 & -> & Hwp & _). simpl.
    apply (f_equal output_buffer) in Hwp. simpl in Hwp. rewrite Hwp.
    unfold stopped. now destruct (process a).
Qed.

(** X5: [output_buffer] only grows.  Through any sequence of calls on a
    session (start, send_input, the reader's chunks, read_output, the
    reader's exit, stop) the buffer before is a prefix of the buffer after:
    what was captured or recorded is never removed, [read_output] included. *)
Theorem output_buffer_only_grows (cs : list call) :
  forall (a : AgentProcess) (w : World),
    output_buffer a `prefix_of` output_buffer (fst (run_calls cs (a, w))).
Proof.
  induction cs as [|c rest IH]; intros a w; simpl; [reflexivity|].
  pose proof (run_call_buffer c a w) as H.
  destruct (run_call c (a, w)) as [a1 w1]. simpl in H.
  etransitivity; [exact H | apply IH].
Qed.

(** X6: the output queue is first in, first out under any interleaving of
    the reader's puts and the application's takes: when no chunk is the
    empty string, the chunks taken so far followed by what is still queued
    are the chunks that were queued at the start followed by those put, in
    order; nothing is lost, repeated or reordered, and no call raises. *)
Theorem queue_is_fifo (ops : list queue_op) :
  forall (a : AgentProcess) (w : World),
    Forall (fun text => text <> []) (output_queue a) ->
    Forall (fun text => text <> []) (puts ops) ->
    exists results a' w',
      run_queue ops (a, w) = (Ok results, (a', w'))
      /\ chunks_of results ++ output_queue a' = output_queue a ++ puts ops
      /\ length results = takes ops.
Proof.
  induction ops as [|[text|] rest IH]; intros a w Hq Hputs; simpl.
  - exists [], a, w. rewrite app_nil_r. auto.
  - inversion Hputs as [|? ? Htext Hrest]; subst.
    destruct (enqueue_output_run text a w) as (w1 & H1 & _).
    destruct (IH (captured text a) w1) as (results & a' & w' & H & Heq & Hlen).
    { simpl. apply Forall_app. split; [exact Hq | now constructor]. }
    { exact Hrest. }
    exists results, a', w'. rewrite (bind_ok _ _ _ _ _ H1).
    split; [exact H|]. split.
    + rewrite Heq. simpl. now rewrite <- app_assoc.
    + exact Hlen.
  - destruct (output_queue a) as [|x q] eqn:Hqa.
    + destruct (IH a w) as (results & a' & w' & H & Heq & Hlen);
        [now rewrite Hqa | assumption |].
      exists ([] :: results), a', w'.
      rewrite (bind_ok _ _ _ _ _ (read_output_nil a w Hqa)).
      rewrite (bind_ok _ _ _ _ _ H). split; [reflexivity|]. split.
      * unfold chunks_of. rewrite filter_cons_False by (intros E; now apply E).
        fold (chunks_of results). now rewrite Heq, Hqa.
      * simpl. now rewrite Hlen.
    + inversion Hq as [|? ? Hx Hq']; subst.
      destruct (IH (set_output_queue q a) w) as (results & a' & w' & H & Heq & Hlen);
        [exact Hq' | assumption |].
      exists (x :: results), a', w'.
      rewrite (bind_ok _ _ _ _ _ (read_output_cons a w x q Hqa)).
      rewrite (bind_ok _ _ _ _ _ H). split; [reflexivity|]. split.
      * unfold chunks_of. rewrite filter_cons_True by exact Hx.
        fold (chunks_of results). simpl. now rewrite Heq.
      * simpl. now rewrite Hlen.
Qed.

Lemma queue_is_fifo_witness :
  exists a' w',
    run_queue [Put (py "a"); Take; Take; Put (py "b"); Put (py "c"); Take]
      (pipe_agent, world0)
    = (Ok [py "a"; []; py "b"], (a', w'))
    /\ output_queue a' = [py "c"].
Proof.
  destruct (queue_is_fifo
              [Put (py "a"); Take; Take; Put (py "b"); Put (py "c"); Take]
              pipe_agent world0)
    as (results & a' & w' & H & _ & _).
  - constructor.
  - vm_compute. repeat (constructor; [discriminate|]). constructor.
  - exists (fst (snd (run_queue
              [Put (py "a"); Take; Take; Put (py "b"); Put (py "c"); Take]
              (pipe_agent, world0)))),
           (snd (snd (run_queue
              [Put (py "a"); Take; Take; Put (py "b"); Put (py "c"); Take]
              (pipe_agent, world0)))).
    split; vm_compute; reflexivity.
Defined.

End MoreAgentProperties.

(** ** The application: shutting down, the file watcher *)

Section HubProperties.

Import Agent Hub.
Local Arguments py : simpl never.




End HubProperties.

Section WatcherProperties.

Import Hub.
Local Arguments py : simpl never.

Lemma endswith_suffix s suffix :
  endswith s suffix = true <-> suffix `suffix_of` s.
Proof.
  unfold endswith. rewrite bool_decide_eq_true. split.
  - intros H. exists (take (length s - length suffix) s).
    rewrite <- H at 2. now rewrite take_drop.
  - intros [k ->]. rewrite length_app.
    replace (length k + length suffix - length suffix)%nat with (length k) by lia.
    now rewrite drop_app_length.
Qed.

(** What [on_chat_modified] does: the world is only read. *)
Lemma on_chat_modified_run o w :
  Orchestrator.on_chat_modified (o, w) =
  (Ok tt,
   (match files w !! Orchestrator.chat_file o, Orchestrator.chat_viewer o with
    | Some c, Some _ =>
        Orchestrator.set_chat_viewer (Some (universal_newlines c)) o
    | _, _ => o
    end, w)).
Proof.
  unfold Orchestrator.on_chat_modified, Orchestrator.update_chat_viewer,
    modify_self, try_except, bind, get_self, in_world, zoom, path_exists,
    read_text, bind, get_state, ret, raise. simpl.
  destruct (files w !! Orchestrator.chat_file o) as [c|] eqn:E.
  - rewrite bool_decide_true by eauto. simpl. rewrite E. simpl.
    destruct (Orchestrator.chat_viewer o); reflexivity.
  - rewrite bool_decide_false by (intros [? [=]]). reflexivity.
Qed.

(** X8: the watcher's handler never raises and never writes.  It does
    nothing for a directory or for a path that does not end with
    "CHAT.md"; for any file whose path ends with "CHAT.md" it makes the
    viewer show the content of the application's own chat file (with line
    ends normalised), whichever file was modified. *)
Theorem on_modified_refreshes_on_chat_md_suffix
    (o : Orchestrator.MultiAgentOrchestrator) (w : World)
    (is_directory : bool) (src_path : pystr) :
  exists o',
    on_modified Orchestrator.on_chat_modified is_directory src_path (o, w)
      = (Ok tt, (o', w))
    /\ (is_directory = true \/ ~ py "CHAT.md" `suffix_of` src_path -> o' = o)
    /\ (is_directory = false -> py "CHAT.md" `suffix_of` src_path ->
        forall c v,
          files w !! Orchestrator.chat_file o = Some c ->
          Orchestrator.chat_viewer o = Some v ->
          o' = Orchestrator.set_chat_viewer (Some (universal_newlines c)) o).
Proof.
  unfold on_modified.
  destruct (endswith src_path (py "CHAT.md")) eqn:E.
  - apply endswith_suffix in E. destruct is_directory; simpl.
    + exists o. split; [reflexivity|]. split; [auto | discriminate].
    + rewrite on_chat_modified_run. eexists. split; [reflexivity|]. split.
      * intros [?|Hn]; [discriminate | now destruct Hn].
      * intros _ _ c v Hc Hv. now rewrite Hc, Hv.
  - assert (~ py "CHAT.md" `suffix_of` src_path) as Hn.
    { intros H. apply endswith_suffix in H. congruence. }
    rewrite andb_false_r. exists o. split; [reflexivity|].
    split; [auto|]. intros _ H. now destruct Hn.
Qed.

Lemma on_modified_refreshes_on_chat_md_suffix_witness :
  on_modified Orchestrator.on_chat_modified false (py "elsewhere/OLD_CHAT.md")
    session0
  = (Ok tt, (fst session0, snd session0))
  /\ on_modified Orchestrator.on_chat_modified false (py "workspace/chat.txt")
       session0
     = (Ok tt, session0).
Proof.
  split.
  - destruct (on_modified_refreshes_on_chat_md_suffix
                (fst session0) (snd session0) false (py "elsewhere/OLD_CHAT.md"))
      as (o' & H & _ & Hyes).
    rewrite (Hyes eq_refl) with (c := []) (v := []) in H.
    + exact H.
    + exists (py "elsewhere/OLD_"). reflexivity.
    + vm_compute. reflexivity.
    + reflexivity.
  - destruct (on_modified_refreshes_on_chat_md_suffix
                (fst session0) (snd session0) false (py "workspace/chat.txt"))
      as (o' & H & Hno & _).
    rewrite Hno in H; [exact H|]. right. intros H'.
    apply endswith_suffix in H'. vm_compute in H'. discriminate.
Defined.

(** X9: [send_user_message] does nothing at all when the input widget is
    not mounted or when its value is blank (empty or white space only):
    the file is not opened, the input is not cleared, nothing is notified,
    and no exception is raised. *)
Theorem send_user_message_blank_is_noop
    (o : Orchestrator.MultiAgentOrchestrator) (w : World) :
  (Orchestrator.user_message_input o = None
   \/ exists value, Orchestrator.user_message_input o = Some value
                    /\ Forall (fun c => isspace c = true) value) ->
  Orchestrator.send_user_message (o, w) = (Ok tt, (o, w)).
Proof.
  intros H.
  unfold Orchestrator.send_user_message, try_except, bind, get_self, raise,
    ret. simpl.
  destruct H as [->|(value & -> & Hblank)]; [reflexivity|].
  apply strip_nil_iff in Hblank. now rewrite Hblank.
Qed.

Lemma send_user_message_blank_is_noop_witness :
  Orchestrator.send_user_message
    (Orchestrator.set_user_message_input (Some [SPACE; TAB; LF]) orchestrator0,
     world0)
  = (Ok tt,
     (Orchestrator.set_user_message_input (Some [SPACE; TAB; LF]) orchestrator0,
      world0)).
Proof.
  apply send_user_message_blank_is_noop. right. eexists. split; [reflexivity|].
  repeat constructor.
Defined.

(** X10: a user message that goes through.  With the input mounted, a
    value that is not blank, a chat file that can be opened and a line
    that can be encoded, the file gains exactly the line
    "[User @ <time>]: <value stripped>" between two line feeds, the input
    is cleared, a mounted viewer shows the whole file as read back, and
    one notification is added; nothing else changes. *)
Theorem send_user_message_appends_stripped
    (o : Orchestrator.MultiAgentOrchestrator) (w : World) (value : pystr) :
  Orchestrator.user_message_input o = Some value ->
  strip value <> [] ->
  open_errors w !! Orchestrator.chat_file o = None ->
  encodable (Orchestrator.user_line (now w) (strip value)) = true ->
  let text := content (Orchestrator.chat_file o) w
              ++ Orchestrator.user_line (now w) (strip value) in
  let w' := set_files (<[Orchestrator.chat_file o := text]> (files w)) w in
  exists o',
    Orchestrator.send_user_message (o, w) = (Ok tt, (o', w'))
    /\ Orchestrator.user_message_input o' = Some []
    /\ Orchestrator.chat_viewer o'
       = (fun _ => universal_newlines text) <$> Orchestrator.chat_viewer o
    /\ Orchestrator.notifications o'
       = Orchestrator.notifications o ++ [py "Message sent to CHAT.md"]
    /\ Orchestrator.chat_file o' = Orchestrator.chat_file o.
Proof.
  intros Hin Hmsg Hopen Henc text w'.
  unfold Orchestrator.send_user_message, try_except, bind at 1, get_self.
  simpl. rewrite Hin. destruct (strip value) as [|c m] eqn:Hs; [congruence|].
  unfold bind at 1, in_world at 1, zoom, strftime_now, bind, get_state, ret.
  simpl. unfold in_world, zoom. simpl.
  rewrite append_text_cases. simpl. rewrite Hopen.
  rewrite (utf8_encode_encodable _ Henc). simpl.
  unfold modify_self. simpl. rewrite on_chat_modified_run. simpl.
  rewrite lookup_insert_eq.
  unfold Orchestrator.notify, modify_self. simpl.
  destruct (Orchestrator.chat_viewer o) as [v|] eqn:Hv; simpl;
    (eexists; split; [reflexivity|]; simpl; rewrite ?Hv;
     repeat split; reflexivity).
Qed.

Lemma send_user_message_appends_stripped_witness :
  exists o',
    Orchestrator.send_user_message session0 = (Ok tt, (o',
      set_files (<[py "workspace/CHAT.md" :=
                    Orchestrator.user_line (py "12:00:00") (py "go on")]>
                   (files (snd session0))) (snd session0)))
    /\ Orchestrator.user_message_input o' = Some [].
Proof.
  destruct (send_user_message_appends_stripped
              (fst session0) (snd session0) (py "  go on  "))
    as (o' & H & Hin & _); try (vm_compute; reflexivity).
  - vm_compute. discriminate.
  - exists o'. split; [exact H | exact Hin].
Defined.

(** X11: a user message is lost without a trace when the chat file cannot
    be opened: the exception is swallowed, the input keeps its value,
    nothing is notified and nothing is written. *)
Theorem send_user_message_open_failure_is_silent
    (o : Orchestrator.MultiAgentOrchestrator) (w : World) (e : exn) :
  open_errors w !! Orchestrator.chat_file o = Some e ->
  Orchestrator.send_user_message (o, w) = (Ok tt, (o, w)).
Proof.
  intros Hopen.
  unfold Orchestrator.send_user_message, try_except, bind at 1, get_self.
  simpl. destruct (Orchestrator.user_message_input o) as [value|]; [|reflexivity].
  destruct (strip value) as [|c m]; [reflexivity|].
  unfold bind, in_world, zoom, strftime_now, bind, get_state, ret. simpl.
  rewrite append_text_cases. simpl. rewrite Hopen. reflexivity.
Qed.

Lemma send_user_message_open_failure_is_silent_witness :
  let w := {| files := ∅;
              open_errors := {[ py "workspace/CHAT.md" := ENOSPC ]};
              fds := ∅; channels := ∅; children := ∅; programs := ∅;
              now := py "12:00:00"; stdout := [] |} in
  Orchestrator.send_user_message (orchestrator0, w) = (Ok tt, (orchestrator0, w)).
Proof.
  apply (send_user_message_open_failure_is_silent _ _ ENOSPC).
  vm_compute. reflexivity.
Defined.

End WatcherProperties.

(** ** More on the sanitizer *)

Section MoreSanitizerProperties.

Import Sanitizer.
Local Arguments py : simpl never.

Variable isprintable : N -> bool.

Lemma replace_cr_id text :
  Forall (fun c => c <> CR) text -> replace_cr text = text.
Proof.
  induction 1 as [|c t Hc _ IH]; simpl; [reflexivity|].
  apply N.eqb_neq in Hc. now rewrite Hc, IH.
Qed.

Lemma sub_ansi_id text :
  Forall (fun c => c <> ESC) text -> sub_ansi text = text.
Proof.
  induction 1 as [|c t Hc _ IH]; [now simp sub_ansi|].
  now rewrite sub_ansi_other, IH.
Qed.

Lemma splitlines_from_one_line s : forall cur,
  Forall (fun c => is_linebreak c = false) s ->
  cur ++ s <> [] ->
  splitlines_from cur s = [cur ++ s].
Proof.
  induction s as [|c t IH]; intros cur Hs Hne; simpl.
  - rewrite app_nil_r in *. now destruct cur.
  - inversion Hs as [|? ? Hc Ht]; subst. rewrite Hc.
    rewrite IH; [now rewrite <- app_assoc | exact Ht |].
    rewrite <- app_assoc. exact Hne.
Qed.

Lemma filter_keep_all text :
  Forall (fun c => keep isprintable c = true) text ->
  filter (fun ch => keep isprintable ch = true) text = text.
Proof.
  induction 1 as [|c t Hc _ IH]; [reflexivity|].
  rewrite filter_cons_True by exact Hc. now rewrite IH.
Qed.

(** A line of ordinary text comes out as it went in. *)
Lemma sanitize_clean text :
  Forall (fun c => isprintable c = true /\ is_linebreak c = false /\ c <> ESC)
         text ->
  ~ Forall (fun c => isspace c = true) text ->
  _sanitize_output isprintable text = [text].
Proof.
  intros Hclean Hblank. unfold _sanitize_output.
  rewrite replace_cr_id.
  2: { eapply Forall_impl; [exact Hclean|]. intros c (_ & Hb & _) ->.
       discriminate. }
  rewrite sub_ansi_id
    by (eapply Forall_impl; [exact Hclean|]; intros c (_ & _ & H); exact H).
  rewrite filter_keep_all.
  2: { eapply Forall_impl; [exact Hclean|]. intros c (Hp & _). unfold keep.
       now rewrite Hp. }
  unfold splitlines. rewrite splitlines_from_one_line.
  - simpl. now rewrite blank_to_space_text.
  - eapply Forall_impl; [exact Hclean|]. intros c (_ & H & _). exact H.
  - simpl. intros ->. apply Hblank. constructor.
Qed.

(** X12: a chunk of ordinary text passes through unchanged: when every
    character is printable, none is a line boundary or ESC, and the text is
    not blank, the sanitizer returns that one line as it is. *)
Theorem sanitize_output_clean_text_unchanged (text : pystr) :
  Forall (fun c => isprintable c = true /\ is_linebreak c = false /\ c <> ESC)
         text ->
  ~ Forall (fun c => isspace c = true) text ->
  _sanitize_output isprintable text = [text].
Proof. apply sanitize_clean. Qed.

(** X13: escape sequences are removed within one chunk only.  A colour or
    cursor sequence that arrives whole is deleted; when the chunk boundary
    falls right after its ESC, the ESC is dropped from the first chunk and
    the rest of the sequence, from the bracket on, is shown as text. *)
Theorem sanitize_output_split_sequence_leaks (ps ins : pystr) (f : N) :
  (forall c, in_range 0x20 0x7E c = true -> isprintable c = true) ->
  isprintable ESC = false ->
  Forall (fun c => is_param c = true) ps ->
  Forall (fun c => is_inter c = true) ins ->
  is_final f = true ->
  _sanitize_output isprintable (ESC :: 0x5B :: ps ++ ins ++ [f]) = []
  /\ _sanitize_output isprintable [ESC]
     ++ _sanitize_output isprintable (0x5B :: ps ++ ins ++ [f])
     = [0x5B :: ps ++ ins ++ [f]].
Proof.
  intros Hascii Hesc Hps Hins Hf. split.
  - unfold _sanitize_output.
    rewrite replace_cr_id.
    + now rewrite sub_ansi_csi by assumption.
    + constructor; [discriminate|]. constructor; [discriminate|].
      apply Forall_app. split; [|apply Forall_app; split].
      * eapply Forall_impl; [exact Hps|]. intros c Hc ->. discriminate.
      * eapply Forall_impl; [exact Hins|]. intros c Hc ->. discriminate.
      * constructor; [|constructor]. intros ->. discriminate.
  - assert (_sanitize_output isprintable [ESC] = []) as ->.
    { unfold _sanitize_output. simpl replace_cr.
      rewrite sub_ansi_keep by reflexivity. simp sub_ansi.
      rewrite filter_cons_False; [reflexivity|].
      unfold keep. rewrite Hesc. discriminate. }
    simpl. apply sanitize_clean.
    + assert (forall c, in_range 0x20 0x7E c = true ->
                isprintable c = true /\ is_linebreak c = false /\ c <> ESC)
        as Hin.
      { intros c Hc. split; [now apply Hascii|].
        unfold in_range, is_linebreak, in_range, ESC in *.
        apply andb_true_iff in Hc as [H1 H2].
        apply N.leb_le in H1, H2. split.
        - assert ((c <=? 0x0D) = false) as -> by (apply N.leb_gt; lia).
          assert ((c <=? 0x1E) = false) as -> by (apply N.leb_gt; lia).
          assert ((c =? 0x85) = false) as -> by (apply N.eqb_neq; lia).
          assert ((c =? 0x2028) = false) as -> by (apply N.eqb_neq; lia).
          assert ((c =? 0x2029) = false) as -> by (apply N.eqb_neq; lia).
          now rewrite !andb_false_r.
        - lia. }
      assert (forall p : N -> bool, forall lo hi,
                (forall c, p c = true -> in_range lo hi c = true) ->
                (forall c, in_range lo hi c = true -> in_range 0x20 0x7E c = true) ->
                forall l, Forall (fun c => p c = true) l ->
                Forall (fun c => isprintable c = true /\ is_linebreak c = false
                                 /\ c <> ESC) l) as Hclass.
      { intros p lo hi H1 H2 l Hl. eapply Forall_impl; [exact Hl|].
        intros c Hc. apply Hin, H2, H1, Hc. }
      assert (forall lo hi c, 0x20 <= lo -> hi <= 0x7E ->
                in_range lo hi c = true -> in_range 0x20 0x7E c = true) as Hsub.
      { intros lo hi c Hlo Hhi Hc. unfold in_range in *.
        apply andb_true_iff in Hc as [H1 H2]. apply N.leb_le in H1, H2.
        apply andb_true_iff. split; apply N.leb_le; lia. }
      constructor; [apply Hin; reflexivity|].
      apply Forall_app. split; [|apply Forall_app; split].
      * apply (Hclass is_param 0x30 0x3F); auto.
        intros c. apply Hsub; lia.
      * apply (Hclass is_inter 0x20 0x2F); auto.
        intros c. apply Hsub; lia.
      * constructor; [|constructor]. apply Hin.
        apply (Hsub 0x40 0x7E); [lia | lia | exact Hf].
    + intros H. inversion H as [|? ? Hsp _]. discriminate Hsp.
Qed.

End MoreSanitizerProperties.

Lemma sanitize_output_clean_text_unchanged_witness :
  Sanitizer._sanitize_output Sanitizer.isprintable_latin1 (py "$ ls -l")
  = [py "$ ls -l"].
Proof.
  apply sanitize_output_clean_text_unchanged.
  - vm_compute. repeat (constructor; [repeat split; discriminate|]). constructor.
  - intros H. inversion H as [|? ? Hsp _]. discriminate Hsp.
Defined.

Lemma sanitize_output_split_sequence_leaks_witness :
  Sanitizer._sanitize_output Sanitizer.isprintable_latin1
    (ESC :: 0x5B :: py "1;31" ++ [] ++ [0x6D]) = []
  /\ Sanitizer._sanitize_output Sanitizer.isprintable_latin1 [ESC]
     ++ Sanitizer._sanitize_output Sanitizer.isprintable_latin1
          (0x5B :: py "1;31" ++ [] ++ [0x6D])
     = [0x5B :: py "1;31" ++ [] ++ [0x6D]].
Proof.
  apply sanitize_output_split_sequence_leaks.
  - intros c Hc. unfold Sanitizer.isprintable_latin1. now rewrite Hc.
  - reflexivity.
  - vm_compute. repeat (constructor; [reflexivity|]). constructor.
  - constructor.
  - reflexivity.
Defined.

(** ** Showing what an agent prints *)

Section CaptureProperties.

Import Agent Hub Capture.
Local Arguments py : simpl never.

Variable isprintable : N -> bool.

Lemma sanitize_nil : Sanitizer._sanitize_output isprintable [] = [].
Proof.
  unfold Sanitizer._sanitize_output. simpl. now simp sub_ansi.
Qed.

Lemma write_all_run selector lines : forall s,
  exists h',
    write_all selector lines s = (Ok tt, ((h', output_count s), snd s))
    /\ log_widgets h' !! selector
       = (fun l => l ++ lines) <$> (log_widgets (app s) !! selector)
    /\ notifications h' = notifications (app s).
Proof.
  induction lines as [|line rest IH]; intros [[h c] t].
  - exists h. simpl. split; [reflexivity|]. split; [|reflexivity].
    unfold app. simpl.
    destruct (log_widgets h !! selector); simpl; [|reflexivity].
    now rewrite app_nil_r.
  - simpl. unfold bind at 1, write at 1, on_app. unfold app, output_count.
    simpl.
    destruct (IH ((set_log_widgets
                     (alter (fun lines => lines ++ [line]) selector
                        (log_widgets h)) h, c), t)) as (h' & -> & Hl & Hn).
    unfold app, output_count in *. simpl in *.
    exists h'. split; [reflexivity|]. split; [|exact Hn].
    rewrite Hl, lookup_alter_eq.
    destruct (log_widgets h !! selector); simpl; [|reflexivity].
    now rewrite <- app_assoc.
Qed.

Lemma on_agent_read_output (s : Capture.State) :
  on_agent read_output s
  = (Ok (hd [] (output_queue (agent s))),
     (fst s, (set_output_queue (tail (output_queue (agent s))) (agent s),
              snd (snd s)))).
Proof.
  destruct s as [hc [a w]]. unfold on_agent, zoom, agent. simpl.
  destruct (output_queue a) as [|text rest] eqn:Hq.
  - rewrite (read_output_nil a w Hq). simpl. do 3 f_equal.
    destruct a. simpl in Hq. now subst.
  - now rewrite (read_output_cons a w text rest Hq).
Qed.

Lemma cycle_run selector s :
  exists h' c',
    cycle isprintable selector s
    = (Ok tt, ((h', c'),
               (set_output_queue (tail (output_queue (agent s))) (agent s),
                snd (snd s))))
    /\ log_widgets h' !! selector
       = (fun l => l ++ Sanitizer._sanitize_output isprintable
                          (hd [] (output_queue (agent s))))
         <$> (log_widgets (app s) !! selector).
Proof.
  unfold cycle, try_except.
  rewrite (bind_ok _ _ _ _ _ (on_agent_read_output s)).
  destruct (hd [] (output_queue (agent s))) as [|ch text'] eqn:Hhd.
  - destruct s as [[h c] [a w]]. exists h, c. split; [reflexivity|].
    rewrite sanitize_nil. unfold app. simpl.
    destruct (log_widgets h !! selector); simpl; [|reflexivity].
    now rewrite app_nil_r.
  - set (s1 := (fst s, (set_output_queue (tail (output_queue (agent s)))
                          (agent s), snd (snd s)))).
    set (s2 := ((app s1, S (output_count s1)), snd s1)).
    destruct (write_all_run selector
                (Sanitizer._sanitize_output isprintable (ch :: text')) s2)
      as (h' & Hrun & Hl & _).
    assert (bind get_state
              (fun s0 : Capture.State =>
                 exec set_output_count (S (output_count s0)) in
                 exec write_all selector
                        (Sanitizer._sanitize_output isprintable (ch :: text')) in
                 let! s3 := get_state in
                 if (output_count s3 mod 10 =? 0)%nat
                 then notify (name (agent s3) ++ py ": "
                              ++ str_of_N (N.of_nat (output_count s3))
                              ++ py " lines received")
                 else ret tt) s1
            = (if (S (output_count s1) mod 10 =? 0)%nat
               then notify (name (agent s1) ++ py ": "
                            ++ str_of_N (N.of_nat (S (output_count s1)))
                            ++ py " lines received")
               else ret tt) ((h', S (output_count s1)), snd s1)) as ->.
    { unfold s2 in Hrun. unfold bind, get_state, set_output_count.
      cbv beta. unfold Agent.State in *. rewrite Hrun. reflexivity. }
    destruct (S (output_count s1) mod 10 =? 0)%nat.
    + unfold notify, on_app. eexists _, _. split; [reflexivity|].
      exact Hl.
    + eexists _, _. split; [reflexivity|]. exact Hl.
Qed.

Lemma loop_quiet_then_exit selector : forall n s lines,
  running (agent s) = true ->
  log_widgets (app s) !! selector = Some lines ->
  exists s',
    loop isprintable selector (replicate n [] ++ [[ReaderExit]]) s
    = (Ok true, s')
    /\ log_widgets (app s') !! selector
       = Some (lines ++ flat_map (Sanitizer._sanitize_output isprintable)
                          (take (S n) (output_queue (agent s))))
    /\ output_queue (agent s') = drop (S n) (output_queue (agent s))
    /\ running (agent s') = false
    /\ name (agent s') = name (agent s)
    /\ snd (snd s') = snd (snd s).
Proof.
  induction n as [|n IH]; intros s lines Hrun Hl.
  - simpl. rewrite Hrun.
    destruct (cycle_run selector s) as (h' & c' & -> & Hl').
    rewrite Hl in Hl'.
    unfold sleep, run_calls. simpl. eexists. split; [reflexivity|].
    unfold app, agent in *. simpl. rewrite Hl'. simpl.
    destruct (output_queue (fst (snd s))) as [|text rest]; simpl.
    + rewrite sanitize_nil. repeat split; reflexivity.
    + rewrite app_nil_r, drop_0. repeat split; reflexivity.
  - simpl replicate. simpl app. simpl loop. rewrite Hrun.
    destruct (cycle_run selector s) as (h' & c' & -> & Hl').
    unfold sleep, run_calls. simpl fold_left.
    edestruct (IH ((h', c'),
                   (set_output_queue (tail (output_queue (agent s))) (agent s),
                    snd (snd s)))) as (s' & Hloop & Hw & Hq & Hr & Hn & Hs).
    { exact Hrun. }
    { unfold app. simpl. rewrite Hl', Hl. reflexivity. }
    exists s'. split; [exact Hloop|]. rewrite Hw, Hq, Hr, Hn, Hs.
    unfold agent. simpl.
    destruct (output_queue (fst (snd s))) as [|text rest]; simpl.
    + rewrite sanitize_nil, app_nil_r. repeat split; reflexivity.
    + rewrite <- app_assoc. repeat split; reflexivity.
Qed.

(** X14: the capture loop shows one chunk for each pass and stops looking
    once the reader thread has cleared [running].  When the reader exits
    during pass [n + 1], the log widget has received the start line, the
    sanitised lines of the first [n + 1] queued chunks and the stop line;
    the chunks after those stay in the queue and are not shown. *)
Theorem read_agent_output_leaves_late_chunks (n : nat) (s : Capture.State)
    (lines : list pystr) :
  running (agent s) = true ->
  log_widgets (app s) !! log_selector (agent s) = Some lines ->
  exists s',
    read_agent_output isprintable (replicate n [] ++ [[ReaderExit]]) s
    = (Ok true, s')
    /\ log_widgets (app s') !! log_selector (agent s)
       = Some (lines ++ [starting (agent s)]
               ++ flat_map (Sanitizer._sanitize_output isprintable)
                    (take (S n) (output_queue (agent s)))
               ++ [stopped_line (agent s)])
    /\ output_queue (agent s') = drop (S n) (output_queue (agent s))
    /\ running (agent s') = false.
Proof.
  intros Hrun Hl. destruct s as [[h c] [a w]]. unfold agent, app in *.
  simpl in *. unfold read_agent_output.
  unfold bind at 1, get_state. simpl. unfold agent. simpl.
  unfold bind at 1, try_except. unfold bind at 1, query_one. unfold app.
  simpl. rewrite Hl. unfold bind at 1, write at 1, on_app. simpl.
  unfold ret at 1. unfold bind at 1, set_output_count. simpl.
  unfold app, output_count. simpl.
  edestruct (loop_quiet_then_exit (log_selector a) n
               ((set_log_widgets
                   (alter (fun lines => lines ++ [starting a])
                      (log_selector a) (log_widgets h)) h, 0%nat),
                (a, w))) as (s' & Hloop & Hw & Hq & Hr & Hn & _).
  { exact Hrun. }
  { unfold app. simpl. rewrite lookup_alter_eq, Hl. reflexivity. }
  unfold bind at 1. unfold Capture.State, Agent.State in *. rewrite Hloop.
  unfold bind at 1, get_state. simpl.
  unfold bind at 1, write, on_app. simpl.
  eexists. split; [reflexivity|]. unfold app, agent in *. simpl in *.
  unfold stopped_line. unfold Capture.State, Agent.State in *.
  rewrite Hn, lookup_alter_eq, Hw. simpl.
  rewrite <- !app_assoc. split; [reflexivity|]. split; assumption.
Qed.

(** X15: without a log widget for the agent nothing is read.  The
    coroutine reports the failed lookup in one notification and returns
    at once, whatever happens later: the agent, its queue and the world
    are as before, and no widget is written. *)
Theorem read_agent_output_without_widget (schedule : list (list call))
    (s : Capture.State) :
  log_widgets (app s) !! log_selector (agent s) = None ->
  exists e,
    read_agent_output isprintable schedule s
    = (Ok true,
       ((set_notifications
           (notifications (app s)
            ++ [py "Could not find log widget for " ++ name (agent s)
                ++ py ": " ++ str_exn e]) (app s),
         output_count s),
        snd s)).
Proof.
  intros Hl. destruct s as [[h c] t]. unfold agent, app in *. simpl in *.
  eexists. unfold read_agent_output.
  unfold bind at 1, get_state. simpl. unfold agent. simpl.
  unfold bind at 1, try_except. unfold bind at 1, query_one. unfold app.
  simpl. rewrite Hl. reflexivity.
Qed.

End CaptureProperties.

Lemma read_agent_output_leaves_late_chunks_witness :
  exists s',
    Capture.read_agent_output Sanitizer.isprintable_latin1
      (replicate 1 [] ++ [[Agent.ReaderExit]]) capture0
    = (Ok true, s')
    /\ Hub.log_widgets (Capture.app s') !! Capture.log_selector (Capture.agent capture0)
       = Some ([] ++ [Capture.starting (Capture.agent capture0)]
               ++ flat_map (Sanitizer._sanitize_output Sanitizer.isprintable_latin1)
                    (take 2 (Agent.output_queue (Capture.agent capture0)))
               ++ [Capture.stopped_line (Capture.agent capture0)])
    /\ Agent.output_queue (Capture.agent s')
       = drop 2 (Agent.output_queue (Capture.agent capture0))
    /\ Agent.running (Capture.agent s') = false.
Proof.
  apply (read_agent_output_leaves_late_chunks Sanitizer.isprintable_latin1
           1 capture0 []); vm_compute; reflexivity.
Defined.

Lemma read_agent_output_without_widget_witness :
  exists e,
    Capture.read_agent_output Sanitizer.isprintable_latin1
      [[Agent.EnqueueOutput (py "late")]; []] capture1
    = (Ok true,
       ((Hub.set_notifications
           (Hub.notifications (Capture.app capture1)
            ++ [py "Could not find log widget for "
                ++ Agent.name (Capture.agent capture1)
                ++ py ": " ++ str_exn e]) (Capture.app capture1),
         Capture.output_count capture1),
        snd capture1)).
Proof.
  apply (read_agent_output_without_widget Sanitizer.isprintable_latin1
           [[Agent.EnqueueOutput (py "late")]; []] capture1).
  vm_compute. reflexivity.
Defined.

(** ** The analysis of the chat by the mock agent *)

Section AnalysisProperties.

Import Mock Analysis.
Local Arguments py : simpl never.
Local Arguments message_line : simpl never.

Lemma split_from_app a : forall cur b,
  split_from cur (a ++ LF :: b) = split_from cur a ++ split_lf b.
Proof.
  induction a as [|c t IH]; intros cur b; simpl.
  - reflexivity.
  - destruct (c =? LF); [|apply IH]. simpl. f_equal. apply IH.
Qed.

Lemma split_from_line s : forall cur,
  Forall (fun c => c <> LF) s -> split_from cur s = [cur ++ s].
Proof.
  induction s as [|c t IH]; intros cur Hs; simpl.
  - now rewrite app_nil_r.
  - inversion Hs as [|? ? Hc Ht]; subst. apply N.eqb_neq in Hc. rewrite Hc.
    rewrite IH by exact Ht. now rewrite <- app_assoc.
Qed.

Lemma split_lf_app_line a b :
  Forall (fun c => c <> LF) b -> split_lf (a ++ LF :: b) = split_lf a ++ [b].
Proof.
  intros Hb. unfold split_lf. rewrite split_from_app. unfold split_lf.
  now rewrite (split_from_line b []).
Qed.

Lemma lstrip_app a b :
  lstrip (a ++ b) = match lstrip a with [] => lstrip b | _ => lstrip a ++ b end.
Proof.
  induction a as [|c t IH]; simpl; [reflexivity|].
  destruct (isspace c); [exact IH | reflexivity].
Qed.

Lemma rstrip_snoc s c : isspace c = false -> rstrip (s ++ [c]) = s ++ [c].
Proof.
  intros Hc. unfold rstrip. rewrite rev_app_distr. simpl. rewrite Hc.
  simpl. now rewrite rev_involutive.
Qed.

Lemma rstrip_snoc_space s c : isspace c = true -> rstrip (s ++ [c]) = rstrip s.
Proof.
  intros Hc. unfold rstrip. rewrite rev_app_distr. simpl. now rewrite Hc.
Qed.

(** A text that [rstrip] leaves alone ends with a character that is not
    white space. *)
Lemma rstrip_fixed_last s :
  rstrip s = s -> s <> [] -> exists r c, s = r ++ [c] /\ isspace c = false.
Proof.
  unfold rstrip. intros Hs Hne.
  destruct (lstrip (rev s)) as [|c r] eqn:Hl.
  - simpl in Hs. congruence.
  - exists (rev r), c. split; [now rewrite <- Hs|].
    exact (lstrip_head _ _ _ Hl).
Qed.

Lemma strip_last s :
  strip s <> [] -> exists r c, strip s = r ++ [c] /\ isspace c = false.
Proof.
  unfold strip, rstrip. intros Hne.
  destruct (lstrip (rev (lstrip s))) as [|c r] eqn:Hl; [now destruct Hne|].
  exists (rev r), c. split; [reflexivity|]. exact (lstrip_head _ _ _ Hl).
Qed.

Lemma startswith_app s r : startswith (s ++ r) s = true.
Proof.
  unfold startswith. apply bool_decide_eq_true.
  now rewrite take_app_length.
Qed.

Lemma contains_head sub s : startswith s sub = true -> contains sub s = true.
Proof. intros H. destruct s; simpl; now rewrite H. Qed.

Lemma contains_app sub a b : contains sub (a ++ sub ++ b) = true.
Proof.
  induction a as [|c t IH].
  - rewrite app_nil_l. apply contains_head, startswith_app.
  - simpl. rewrite IH. apply orb_true_r.
Qed.

Lemma py_bracket : py "[" = [0x5B].
Proof. reflexivity. Qed.

Lemma py_closing : py "]" = [0x5D].
Proof. reflexivity. Qed.

Lemma py_colon : py "]: " = [0x5D; 0x3A; 0x20].
Proof. reflexivity. Qed.

Lemma is_message_nil : is_message [] = false.
Proof. reflexivity. Qed.

Lemma is_message_line tag text :
  is_message (py "[" ++ tag ++ py "]: " ++ text) = true.
Proof.
  unfold is_message. rewrite startswith_app.
  rewrite (app_assoc (py "[") tag), contains_app. reflexivity.
Qed.

Lemma chat_line_message_line speaker message :
  chat_line speaker message = LF :: message_line speaker message ++ [LF].
Proof.
  unfold chat_line, message_line. rewrite <- !app_assoc. reflexivity.
Qed.

(** What makes a post one line of the chat that [strip] leaves whole. *)
Lemma message_line_facts speaker message :
  LF ∉ speaker -> LF ∉ message -> rstrip message = message -> message <> [] ->
  Forall (fun c => c <> LF) (message_line speaker message)
  /\ (exists t, message_line speaker message = 0x5B :: t)
  /\ (exists r c, message_line speaker message = r ++ [c] /\ isspace c = false).
Proof.
  intros Hs Hm Hr Hne. unfold message_line. rewrite py_bracket, py_colon.
  split; [|split].
  - apply Forall_forall. intros c Hc ->.
    rewrite !elem_of_app, !elem_of_cons, !elem_of_nil in Hc.
    unfold LF in *. intuition discriminate.
  - eexists. reflexivity.
  - destruct (rstrip_fixed_last message Hr Hne) as (r & c & -> & Hc).
    exists ([0x5B] ++ speaker ++ [0x5D; 0x3A; 0x20] ++ r), c.
    split; [now rewrite <- !app_assoc | exact Hc].
Qed.

Lemma strip_framed x :
  (exists t, x = 0x5B :: t) ->
  (exists r c, x = r ++ [c] /\ isspace c = false) ->
  forall pre, Forall (fun c => isspace c = true) pre ->
  strip (pre ++ x ++ [LF]) = x.
Proof.
  intros [t Ht] (r & c & Hr & Hc) pre Hpre. unfold strip.
  rewrite lstrip_app. rewrite (proj2 (lstrip_nil_iff pre) Hpre).
  assert (lstrip (x ++ [LF]) = x ++ [LF]) as -> by now rewrite Ht.
  rewrite rstrip_snoc_space by reflexivity.
  rewrite Hr. now apply rstrip_snoc.
Qed.

(** The text between the first and the last line feed of the chat. *)
Lemma posted_cons ps : forall p,
  posted (p :: ps)
  = LF :: (message_line (fst p) (snd p)
           ++ flat_map (fun q => LF :: LF :: message_line (fst q) (snd q)) ps)
    ++ [LF].
Proof.
  induction ps as [|q qs IH]; intros p.
  - unfold posted. simpl. rewrite !app_nil_r. apply chat_line_message_line.
  - change (posted (p :: q :: qs))
      with (chat_line (fst p) (snd p) ++ posted (q :: qs)).
    rewrite IH, chat_line_message_line. cbn [flat_map app].
    rewrite <- !app_assoc. cbn [app]. now rewrite <- !app_assoc.
Qed.

Lemma posts_end ps : forall p,
  (exists r c, message_line (fst p) (snd p) = r ++ [c] /\ isspace c = false) ->
  Forall (fun q => exists r c, message_line (fst q) (snd q) = r ++ [c]
                               /\ isspace c = false) ps ->
  exists r c,
    message_line (fst p) (snd p)
    ++ flat_map (fun q => LF :: LF :: message_line (fst q) (snd q)) ps
    = r ++ [c] /\ isspace c = false.
Proof.
  induction ps as [|q qs IH]; intros p Hp Hps.
  - simpl. rewrite app_nil_r. exact Hp.
  - inversion Hps as [|? ? Hq Hqs]; subst.
    destruct (IH q Hq Hqs) as (r & c & Hr & Hc).
    exists (message_line (fst p) (snd p) ++ LF :: LF :: r), c.
    split; [|exact Hc]. cbn [flat_map app]. rewrite Hr.
    rewrite <- !app_assoc. reflexivity.
Qed.

Lemma posts_split ps : forall p,
  Forall (fun c => c <> LF) (message_line (fst p) (snd p)) ->
  Forall (fun q => Forall (fun c => c <> LF) (message_line (fst q) (snd q))) ps ->
  split_lf (message_line (fst p) (snd p)
            ++ flat_map (fun q => LF :: LF :: message_line (fst q) (snd q)) ps)
  = message_line (fst p) (snd p)
    :: flat_map (fun q => [[]; message_line (fst q) (snd q)]) ps.
Proof.
  induction ps as [|q qs IH]; intros p Hp Hps.
  - simpl. rewrite app_nil_r. apply (split_from_line _ [] Hp).
  - inversion Hps as [|? ? Hq Hqs]; subst. cbn [flat_map app].
    unfold split_lf. rewrite split_from_app, (split_from_line _ [] Hp).
    cbn [app split_lf split_from]. rewrite N.eqb_refl.
    do 2 f_equal. apply (IH q Hq Hqs).
Qed.

Lemma filter_posts ps :
  filter (fun line => is_message line = true)
    (flat_map (fun q => [[]; message_line (fst q) (snd q)]) ps)
  = map (fun q => message_line (fst q) (snd q)) ps.
Proof.
  induction ps as [|q qs IH]; [reflexivity|]. cbn [flat_map app map].
  rewrite filter_cons_False by (rewrite is_message_nil; discriminate).
  rewrite filter_cons_True by apply is_message_line.
  now rewrite IH.
Qed.

Lemma take_tag speaker : forall tag rest,
  0x5D ∉ speaker -> 0x5D ∉ tag ->
  take (length (tag ++ [0x5D])) (speaker ++ 0x5D :: rest) = tag ++ [0x5D]
  <-> speaker = tag.
Proof.
  induction speaker as [|c t IH]; intros tag rest Hs Ht.
  - destruct tag as [|d tag']; simpl.
    + tauto.
    + split; [|discriminate]. intros [= <- _].
      exfalso. apply Ht. constructor.
  - destruct tag as [|d tag']; simpl.
    + split; [|discriminate]. intros [= ->].
      exfalso. apply Hs. constructor.
    + apply not_elem_of_cons in Hs as [_ Hs].
      apply not_elem_of_cons in Ht as [_ Ht].
      specialize (IH tag' rest Hs Ht). split.
      * intros [= -> H]. f_equal. now apply IH.
      * intros [= -> ->]. f_equal. now apply IH.
Qed.

Lemma is_mine_line self speaker message :
  0x5D ∉ name self -> 0x5D ∉ speaker ->
  is_mine self (message_line speaker message) = bool_decide (speaker = name self).
Proof.
  intros Hn Hs. unfold is_mine, message_line, startswith.
  rewrite py_bracket, py_closing, py_colon.
  apply bool_decide_ext. simpl. split.
  - intros [= H]. eapply take_tag; [exact Hs | exact Hn | exact H].
  - intros H. f_equal. eapply take_tag; [exact Hs | exact Hn | exact H].
Qed.

Lemma count_mine self ps :
  0x5D ∉ name self ->
  Forall (fun p => 0x5D ∉ fst p) ps ->
  length (filter (fun m => is_mine self m = true)
            (map (fun q => message_line (fst q) (snd q)) ps))
  = length (filter (fun p => fst p = name self) ps)
  /\ length (filter (fun m => negb (is_mine self m) = true)
               (map (fun q => message_line (fst q) (snd q)) ps))
     = length (filter (fun p => fst p <> name self) ps).
Proof.
  intros Hn. induction 1 as [|p ps Hp _ [IH1 IH2]]; [split; reflexivity|].
  simpl. pose proof (is_mine_line self (fst p) (snd p) Hn Hp) as Hm.
  destruct (decide (fst p = name self)) as [Heq|Hne].
  - rewrite (bool_decide_eq_true_2 _ Heq) in Hm.
    rewrite !filter_cons_True by (rewrite ?Hm; auto).
    rewrite (filter_cons_False (fun m => negb (is_mine self m) = true))
      by (rewrite Hm; discriminate).
    rewrite (filter_cons_False (fun p => fst p <> name self)) by tauto.
    simpl. split; congruence.
  - rewrite (bool_decide_eq_false_2 _ Hne) in Hm.
    rewrite (filter_cons_False (fun m => is_mine self m = true))
      by (rewrite Hm; discriminate).
    rewrite (filter_cons_False (fun p => fst p = name self)) by exact Hne.
    rewrite !filter_cons_True by (rewrite ?Hm; auto).
    simpl. split; congruence.
Qed.

(** X16: the analysis counts the posts.  For a chat made of posts written
    by [append_to_chat], each with a one-line message that does not end
    in white space and a speaker name without "]", [analyze_chat] finds
    as many messages as there are posts, counts as its own exactly those
    of the agent's name, and as the others' the rest. *)
Theorem analyze_chat_counts_posts (self : MockAgent)
    (posts : list (pystr * pystr)) :
  0x5D ∉ name self ->
  Forall (fun p => (LF ∉ fst p) /\ (0x5D ∉ fst p) /\ (LF ∉ snd p)
                   /\ rstrip (snd p) = snd p /\ snd p <> []) posts ->
  let analysis := analyze_chat self (posted posts) in
  total_messages analysis = length posts
  /\ my_messages analysis = length (filter (fun p => fst p = name self) posts)
  /\ other_messages analysis
     = length (filter (fun p => fst p <> name self) posts).
Proof.
  intros Hn Hposts. simpl.
  assert (Forall (fun p => 0x5D ∉ fst p) posts) as Htags
    by (eapply Forall_impl; [exact Hposts|]; intros p (_ & H & _); exact H).
  assert (Forall (fun p =>
            Forall (fun c => c <> LF) (message_line (fst p) (snd p))
            /\ (exists t, message_line (fst p) (snd p) = 0x5B :: t)
            /\ (exists r c, message_line (fst p) (snd p) = r ++ [c]
                            /\ isspace c = false)) posts) as Hlines.
  { eapply Forall_impl; [exact Hposts|]. intros p (H1 & _ & H3 & H4 & H5).
    now apply message_line_facts. }
  assert (filter (fun line => is_message line = true)
            (split_lf (strip (posted posts)))
          = map (fun q => message_line (fst q) (snd q)) posts) as Hmsgs.
  { destruct posts as [|p ps]; [reflexivity|].
    inversion Hlines as [|? ? (Hp1 & Hp2 & Hp3) Hps]; subst.
    rewrite posted_cons.
    match goal with
    | |- context [strip (LF :: ?x ++ [LF])] =>
        change (LF :: x ++ [LF]) with ([LF] ++ x ++ [LF]);
        rewrite (strip_framed x)
    end.
    - rewrite posts_split.
      + rewrite filter_cons_True by apply is_message_line.
        now rewrite filter_posts.
      + exact Hp1.
      + eapply Forall_impl; [exact Hps|]. intros q (H & _); exact H.
    - destruct Hp2 as [t Ht]. rewrite Ht. eexists. reflexivity.
    - apply posts_end; [exact Hp3|].
      eapply Forall_impl; [exact Hps|]. intros q (_ & _ & H); exact H.
    - repeat constructor. }
  unfold analyze_chat. simpl. rewrite Hmsgs, length_map.
  split; [reflexivity|]. now apply count_mine.
Qed.

Lemma line_found pre x :
  (exists t, x = 0x5B :: t) ->
  (exists r c, x = r ++ [c] /\ isspace c = false) ->
  Forall (fun c => c <> LF) x ->
  x ∈ split_lf (strip (pre ++ LF :: x ++ [LF])).
Proof.
  intros [t Ht] (r & c & Hr & Hc) Hx.
  assert (forall y, rstrip ((y ++ x) ++ [LF]) = y ++ x) as Hrstrip.
  { intros y. rewrite rstrip_snoc_space by reflexivity.
    rewrite Hr, app_assoc. now apply rstrip_snoc. }
  unfold strip. rewrite lstrip_app.
  destruct (lstrip pre) as [|d P] eqn:HP.
  - assert (lstrip (LF :: x ++ [LF]) = x ++ [LF]) as ->
      by (rewrite Ht; reflexivity).
    change (x ++ [LF]) with (([] ++ x) ++ [LF]).
    rewrite (Hrstrip []), app_nil_l. unfold split_lf.
    rewrite split_from_line by exact Hx. apply list_elem_of_here.
  - replace ((d :: P) ++ LF :: x ++ [LF])
      with ((((d :: P) ++ [LF]) ++ x) ++ [LF])
      by (rewrite <- !app_assoc; reflexivity).
    rewrite Hrstrip.
    replace (((d :: P) ++ [LF]) ++ x) with ((d :: P) ++ LF :: x)
      by (rewrite <- !app_assoc; reflexivity).
    rewrite split_lf_app_line by exact Hx.
    apply elem_of_app. right. apply list_elem_of_here.
Qed.

Lemma user_line_analysis self pre ts m :
  Forall (fun c => c <> LF) ts ->
  Forall (fun c => c <> LF) m ->
  (exists r c, m = r ++ [c] /\ isspace c = false) ->
  has_user_messages (analyze_chat self (pre ++ Orchestrator.user_line ts m))
  = true
  /\ (1 <= total_messages
             (analyze_chat self (pre ++ Orchestrator.user_line ts m)))%nat.
Proof.
  intros Hts Hm (r & c & Hr & Hc).
  set (x := py "[" ++ (py "User @ " ++ ts) ++ py "]: " ++ m).
  assert (pre ++ Orchestrator.user_line ts m = pre ++ LF :: x ++ [LF]) as ->.
  { unfold Orchestrator.user_line, x.
    change (py "[User @ ") with (py "[" ++ py "User @ ").
    rewrite <- !app_assoc. reflexivity. }
  assert (x ∈ filter (fun line => is_message line = true)
                (split_lf (strip (pre ++ LF :: x ++ [LF])))) as Hin.
  { apply list_elem_of_filter. split; [apply is_message_line|].
    apply line_found.
    - unfold x. rewrite py_bracket. eexists. reflexivity.
    - exists (py "[" ++ (py "User @ " ++ ts) ++ py "]: " ++ r), c.
      split; [|exact Hc]. unfold x. rewrite Hr, <- !app_assoc. reflexivity.
    - unfold x. repeat (apply Forall_app; split); try assumption;
        vm_compute; repeat (constructor; [discriminate|]); constructor. }
  unfold analyze_chat. simpl. split.
  - apply existsb_exists. exists x. split.
    + apply list_elem_of_In, Hin.
    + unfold x. change (py "[" ++ (py "User @ " ++ ts) ++ py "]: " ++ m)
        with ([] ++ py "[User" ++ (py " @ " ++ ts ++ py "]: " ++ m)).
      apply contains_app.
  - destruct (filter _ _) as [|y ys]; [inversion Hin | simpl; lia].
Qed.

Lemma send_user_message_file o w value :
  Orchestrator.user_message_input o = Some value ->
  strip value <> [] ->
  open_errors w !! Orchestrator.chat_file o = None ->
  encodable (Orchestrator.user_line (now w) (strip value)) = true ->
  content (Orchestrator.chat_file o)
    (snd (snd (Orchestrator.send_user_message (o, w))))
  = content (Orchestrator.chat_file o) w
    ++ Orchestrator.user_line (now w) (strip value).
Proof.
  intros Hin Hmsg Hopen Henc.
  unfold Orchestrator.send_user_message, try_except, bind at 1, get_self.
  simpl. rewrite Hin. destruct (strip value) as [|c m] eqn:Hs; [congruence|].
  unfold bind at 1, in_world at 1, zoom, strftime_now, bind, get_state, ret.
  simpl. unfold in_world, zoom. simpl.
  rewrite append_text_cases. simpl. rewrite Hopen.
  rewrite (utf8_encode_encodable _ Henc). simpl.
  unfold modify_self. simpl. rewrite on_chat_modified_run. simpl.
  unfold content. simpl. now rewrite lookup_insert_eq.
Qed.

(** X17: a message the user sends reaches the agents' analysis.  When a
    one-line message goes through [send_user_message], an agent that
    reads the same chat file afterwards and analyses what it read finds
    at least one message and reports that the user has spoken, whatever
    the chat held before. *)
Theorem user_message_is_seen_by_agent
    (o : Orchestrator.MultiAgentOrchestrator) (w : World) (a : MockAgent)
    (value : pystr) :
  Orchestrator.user_message_input o = Some value ->
  strip value <> [] ->
  Forall (fun c => c <> LF /\ c <> CR) (strip value) ->
  Forall (fun c => c <> LF /\ c <> CR) (now w) ->
  open_errors w !! Orchestrator.chat_file o = None ->
  encodable (Orchestrator.user_line (now w) (strip value)) = true ->
  chat_file a = Orchestrator.chat_file o ->
  let w' := snd (snd (Orchestrator.send_user_message (o, w))) in
  exists chat,
    read_chat (a, w') = (Ok chat, (a, w'))
    /\ has_user_messages (analyze_chat a chat) = true
    /\ (1 <= total_messages (analyze_chat a chat))%nat.
Proof.
  intros Hin Hmsg Hvalue Hnow Hopen Henc Hfile w'.
  exists (universal_newlines (content (chat_file a) w')).
  split; [apply read_chat_run|].
  unfold w'. rewrite Hfile, (send_user_message_file o w value) by assumption.
  assert (forall l, Forall (fun c => c <> LF /\ c <> CR) l ->
                    Forall (fun c => c <> LF) l) as Hlf
    by (intros l Hl; eapply Forall_impl; [exact Hl|]; intros c [H _]; exact H).
  assert (forall l, Forall (fun c => c <> LF /\ c <> CR) l ->
                    Forall (fun c => c <> CR) l) as Hcr
    by (intros l Hl; eapply Forall_impl; [exact Hl|]; intros c [_ H]; exact H).
  destruct (universal_newlines_app_line
              (py "[User @ " ++ now w ++ py "]: " ++ strip value ++ [LF])
              (content (Orchestrator.chat_file o) w)) as [pre Hpre].
  { repeat (apply Forall_app; split); auto;
      vm_compute; repeat (constructor; [discriminate|]); constructor. }
  change (Orchestrator.user_line (now w) (strip value))
    with (LF :: py "[User @ " ++ now w ++ py "]: " ++ strip value ++ [LF]).
  rewrite Hpre.
  change (LF :: py "[User @ " ++ now w ++ py "]: " ++ strip value ++ [LF])
    with (Orchestrator.user_line (now w) (strip value)).
  apply user_line_analysis; auto. now apply strip_last.
Qed.

End AnalysisProperties.

Lemma analyze_chat_counts_posts_witness :
  let analysis :=
    Analysis.analyze_chat (Mock.__init__ (py "Codex")) (Analysis.posted posts0) in
  Analysis.total_messages analysis = length posts0
  /\ Analysis.my_messages analysis
     = length (filter (fun p => fst p = Mock.name (Mock.__init__ (py "Codex")))
                 posts0)
  /\ Analysis.other_messages analysis
     = length (filter (fun p => fst p <> Mock.name (Mock.__init__ (py "Codex")))
                 posts0).
Proof.
  apply (analyze_chat_counts_posts (Mock.__init__ (py "Codex")) posts0).
  - refine (bool_decide_unpack _ _). vm_compute. exact I.
  - refine (bool_decide_unpack _ _). vm_compute. exact I.
Defined.

Lemma user_message_is_seen_by_agent_witness :
  let a := Mock.in_directory (py "workspace") (Mock.__init__ (py "Codex")) in
  let w' := snd (snd (Orchestrator.send_user_message session0)) in
  exists chat,
    Mock.read_chat (a, w') = (Ok chat, (a, w'))
    /\ Analysis.has_user_messages (Analysis.analyze_chat a chat) = true
    /\ (1 <= Analysis.total_messages (Analysis.analyze_chat a chat))%nat.
Proof.
  apply (user_message_is_seen_by_agent (fst session0) (snd session0)
           (Mock.in_directory (py "workspace") (Mock.__init__ (py "Codex")))
           (py "  go on  ")).
  - reflexivity.
  - vm_compute. discriminate.
  - vm_compute. repeat (constructor; [split; discriminate|]). constructor.
  - vm_compute. repeat (constructor; [split; discriminate|]). constructor.
  - vm_compute. reflexivity.
  - vm_compute. reflexivity.
  - vm_compute. reflexivity.
Defined.

(** ** The plan of the mock agent *)

Section PlanProperties.

Import Mock.
Local Arguments py : simpl never.

Lemma encodable_app a b : encodable (a ++ b) = encodable a && encodable b.
Proof. unfold encodable. apply forallb_app. Qed.

Lemma utf8_encode_from_not_encodable s : forall pos,
  encodable s = false -> exists e, utf8_encode_from pos s = inl e.
Proof.
  induction s as [|c t IH]; intros pos H; [discriminate|]. simpl in *.
  destruct (is_surrogate c); simpl in *; [eexists; reflexivity|].
  destruct (IH (S pos) H) as [e ->]. eexists. reflexivity.
Qed.

Lemma encodable_plan_text n challenge :
  encodable (plan_text n challenge)
  = encodable n && encodable (take 200 challenge).
Proof.
  unfold plan_text, unlines. cbn [flat_map].
  rewrite !encodable_app.
  destruct (encodable n), (encodable (take 200 challenge)); reflexivity.
Qed.

Lemma log_run message (a : MockAgent) w :
  log message (a, w)
  = (Ok tt, (a, set_stdout (stdout w ++ [py "[" ++ now w ++ py "] " ++ message]) w)).
Proof. reflexivity. Qed.

(** X18: [write_plan] replaces the plan and announces it.  When both files
    can be opened and the agent's name and the first 200 characters of
    the challenge can be encoded, the plan file holds the plan text
    alone, whatever it held before, the chat file gains the announcement
    as one post, no other file changes, and the agent object is as it
    was. *)
Theorem write_plan_replaces_plan_and_announces (a : MockAgent) (w : World)
    (challenge : pystr) :
  plan_file a <> chat_file a ->
  open_errors w !! plan_file a = None ->
  open_errors w !! chat_file a = None ->
  encodable (name a) = true ->
  encodable (take 200 challenge) = true ->
  exists w',
    write_plan challenge (a, w) = (Ok tt, (a, w'))
    /\ files w'
       = <[chat_file a :=
             content (chat_file a) w
             ++ chat_line (name a)
                  (py "I've written our agreed solution to PLAN_FINAL.md. Please review!")]>
           (<[plan_file a := plan_text (name a) challenge]> (files w)).
Proof.
  intros Hne Hplan Hchat Hname Hchallenge.
  unfold write_plan, bind at 1, get_self. simpl.
  unfold bind at 1, in_world at 1, zoom. simpl.
  rewrite write_text_cases, Hplan.
  rewrite utf8_encode_encodable
    by (rewrite encodable_plan_text, Hname, Hchallenge; reflexivity).
  simpl. unfold bind at 1. rewrite log_run.
  match goal with
  | |- context [append_to_chat ?m (a, ?w1)] =>
      destruct (append_to_chat_run a w1 m) as (w' & Hrun & Hfiles & _)
  end.
  - exact Hchat.
  - unfold chat_line. rewrite !encodable_app, Hname. reflexivity.
  - exists w'. split; [exact Hrun|]. rewrite Hfiles. unfold content. simpl.
    now rewrite lookup_insert_ne by exact Hne.
Qed.

(** X19: the plan is written before the announcement is tried.  When the
    chat file cannot be opened, [write_plan] raises the error of the
    failed open, and the plan file has been replaced all the same. *)
Theorem write_plan_chat_failure_keeps_plan (a : MockAgent) (w : World)
    (challenge : pystr) (e : exn) :
  open_errors w !! plan_file a = None ->
  open_errors w !! chat_file a = Some e ->
  encodable (name a) = true ->
  encodable (take 200 challenge) = true ->
  exists w',
    write_plan challenge (a, w) = (Raise e, (a, w'))
    /\ files w' = <[plan_file a := plan_text (name a) challenge]> (files w).
Proof.
  intros Hplan Hchat Hname Hchallenge.
  unfold write_plan, bind at 1, get_self. simpl.
  unfold bind at 1, in_world at 1, zoom. simpl.
  rewrite write_text_cases, Hplan.
  rewrite utf8_encode_encodable
    by (rewrite encodable_plan_text, Hname, Hchallenge; reflexivity).
  simpl. unfold bind at 1. rewrite log_run.
  unfold append_to_chat, bind at 1, get_self. simpl.
  unfold bind at 1, in_world at 1, zoom. simpl.
  rewrite append_text_cases. simpl. rewrite Hchat.
  eexists. split; reflexivity.
Qed.

(** X20: a challenge that cannot be encoded destroys the plan.  The plan
    file is truncated when it is opened, so when the first 200 characters
    of the challenge hold a lone surrogate, [write_plan] raises, the plan
    file is left empty whatever it held, nothing is posted to the chat
    and nothing is logged. *)
Theorem write_plan_unencodable_empties_plan (a : MockAgent) (w : World)
    (challenge : pystr) :
  open_errors w !! plan_file a = None ->
  encodable (take 200 challenge) = false ->
  exists e,
    write_plan challenge (a, w)
    = (Raise e, (a, set_files (<[plan_file a := []]> (files w)) w)).
Proof.
  intros Hplan Hchallenge.
  unfold write_plan, bind at 1, get_self. simpl.
  unfold bind at 1, in_world at 1, zoom. simpl.
  rewrite write_text_cases, Hplan.
  destruct (utf8_encode_from_not_encodable
              (plan_text (name a) challenge) 0) as [e He].
  { rewrite encodable_plan_text, Hchallenge. apply andb_false_r. }
  unfold utf8_encode. rewrite He. exists e. reflexivity.
Qed.

Lemma setup_workspace_run o w :
  open_errors w !! Orchestrator.workspace o = None ->
  open_errors w !! Orchestrator.chat_file o = None ->
  open_errors w !! Orchestrator.plan_file o = None ->
  exists o',
    Orchestrator.setup_workspace (o, w)
    = (Ok tt,
       (o', set_files (<[Orchestrator.plan_file o := []]>
                         (<[Orchestrator.chat_file o := []]> (files w))) w)).
Proof.
  intros Hdir Hchat Hplan.
  unfold Orchestrator.setup_workspace, bind at 1, get_self. simpl.
  unfold bind at 1, in_world at 1, zoom, mkdir, bind, get_state. simpl.
  rewrite Hdir. simpl. unfold in_world, zoom. simpl.
  rewrite write_text_cases, Hchat. simpl.
  rewrite write_text_cases. simpl. rewrite Hplan. simpl.
  eexists. reflexivity.
Qed.

(** X21: what an agent finds in a fresh workspace.  Once
    [setup_workspace] has gone through, an agent whose two files are the
    orchestrator's reads an empty chat, and for it the plan file exists
    already (and is empty). *)
Theorem setup_workspace_seen_by_agent
    (o : Orchestrator.MultiAgentOrchestrator) (w : World) (a : MockAgent) :
  open_errors w !! Orchestrator.workspace o = None ->
  open_errors w !! Orchestrator.chat_file o = None ->
  open_errors w !! Orchestrator.plan_file o = None ->
  chat_file a = Orchestrator.chat_file o ->
  plan_file a = Orchestrator.plan_file o ->
  let w' := snd (snd (Orchestrator.setup_workspace (o, w))) in
  fst (Orchestrator.setup_workspace (o, w)) = Ok tt
  /\ read_chat (a, w') = (Ok [], (a, w'))
  /\ path_exists (plan_file a) w' = (Ok true, w')
  /\ read_text (plan_file a) w' = (Ok [], w').
Proof.
  intros Hdir Hchat Hplan Hc Hp.
  destruct (setup_workspace_run o w Hdir Hchat Hplan) as [o' Hrun].
  rewrite Hrun. simpl. split; [reflexivity|].
  rewrite read_chat_run, Hc, Hp. unfold content, path_exists, read_text, bind,
    get_state, ret. simpl.
  rewrite lookup_insert_eq. simpl.
  destruct (decide (Orchestrator.plan_file o = Orchestrator.chat_file o))
    as [->|Hne].
  - rewrite lookup_insert_eq. simpl. repeat split; reflexivity.
  - rewrite lookup_insert_ne by exact Hne. rewrite lookup_insert_eq. simpl.
    repeat split; reflexivity.
Qed.

End PlanProperties.

Lemma write_plan_replaces_plan_and_announces_witness :
  let a := Mock.in_directory (py "workspace") (Mock.__init__ (py "Codex")) in
  exists w',
    Mock.write_plan (py "Design a REST API") (a, snd session0) = (Ok tt, (a, w'))
    /\ files w'
       = <[Mock.chat_file a :=
             content (Mock.chat_file a) (snd session0)
             ++ Mock.chat_line (Mock.name a)
                  (py "I've written our agreed solution to PLAN_FINAL.md. Please review!")]>
           (<[Mock.plan_file a := Mock.plan_text (Mock.name a) (py "Design a REST API")]>
              (files (snd session0))).
Proof.
  apply (write_plan_replaces_plan_and_announces
           (Mock.in_directory (py "workspace") (Mock.__init__ (py "Codex")))
           (snd session0) (py "Design a REST API")).
  - apply plan_file_not_chat_file.
  - vm_compute. reflexivity.
  - vm_compute. reflexivity.
  - vm_compute. reflexivity.
  - vm_compute. reflexivity.
Defined.

Lemma write_plan_chat_failure_keeps_plan_witness :
  let a := Mock.in_directory (py "workspace") (Mock.__init__ (py "Codex")) in
  let w := {| files := ∅;
              open_errors := {[ py "workspace/CHAT.md" := ENOSPC ]};
              fds := ∅; channels := ∅; children := ∅; programs := ∅;
              now := py "12:00:00"; stdout := [] |} in
  exists w',
    Mock.write_plan (py "Design a REST API") (a, w) = (Raise ENOSPC, (a, w'))
    /\ files w'
       = <[Mock.plan_file a := Mock.plan_text (Mock.name a) (py "Design a REST API")]>
           (files w).
Proof.
  apply write_plan_chat_failure_keeps_plan; vm_compute; reflexivity.
Defined.

Lemma write_plan_unencodable_empties_plan_witness :
  let a := Mock.in_directory (py "workspace") (Mock.__init__ (py "Codex")) in
  exists e,
    Mock.write_plan (py "Design " ++ [0xD800]) (a, snd session0)
    = (Raise e, (a, set_files (<[Mock.plan_file a := []]> (files (snd session0)))
                      (snd session0))).
Proof.
  apply write_plan_unencodable_empties_plan; vm_compute; reflexivity.
Defined.

Lemma setup_workspace_seen_by_agent_witness :
  let a := Mock.in_directory (py "workspace") (Mock.__init__ (py "Codex")) in
  let w' := snd (snd (Orchestrator.setup_workspace (orchestrator0, world0))) in
  fst (Orchestrator.setup_workspace (orchestrator0, world0)) = Ok tt
  /\ Mock.read_chat (a, w') = (Ok [], (a, w'))
  /\ path_exists (Mock.plan_file a) w' = (Ok true, w')
  /\ read_text (Mock.plan_file a) w' = (Ok [], w').
Proof.
  apply (setup_workspace_seen_by_agent orchestrator0 world0
           (Mock.in_directory (py "workspace") (Mock.__init__ (py "Codex"))));
    vm_compute; reflexivity.
Defined.

(** ** The reader thread *)

Section ReaderProperties.

Import Agent Reader.
Local Arguments py : simpl never.

Lemma poll_exited p w :
  (forall ignores, children w !! pid p <> Some (Alive ignores)) ->
  exists rc p' w', poll (p, w) = (Ok (Some rc), (p', w')).
Proof.
  intros Hdead. unfold poll. simpl.
  destruct (returncode p) as [rc|]; [eexists _, _, _; reflexivity|].
  destruct (children w !! pid p) as [[ignores|status]|] eqn:E.
  - now destruct (Hdead ignores).
  - eexists _, _, _; reflexivity.
  - eexists _, _, _; reflexivity.
Qed.

Lemma read_lines_deliver lines : forall a w p,
  Forall (fun line => line <> []) lines ->
  running a = true -> use_pty a = false -> process a = Some p ->
  (forall ignores, children w !! pid p <> Some (Alive ignores)) ->
  exists a' w',
    read_lines (map Line lines ++ [Line []]) (a, w) = (Ok true, (a', w'))
    /\ output_queue a' = output_queue a ++ lines
    /\ output_buffer a' = output_buffer a ++ lines.
Proof.
  induction lines as [|line rest IH]; intros a w p Hlines Hrun Hpty Hp Hdead.
  - simpl. unfold has_stdout. rewrite Hrun, Hpty, Hp. simpl.
    try rewrite bool_decide_eq_true_2 by (eexists; reflexivity). simpl.
    unfold on_process. simpl. rewrite Hp.
    destruct (poll_exited p w Hdead) as (rc & p' & w' & ->).
    eexists _, _. split; [reflexivity|]. simpl.
    now rewrite !app_nil_r.
  - inversion Hlines as [|? ? Hline Hrest]; subst.
    destruct line as [|c t]; [congruence|].
    simpl. unfold has_stdout. rewrite Hrun, Hpty, Hp. simpl.
    try rewrite bool_decide_eq_true_2 by (eexists; reflexivity). simpl.
    destruct (enqueue_output_run (c :: t) a w) as (w1 & -> & _ & _ & Hch).
    destruct (IH (captured (c :: t) a) w1 p Hrest Hrun Hpty Hp)
      as (a' & w' & -> & Hq & Hb).
    { intros ignores. rewrite Hch. apply Hdead. }
    exists a', w'. split; [reflexivity|]. rewrite Hq, Hb. simpl.
    now rewrite <- !app_assoc.
Qed.

(** X22: the reader thread of a piped agent hands on every line.  When
    the child process has exited, the lines it wrote before are put on
    the queue and in the buffer in the order they are read, after what
    was there; at end of file the thread ends and clears [running]. *)
Theorem read_output_thread_delivers_lines (lines : list pystr)
    (chunks : list pty_read) (a : AgentProcess) (w : World) (p : Popen) :
  Forall (fun line => line <> []) lines ->
  running a = true -> use_pty a = false -> process a = Some p ->
  (forall ignores, children w !! pid p <> Some (Alive ignores)) ->
  exists a' w',
    _read_output_thread (map Line lines ++ [Line []]) chunks (a, w)
    = (Ok true, (a', w'))
    /\ output_queue a' = output_queue a ++ lines
    /\ output_buffer a' = output_buffer a ++ lines
    /\ running a' = false.
Proof.
  intros Hlines Hrun Hpty Hp Hdead.
  destruct (read_lines_deliver lines a w p Hlines Hrun Hpty Hp Hdead)
    as (a' & w' & Hloop & Hq & Hb).
  unfold _read_output_thread, bind at 1, try_except, bind at 1, get_self.
  simpl. rewrite Hpty. simpl. rewrite Hloop.
  unfold bind, modify_self, ret. simpl.
  eexists _, _. split; [reflexivity|]. simpl. auto.
Qed.

(** X23: a failed read on the pipe is reported on the queue only.  The
    thread appends "Error reading output: <error>" to the queue, leaves
    the buffer and the world (the log file too) as they were, clears
    [running] and ends; what could have been read after is not read. *)
Theorem read_output_thread_error_goes_to_queue_only (e : exn)
    (lines : list line_read) (chunks : list pty_read)
    (a : AgentProcess) (w : World) :
  running a = true -> use_pty a = false -> process a <> None ->
  _read_output_thread (LineError e :: lines) chunks (a, w)
  = (Ok true,
     (set_running false
        (set_output_queue
           (output_queue a ++ [py "Error reading output: " ++ str_exn e ++ [LF]])
           a),
      w)).
Proof.
  intros Hrun Hpty Hp.
  unfold _read_output_thread, bind at 1, try_except, bind at 1, get_self.
  simpl. rewrite Hpty. simpl. unfold has_stdout. rewrite Hrun, Hpty. simpl.
  rewrite bool_decide_eq_true_2
    by (destruct (process a); [eexists; reflexivity | congruence]).
  reflexivity.
Qed.

Lemma read_chunks_deliver rounds : forall a w last,
  Forall (fun r => ends_loop r = false) rounds ->
  ends_loop last = true ->
  running a = true ->
  exists a' w',
    read_chunks (rounds ++ [last]) (a, w) = (Ok true, (a', w'))
    /\ output_queue a'
       = output_queue a ++ flat_map delivered rounds ++ reported last
    /\ output_buffer a' = output_buffer a ++ flat_map delivered rounds
    /\ running a' = true /\ use_pty a' = use_pty a
    /\ master_fd a' = master_fd a.
Proof.
  induction rounds as [|r rest IH]; intros a w last Hrounds Hlast Hrun.
  - simpl. rewrite Hrun.
    destruct last as [|[|c t]|e]; try discriminate.
    + eexists _, _. split; [reflexivity|]. simpl.
      rewrite !app_nil_r. auto.
    + eexists _, _. split; [reflexivity|]. simpl.
      rewrite !app_nil_r. auto.
  - inversion Hrounds as [|? ? Hr Hrest]; subst.
    destruct r as [|[|c t]|e]; try discriminate.
    + simpl. rewrite Hrun. apply (IH a w last Hrest Hlast Hrun).
    + simpl. rewrite Hrun.
      destruct (enqueue_output_run (c :: t) a w) as (w1 & -> & _).
      destruct (IH (captured (c :: t) a) w1 last Hrest Hlast Hrun)
        as (a' & w' & -> & Hq & Hb & Hr' & Hp' & Hm').
      exists a', w'. split; [reflexivity|]. rewrite Hq, Hb. simpl.
      rewrite <- !app_assoc. auto.
Qed.

(** X24: the reader thread of an agent on a pseudo-terminal.  Rounds in
    which nothing is ready are skipped and every chunk read is put on
    the queue and in the buffer, in order, until end of file or a failed
    read; a failed read adds "Error reading PTY output: <error>" to the
    queue, not to the buffer; then the thread ends and clears
    [running]. *)
Theorem read_output_thread_pty_delivers_until_end (rounds : list pty_read)
    (last : pty_read) (lines : list line_read)
    (a : AgentProcess) (w : World) (fd : N) :
  Forall (fun r => ends_loop r = false) rounds ->
  ends_loop last = true ->
  running a = true -> use_pty a = true -> master_fd a = Some fd ->
  exists a' w',
    _read_output_thread lines (rounds ++ [last]) (a, w) = (Ok true, (a', w'))
    /\ output_queue a'
       = output_queue a ++ flat_map delivered rounds ++ reported last
    /\ output_buffer a' = output_buffer a ++ flat_map delivered rounds
    /\ running a' = false.
Proof.
  intros Hrounds Hlast Hrun Hpty Hfd.
  destruct (read_chunks_deliver rounds a w last Hrounds Hlast Hrun)
    as (a' & w' & Hloop & Hq & Hb & _).
  unfold _read_output_thread, bind at 1, try_except, bind at 1, get_self.
  simpl. rewrite Hpty, Hfd. simpl.
  unfold _read_from_pty, bind at 1, get_self. simpl. rewrite Hfd, Hloop.
  unfold bind, modify_self, ret. simpl.
  eexists _, _. split; [reflexivity|]. simpl. auto.
Qed.

End ReaderProperties.

Lemma read_output_thread_delivers_lines_witness :
  exists a' w',
    Reader._read_output_thread
      (map Reader.Line [py "one" ++ [LF]; py "two" ++ [LF]] ++ [Reader.Line []])
      [] (fst exited_session, snd exited_session)
    = (Ok true, (a', w'))
    /\ Agent.output_queue a'
       = Agent.output_queue (fst exited_session)
         ++ [py "one" ++ [LF]; py "two" ++ [LF]]
    /\ Agent.output_buffer a'
       = Agent.output_buffer (fst exited_session)
         ++ [py "one" ++ [LF]; py "two" ++ [LF]]
    /\ Agent.running a' = false.
Proof.
  eapply (read_output_thread_delivers_lines
            [py "one" ++ [LF]; py "two" ++ [LF]] []
            (fst exited_session) (snd exited_session)).
  - repeat (constructor; [vm_compute; discriminate|]). constructor.
  - vm_compute. reflexivity.
  - vm_compute. reflexivity.
  - vm_compute. reflexivity.
  - intros ignores. vm_compute. discriminate.
Defined.

Lemma read_output_thread_error_goes_to_queue_only_witness :
  Reader._read_output_thread [Reader.LineError EIO; Reader.Line (py "late")] []
    (fst pipe_session, snd pipe_session)
  = (Ok true,
     (Agent.set_running false
        (Agent.set_output_queue
           (Agent.output_queue (fst pipe_session)
            ++ [py "Error reading output: " ++ str_exn EIO ++ [LF]])
           (fst pipe_session)),
      snd pipe_session)).
Proof.
  apply read_output_thread_error_goes_to_queue_only.
  - vm_compute. reflexivity.
  - vm_compute. reflexivity.
  - vm_compute. discriminate.
Defined.

Lemma read_output_thread_pty_delivers_until_end_witness :
  exists a' w',
    Reader._read_output_thread []
      ([Reader.NotReady; Reader.Data (py "hello"); Reader.NotReady]
       ++ [Reader.PtyError EIO])
      (fst pty_session, snd pty_session)
    = (Ok true, (a', w'))
    /\ Agent.output_queue a'
       = Agent.output_queue (fst pty_session)
         ++ flat_map delivered
              [Reader.NotReady; Reader.Data (py "hello"); Reader.NotReady]
         ++ reported (Reader.PtyError EIO)
    /\ Agent.output_buffer a'
       = Agent.output_buffer (fst pty_session)
         ++ flat_map delivered
              [Reader.NotReady; Reader.Data (py "hello"); Reader.NotReady]
    /\ Agent.running a' = false.
Proof.
  eapply (read_output_thread_pty_delivers_until_end
            [Reader.NotReady; Reader.Data (py "hello"); Reader.NotReady]
            (Reader.PtyError EIO) [] (fst pty_session) (snd pty_session)).
  - repeat (constructor; [reflexivity|]). constructor.
  - reflexivity.
  - vm_compute. reflexivity.
  - vm_compute. reflexivity.
  - vm_compute. reflexivity.
Defined.

(** ** The steps of the sanitizer *)

Section SanitizerSteps.

Import Sanitizer Steps.
Local Arguments py : simpl never.

Variable isprintable : N -> bool.

(** *** Step 1 *)

Lemma replace_cr_normalizes text : normalizes text (replace_cr text).
Proof.
  unfold normalizes, replace_cr. split; [apply length_map|].
  intros i c Hi. rewrite list_lookup_fmap, Hi. simpl. f_equal.
  destruct (decide (c = CR)) as [->|Hc]; [reflexivity|].
  apply N.eqb_neq in Hc. now rewrite Hc.
Qed.

Lemma normalizes_unique text normalized :
  normalizes text normalized -> normalized = replace_cr text.
Proof.
  intros [Hlen Hat]. apply list_eq. intros i.
  destruct (text !! i) as [c|] eqn:Hi.
  - rewrite (Hat i c Hi).
    symmetry. apply (proj2 (replace_cr_normalizes text) i c Hi).
  - unfold replace_cr. rewrite list_lookup_fmap, Hi. simpl.
    apply lookup_ge_None. rewrite Hlen. now apply lookup_ge_None.
Qed.

Lemma replace_cr_no_cr text : Forall (fun c => c <> CR) (replace_cr text).
Proof.
  unfold replace_cr. apply Forall_fmap, Forall_forall. intros c _. simpl.
  destruct (c =? CR) eqn:E; [discriminate | now apply N.eqb_neq].
Qed.

(** *** Step 2 *)

Lemma skip_while_split p s :
  exists run, s = run ++ skip_while p s /\ Forall (fun c => p c = true) run.
Proof.
  induction s as [|c t (run & Ht & Hrun)]; simpl.
  - exists []. split; [reflexivity | constructor].
  - destruct (p c) eqn:E.
    + exists (c :: run). split; [simpl; congruence | now constructor].
    + exists []. split; [reflexivity | constructor].
Qed.

(** The scan of the first alternative finds a sequence of the first form
    at the head of the text, and only there. *)
Lemma match_csi_sound s rest :
  match_csi s = Some rest ->
  exists seq, csi_sequence seq /\ s = seq ++ rest.
Proof.
  unfold match_csi. destruct s as [|e [|b t]]; try discriminate.
  destruct ((e =? ESC) && (b =? 0x5B)) eqn:E; [|discriminate].
  apply andb_true_iff in E as [He Hb].
  apply N.eqb_eq in He, Hb. subst e b.
  destruct (skip_while_split is_param t) as (ps & Ht & Hps).
  destruct (skip_while_split is_inter (skip_while is_param t))
    as (ins & Hi & Hins).
  destruct (skip_while is_inter (skip_while is_param t)) as [|f r];
    [discriminate|].
  destruct (is_final f) eqn:Hf; [|discriminate]. intros [= ->].
  exists (ESC :: 0x5B :: ps ++ ins ++ [f]). split.
  - exists ps, ins, f. auto.
  - rewrite Ht at 1. rewrite Hi. simpl. rewrite <- !app_assoc. reflexivity.
Qed.

Lemma match_csi_prefix seq rest :
  csi_sequence seq -> match_csi (seq ++ rest) = Some rest.
Proof.
  intros (ps & ins & f & -> & Hps & Hins & Hf).
  replace ((ESC :: 0x5B :: ps ++ ins ++ [f]) ++ rest)
    with (ESC :: 0x5B :: ps ++ ins ++ f :: rest)
    by (simpl; rewrite <- !app_assoc; reflexivity).
  now apply match_csi_complete.
Qed.

Lemma match_csi_none s :
  ~ starts_with csi_sequence s -> match_csi s = None.
Proof.
  intros Hno. destruct (match_csi s) as [rest|] eqn:E; [|reflexivity].
  destruct (match_csi_sound s rest E) as (seq & Hseq & ->).
  exfalso. apply Hno. now exists seq, rest.
Qed.

Lemma match_esc2_sound s rest :
  match_esc2 s = Some rest ->
  exists seq, two_byte_sequence seq /\ s = seq ++ rest.
Proof.
  unfold match_esc2. destruct s as [|e [|c t]]; try discriminate.
  destruct ((e =? ESC) && is_esc2 c) eqn:E; [|discriminate].
  apply andb_true_iff in E as [He Hc]. apply N.eqb_eq in He. subst e.
  intros [= ->]. exists [ESC; c]. split; [|reflexivity]. now exists c.
Qed.

Lemma match_esc2_prefix seq rest :
  two_byte_sequence seq -> match_esc2 (seq ++ rest) = Some rest.
Proof.
  intros (c & -> & Hc). simpl. rewrite ?N.eqb_refl, Hc. reflexivity.
Qed.

Lemma match_esc2_none s :
  ~ starts_with two_byte_sequence s -> match_esc2 s = None.
Proof.
  intros Hno. destruct (match_esc2 s) as [rest|] eqn:E; [|reflexivity].
  destruct (match_esc2_sound s rest E) as (seq & Hseq & ->).
  exfalso. apply Hno. now exists seq, rest.
Qed.

Lemma sub_ansi_strips s : strips s (sub_ansi s).
Proof.
  remember (length s) as n eqn:Hn. revert s Hn.
  induction n as [n IH] using lt_wf_ind. intros s ->.
  destruct s as [|c t]; [simp sub_ansi; constructor|].
  destruct (match_ansi (c :: t)) as [rest|] eqn:Hm.
  - rewrite (sub_ansi_match c t rest Hm).
    pose proof (match_ansi_shorter _ _ Hm) as Hshort.
    unfold match_ansi in Hm.
    destruct (match_csi (c :: t)) as [r|] eqn:Hcsi.
    + injection Hm as ->.
      destruct (match_csi_sound _ _ Hcsi) as (seq & Hseq & ->).
      apply strips_csi; [exact Hseq|]. now apply (IH (length rest)).
    + destruct (match_esc2_sound _ _ Hm) as (seq & Hseq & Heq).
      rewrite Heq. apply strips_two_byte; [exact Hseq| |].
      * rewrite <- Heq. intros (seq' & rest' & Hseq' & Heq').
        rewrite Heq', (match_csi_prefix seq' rest' Hseq') in Hcsi.
        discriminate.
      * now apply (IH (length rest)).
  - rewrite (sub_ansi_keep c t Hm). unfold match_ansi in Hm.
    destruct (match_csi (c :: t)) as [r|] eqn:Hcsi; [discriminate|].
    apply strips_keep.
    + intros (seq & rest & Hseq & Heq).
      rewrite Heq, (match_csi_prefix seq rest Hseq) in Hcsi. discriminate.
    + intros (seq & rest & Hseq & Heq).
      rewrite Heq, (match_esc2_prefix seq rest Hseq) in Hm. discriminate.
    + apply (IH (length t)); [simpl; lia | reflexivity].
Qed.

Lemma csi_sequence_cons seq :
  csi_sequence seq -> exists t, seq = ESC :: t.
Proof. intros (ps & ins & f & -> & _). eexists. reflexivity. Qed.

Lemma strips_unique s out : strips s out -> out = sub_ansi s.
Proof.
  induction 1 as [|seq rest out Hseq _ IH|seq rest out Hseq Hno _ IH
                 |c rest out Hcsi Htwo _ IH].
  - now simp sub_ansi.
  - pose proof (match_csi_prefix seq rest Hseq) as Hcsi.
    destruct (csi_sequence_cons seq Hseq) as [t ->]. rewrite IH.
    cbn [app] in *. symmetry. apply sub_ansi_match. unfold match_ansi.
    now rewrite Hcsi.
  - pose proof (match_csi_none _ Hno) as Hcsi.
    pose proof (match_esc2_prefix seq rest Hseq) as Hesc.
    destruct Hseq as (c & -> & Hc). rewrite IH.
    cbn [app] in *. symmetry. apply sub_ansi_match. unfold match_ansi.
    now rewrite Hcsi.
  - rewrite IH. symmetry. apply sub_ansi_keep. unfold match_ansi.
    now rewrite (match_csi_none _ Hcsi), (match_esc2_none _ Htwo).
Qed.

(** Stripping adds no character. *)
Lemma strips_Forall (P : N -> Prop) s out :
  strips s out -> Forall P s -> Forall P out.
Proof.
  induction 1 as [|seq rest out _ _ IH|seq rest out _ _ _ IH
                 |c rest out _ _ _ IH]; intros Hs.
  - constructor.
  - apply IH. now apply Forall_app in Hs as [_ Hs].
  - apply IH. now apply Forall_app in Hs as [_ Hs].
  - inversion Hs; subst. constructor; auto.
Qed.

(** *** Step 3 *)

Lemma keep_iff ch :
  keep isprintable ch = true <-> isprintable ch = true \/ ch = LF \/ ch = TAB.
Proof.
  unfold keep. rewrite !orb_true_iff, !N.eqb_eq. tauto.
Qed.

Lemma filter_keep (s : pystr) :
  filter (fun ch => isprintable ch = true \/ ch = LF \/ ch = TAB) s
  = filter (fun ch => keep isprintable ch = true) s.
Proof.
  induction s as [|c t IH]; [reflexivity|].
  destruct (decide (keep isprintable c = true)) as [Hk|Hk].
  - rewrite (filter_cons_True (fun ch => keep isprintable ch = true))
      by exact Hk.
    rewrite filter_cons_True by (apply (proj1 (keep_iff c)); exact Hk).
    now rewrite IH.
  - rewrite (filter_cons_False (fun ch => keep isprintable ch = true))
      by exact Hk.
    rewrite filter_cons_False
      by (intros H; apply Hk, (proj2 (keep_iff c)); exact H).
    exact IH.
Qed.

Lemma filter_Forall (P : N -> Prop) (Q : N -> Prop)
    `{forall c, Decision (Q c)} (s : pystr) :
  Forall P s -> Forall P (filter Q s).
Proof.
  intros Hs. apply Forall_forall. intros c Hc.
  apply list_elem_of_filter in Hc as [_ Hc].
  rewrite Forall_forall in Hs. now apply Hs.
Qed.

(** *** Step 4 *)

Lemma linebreak_CR : is_linebreak CR = true.
Proof. reflexivity. Qed.

Lemma splitlines_from_splits s : forall cur,
  Forall (fun c => c <> CR) s ->
  Forall (fun c => is_linebreak c = false) cur ->
  splits (cur ++ s) (splitlines_from cur s).
Proof.
  induction s as [|c t IH]; intros cur Hs Hcur.
  - rewrite app_nil_r. simpl. destruct cur as [|x cur'].
    + constructor.
    + now apply splits_last.
  - inversion Hs as [|? ? Hc Ht]; subst. simpl.
    destruct (is_linebreak c) eqn:Hb.
    + apply N.eqb_neq in Hc. rewrite Hc.
      apply splits_line; [exact Hcur | exact Hb|].
      apply (IH [] Ht). constructor.
    + replace (cur ++ c :: t) with ((cur ++ [c]) ++ t)
        by (rewrite <- app_assoc; reflexivity).
      apply IH; [exact Ht|]. apply Forall_app. split; [exact Hcur|].
      now repeat constructor.
Qed.

Lemma splitlines_from_line line : forall cur b rest,
  Forall (fun c => is_linebreak c = false) line ->
  is_linebreak b = true -> b <> CR ->
  splitlines_from cur (line ++ b :: rest)
  = (cur ++ line) :: splitlines_from [] rest.
Proof.
  induction line as [|c t IH]; intros cur b rest Hline Hb Hcr.
  - simpl. rewrite Hb. apply N.eqb_neq in Hcr. rewrite Hcr.
    now rewrite app_nil_r.
  - inversion Hline as [|? ? Hc Ht]; subst. simpl. rewrite Hc.
    rewrite (IH (cur ++ [c]) b rest Ht Hb Hcr).
    now rewrite <- app_assoc.
Qed.

Lemma splits_unique s lines :
  splits s lines -> Forall (fun c => c <> CR) s -> lines = splitlines s.
Proof.
  induction 1 as [|line Hne Hline|line b rest lines Hline Hb _ IH];
    intros Hs.
  - reflexivity.
  - symmetry. apply (splitlines_from_one_line line []); [exact Hline|].
    simpl. exact Hne.
  - apply Forall_app in Hs as [_ Hs].
    inversion Hs as [|? ? Hcr Hrest]; subst.
    unfold splitlines. rewrite splitlines_from_line by assumption.
    simpl. f_equal. now apply IH.
Qed.

(** *** The steps together *)

Lemma in_steps_run text :
  in_steps isprintable text
    (replace_cr text)
    (sub_ansi (replace_cr text))
    (filter (fun ch => keep isprintable ch = true) (sub_ansi (replace_cr text)))
    (splitlines
       (filter (fun ch => keep isprintable ch = true)
          (sub_ansi (replace_cr text)))).
Proof.
  split; [apply replace_cr_normalizes|].
  split; [apply sub_ansi_strips|].
  split; [unfold drops_unprintable; now rewrite filter_keep|].
  apply (splitlines_from_splits _ []); [|constructor].
  apply filter_Forall.
  apply (strips_Forall _ _ _ (sub_ansi_strips _)), replace_cr_no_cr.
Qed.

Lemma in_steps_unique text normalized stripped printable lines :
  in_steps isprintable text normalized stripped printable lines ->
  lines = splitlines
            (filter (fun ch => keep isprintable ch = true)
               (sub_ansi (replace_cr text))).
Proof.
  intros (Hn & Hs & Hp & Hl).
  apply normalizes_unique in Hn. subst normalized.
  apply strips_unique in Hs. subst stripped.
  unfold drops_unprintable in Hp. rewrite filter_keep in Hp. subst printable.
  apply splits_unique; [exact Hl|].
  apply filter_Forall.
  apply (strips_Forall _ _ _ (sub_ansi_strips _)), replace_cr_no_cr.
Qed.

(** C9: the sanitizer does the steps of the specification in their
    order.  The steps can be done on every input: carriage returns become
    line feeds, then the escape sequences of the two forms are deleted,
    then the characters that are neither printable nor line feed nor tab
    are dropped, then the text is split into lines.  Whatever text and
    lines the steps give, the sanitizer returns as many lines as the
    split has, at the place of an empty line of the split a single
    space, a line that is not blank as it is (a line of white space only
    comes out as a single space as well), and so never the empty
    string. *)
Theorem sanitize_output_steps (text : pystr) :
  (exists normalized stripped printable lines,
     in_steps isprintable text normalized stripped printable lines)
  /\ forall normalized stripped printable lines,
       in_steps isprintable text normalized stripped printable lines ->
       length (_sanitize_output isprintable text) = length lines
       /\ (forall i, lines !! i = Some [] ->
             _sanitize_output isprintable text !! i = Some [SPACE])
       /\ (forall i line, lines !! i = Some line ->
             ~ Forall (fun c => isspace c = true) line ->
             _sanitize_output isprintable text !! i = Some line)
       /\ (forall i line, lines !! i = Some line ->
             Forall (fun c => isspace c = true) line ->
             _sanitize_output isprintable text !! i = Some [SPACE])
       /\ Forall (fun line => line <> []) (_sanitize_output isprintable text).
Proof.
  split.
  - eexists _, _, _, _. apply in_steps_run.
  - intros normalized stripped printable lines Hsteps.
    apply in_steps_unique in Hsteps. subst lines.
    unfold _sanitize_output. split; [apply length_map|].
    split; [|split; [|split]].
    + intros i Hi. rewrite list_lookup_fmap, Hi. reflexivity.
    + intros i line Hi Hline. rewrite list_lookup_fmap, Hi. simpl.
      now rewrite blank_to_space_text.
    + intros i line Hi Hline. rewrite list_lookup_fmap, Hi. simpl.
      now rewrite blank_to_space_blank.
    + apply Forall_fmap, Forall_forall. intros line _.
      apply blank_to_space_not_nil.
Qed.

End SanitizerSteps.

(** The steps on a coloured word, a bell between two carriage returns and
    a last line: the bell is dropped and leaves an empty line, which comes
    out as a single space. *)
Lemma sanitize_output_steps_witness :
  Steps.in_steps Sanitizer.isprintable_latin1 steps_text
    ([ESC] ++ py "[31mred" ++ [ESC] ++ py "[0m" ++ [LF; 7; LF] ++ py "ok")
    (py "red" ++ [LF; 7; LF] ++ py "ok")
    (py "red" ++ [LF; LF] ++ py "ok")
    [py "red"; []; py "ok"]
  /\ length (Sanitizer._sanitize_output Sanitizer.isprintable_latin1 steps_text)
     = 3%nat
  /\ Sanitizer._sanitize_output Sanitizer.isprintable_latin1 steps_text !! 1%nat
     = Some [SPACE]
  /\ Sanitizer._sanitize_output Sanitizer.isprintable_latin1 steps_text !! 2%nat
     = Some (py "ok").
Proof.
  assert (Steps.in_steps Sanitizer.isprintable_latin1 steps_text
            ([ESC] ++ py "[31mred" ++ [ESC] ++ py "[0m" ++ [LF; 7; LF] ++ py "ok")
            (py "red" ++ [LF; 7; LF] ++ py "ok")
            (py "red" ++ [LF; LF] ++ py "ok")
            [py "red"; []; py "ok"]) as Hsteps
    by exact (in_steps_run Sanitizer.isprintable_latin1 steps_text).
  split; [exact Hsteps|].
  destruct (proj2 (sanitize_output_steps Sanitizer.isprintable_latin1 steps_text)
              _ _ _ _ Hsteps) as (Hlen & Hempty & Htext & _).
  split; [exact Hlen|]. split.
  - apply Hempty. reflexivity.
  - apply Htext; [reflexivity|].
    intros H. inversion H as [|? ? Hsp _]. discriminate Hsp.
Defined.
